(** * chux-yanzi-core: intent records, canonical hashing, metadata filter, store

    A shallow embedding of the Go packages [model], [hash] and [store].

    Go strings and byte slices ([string], [[]byte], [json.RawMessage]) are
    immutable byte sequences: they are modelled by [string], whose characters
    are the 8-bit [ascii] codes.  Go's [int] and the 32-bit words of SHA-256
    are modelled by [Z] with the wrap-around written out.  A Go
    [map[string]T] is a [gmap string T].  Functions returning [(T, error)]
    return [result T].

    The functions of the Go standard library that the packages call
    ([strings], [encoding/json], [time], [crypto/sha256], [encoding/hex],
    [sort]) are modelled as of Go 1.22, and the query of the store by the
    meaning SQLite gives it. *)

From Stdlib Require Import ZArith Ascii String DecimalString.
From stdpp Require Import gmap strings list fin_maps sorting.

Local Open Scope string_scope.
Local Open Scope Z_scope.

(** ** Errors *)

(** Error values of [encoding/json], by kind (messages and offsets dropped). *)
Inductive json_error :=
| SyntaxError            (* *json.SyntaxError, including "exceeded max depth" *)
| UnmarshalTypeError     (* *json.UnmarshalTypeError *)
| ErrUnexpectedEOF       (* io.ErrUnexpectedEOF *)
| EOF.                   (* io.EOF *)

Inductive error :=
| ErrNew (msg : string)                 (* errors.New(msg) *)
| ErrJSON (e : json_error)              (* an error value of encoding/json or io *)
| ErrWrap (prefix : string) (e : error) (* fmt.Errorf(prefix + ": %w", e) *)
| ErrTime.                              (* *time.ParseError *)

Inductive result (A : Type) :=
| Ok (a : A)
| Err (e : error).
Arguments Ok {A} a.
Arguments Err {A} e.

Global Instance result_ret : MRet result := fun A a => Ok a.
Global Instance result_bind : MBind result := fun A B k r =>
  match r with
  | Ok a => k a
  | Err e => Err e
  end.

Definition is_ok {A} (r : result A) : bool :=
  match r with Ok _ => true | Err _ => false end.

(** ** Bytes *)

Definition code (c : ascii) : Z := Z.of_N (N_of_ascii c).
Definition byte_of (z : Z) : ascii := ascii_of_N (Z.to_N (z mod 256)).

Definition bytes_of (s : string) : list Z := code <$> list_ascii_of_string s.

Definition LF : ascii := "010"%char.
Definition CR : ascii := "013"%char.
Definition DQ : ascii := "034"%char.   (* the double quote *)
Definition BSL : ascii := "092"%char.  (* the backslash *)

(** [b.WriteByte(c)] on a [strings.Builder]: the models return the text
    appended instead of threading the builder. *)
Definition ch (c : ascii) : string := String c EmptyString.

(** ** Package strings *)

(** [strings.ReplaceAll(s, old, new)] for a non-empty [old] (the only use in
    this repository): non-overlapping occurrences, leftmost first.  [skip]
    counts the bytes of a matched occurrence still to be dropped. *)
Fixpoint replace_from (old new : string) (skip : nat) (s : string) : string :=
  match s with
  | EmptyString => EmptyString
  | String c s' =>
      match skip with
      | S k => replace_from old new k s'
      | O => if String.prefix old s
             then new +:+ replace_from old new (String.length old - 1) s'
             else String c (replace_from old new 0 s')
      end
  end.

Definition ReplaceAll (s old new : string) : string := replace_from old new 0 s.

(** ** Package model *)

(** [type IntentRecord struct]; [Meta] is a [json.RawMessage]. *)
Record IntentRecord := {
  ID : string;
  CreatedAt : string;
  Author : string;
  SourceType : string;
  Title : string;
  Prompt : string;
  Response : string;
  Meta : string;
  PrevHash : string;
  Hash : string
}.

Definition CRLF : string := String CR (ch LF).

Definition normalizeNewlines (value : string) : string :=
  if decide (value = "") then value
  else
    let value := ReplaceAll value CRLF (ch LF) in
    let value := ReplaceAll value (ch CR) (ch LF) in
    value.

(** [func (r IntentRecord) Normalize() IntentRecord]: [out := r] and six
    assignments. *)
Definition Normalize (r : IntentRecord) : IntentRecord :=
  {| ID := ID r;
     CreatedAt := CreatedAt r;
     Author := normalizeNewlines (Author r);
     SourceType := normalizeNewlines (SourceType r);
     Title := normalizeNewlines (Title r);
     Prompt := normalizeNewlines (Prompt r);
     Response := normalizeNewlines (Response r);
     Meta := Meta r;
     PrevHash := normalizeNewlines (PrevHash r);
     Hash := Hash r |}.

(** The line-ending rewriting as section 4.1 of the specification words it:
    one pass in which every CRLF and every lone CR becomes LF. *)
Fixpoint lf_endings (s : string) : string :=
  match s with
  | EmptyString => EmptyString
  | String c r =>
      if decide (c = CR) then
        match r with
        | String c' r' =>
            if decide (c' = LF) then String LF (lf_endings r')
            else String LF (lf_endings r)
        | EmptyString => String LF EmptyString
        end
      else String c (lf_endings r)
  end.

(** ** Package unicode/utf8 *)

Definition is_cont (c : ascii) : bool := (128 <=? code c) && (code c <=? 191).

Definition in_range (lo hi : Z) (c : ascii) : bool :=
  (lo <=? code c) && (code c <=? hi).

(** [utf8.DecodeRune] on the bytes [c :: r] with [128 <= c]: the size of the
    well-formed encoding that starts there (2, 3 or 4), or 0 when the bytes
    are not one, which is the case [(RuneError, 1)]: no overlong forms, no
    surrogates, nothing above U+10FFFF. *)
Definition utf8_size (c : ascii) (r : string) : nat :=
  let b0 := code c in
  match r with
  | String c1 r1 =>
      if (194 <=? b0) && (b0 <=? 223) then
        if is_cont c1 then 2%nat else 0%nat
      else
        let lo1 := if b0 =? 224 then 160 else if b0 =? 240 then 144 else 128 in
        let hi1 := if b0 =? 237 then 159 else if b0 =? 244 then 143 else 191 in
        if negb (in_range lo1 hi1 c1) then 0%nat
        else
          match r1 with
          | String c2 r2 =>
              if negb (is_cont c2) then 0%nat
              else if (224 <=? b0) && (b0 <=? 239) then 3%nat
              else if (240 <=? b0) && (b0 <=? 244) then
                match r2 with
                | String c3 _ => if is_cont c3 then 4%nat else 0%nat
                | EmptyString => 0%nat
                end
              else 0%nat
          | EmptyString => 0%nat
          end
  | EmptyString => 0%nat
  end.

(** The rune of a well-formed encoding of [n] bytes starting at [c :: r]. *)
Definition utf8_rune (n : nat) (c : ascii) (r : string) : Z :=
  let low6 c := Z.land (code c) 63 in
  match n, r with
  | 2%nat, String c1 _ =>
      Z.lor (Z.shiftl (Z.land (code c) 31) 6) (low6 c1)
  | 3%nat, String c1 (String c2 _) =>
      Z.lor (Z.shiftl (Z.land (code c) 15) 12)
        (Z.lor (Z.shiftl (low6 c1) 6) (low6 c2))
  | 4%nat, String c1 (String c2 (String c3 _)) =>
      Z.lor (Z.shiftl (Z.land (code c) 7) 18)
        (Z.lor (Z.shiftl (low6 c1) 12) (Z.lor (Z.shiftl (low6 c2) 6) (low6 c3)))
  | _, _ => 65533
  end.

(** [utf8.EncodeRune]: surrogates and runes out of range become U+FFFD. *)
Definition EncodeRune (r : Z) : string :=
  let r := if (r <? 0) || (1114111 <? r) || ((55296 <=? r) && (r <=? 57343))
           then 65533 else r in
  let cont x := byte_of (Z.lor 128 (Z.land x 63)) in
  if r <=? 127 then ch (byte_of r)
  else if r <=? 2047 then
    String (byte_of (Z.lor 192 (Z.shiftr r 6))) (ch (cont r))
  else if r <=? 65535 then
    String (byte_of (Z.lor 224 (Z.shiftr r 12)))
      (String (cont (Z.shiftr r 6)) (ch (cont r)))
  else
    String (byte_of (Z.lor 240 (Z.shiftr r 18)))
      (String (cont (Z.shiftr r 12)) (String (cont (Z.shiftr r 6)) (ch (cont r)))).

(** ** Package encoding/json: scanning *)

(** What the decoder reads before it stores anything: the members of an
    object are in the order of the text, with the names and strings already
    unquoted and the numbers kept as their literal tokens. *)
#[local] Unset Elimination Schemes.
Inductive jtree :=
| TNull
| TBool (b : bool)
| TString (s : string)
| TNumber (tok : string)
| TArray (items : list jtree)
| TObject (members : list (string * jtree)).
#[local] Set Elimination Schemes.

Definition syntax_error {A} : result A := Err (ErrJSON SyntaxError).
Definition unexpected_eof {A} : result A := Err (ErrJSON ErrUnexpectedEOF).

Definition isSpace (c : ascii) : bool :=
  (c =? " ")%char || (c =? "009")%char || (c =? CR)%char || (c =? LF)%char.

Fixpoint skip_space (s : string) : string :=
  match s with
  | String c r => if isSpace c then skip_space r else s
  | EmptyString => s
  end.

(** The rest of a literal ([true], [false], [null]) after its first byte. *)
Fixpoint expect (lit s : string) : result string :=
  match lit with
  | EmptyString => Ok s
  | String a lit' =>
      match s with
      | String b s' => if (a =? b)%char then expect lit' s' else syntax_error
      | EmptyString => unexpected_eof
      end
  end.

Definition isDigit (c : ascii) : bool := in_range 48 57 c.

Fixpoint take_digits (s : string) : string * string :=
  match s with
  | String c r =>
      if isDigit c then let '(d, rest) := take_digits r in (String c d, rest)
      else (EmptyString, s)
  | EmptyString => (EmptyString, EmptyString)
  end.

(** One digit or more. *)
Definition digits1 (s : string) : result (string * string) :=
  match s with
  | String c _ => if isDigit c then Ok (take_digits s) else syntax_error
  | EmptyString => unexpected_eof
  end.

(** The scanner's number states ([stateNeg], [state0], [state1], [stateDot],
    [stateE], ...): the token and the text after it. *)
Definition scan_number (s : string) : result (string * string) :=
  let '(sign, s1) :=
    match s with
    | String c r => if (c =? "-")%char then ("-", r) else ("", s)
    | EmptyString => ("", s)
    end in
  '(int, s2) ←
    match s1 with
    | String c r =>
        if (c =? "0")%char then Ok ("0", r)
        else if in_range 49 57 c then Ok (take_digits s1)
        else syntax_error
    | EmptyString => unexpected_eof
    end;
  '(frac, s3) ←
    match s2 with
    | String c r =>
        if (c =? ".")%char then '(d, r') ← digits1 r; Ok (String c d, r')
        else Ok ("", s2)
    | EmptyString => Ok ("", s2)
    end;
  '(exp, s4) ←
    match s3 with
    | String c r =>
        if (c =? "e")%char || (c =? "E")%char then
          let '(sg, r1) :=
            match r with
            | String c' r' =>
                if (c' =? "+")%char || (c' =? "-")%char then (ch c', r') else ("", r)
            | EmptyString => ("", r)
            end in
          '(d, r2) ← digits1 r1; Ok (String c (sg +:+ d), r2)
        else Ok ("", s3)
    | EmptyString => Ok ("", s3)
    end;
  Ok (sign +:+ int +:+ frac +:+ exp, s4).

Definition hexval (c : ascii) : option Z :=
  if in_range 48 57 c then Some (code c - 48)
  else if in_range 97 102 c then Some (code c - 87)
  else if in_range 65 70 c then Some (code c - 55)
  else None.

Definition hex4 (h1 h2 h3 h4 : ascii) : option Z :=
  a ← hexval h1; b ← hexval h2; c ← hexval h3; d ← hexval h4;
  Some (((a * 16 + b) * 16 + c) * 16 + d).

(** [getu4]: the rune of a [\uXXXX] at the start of [s], or -1. *)
Definition getu4 (s : string) : Z :=
  match s with
  | String c0 (String c1 (String h1 (String h2 (String h3 (String h4 _))))) =>
      if (c0 =? BSL)%char && (c1 =? "u")%char
      then default (-1) (hex4 h1 h2 h3 h4) else -1
  | _ => -1
  end.

Definition IsSurrogate (r : Z) : bool := (55296 <=? r) && (r <? 57344).

(** [utf16.DecodeRune]. *)
Definition utf16_DecodeRune (r1 r2 : Z) : Z :=
  if (55296 <=? r1) && (r1 <? 56320) && (56320 <=? r2) && (r2 <? 57344)
  then Z.lor (Z.shiftl (r1 - 55296) 10) (r2 - 56320) + 65536
  else 65533.

(** The byte an escape letter stands for. *)
Definition unescape (e : ascii) : option ascii :=
  if (e =? DQ)%char || (e =? BSL)%char || (e =? "/")%char then Some e
  else if (e =? "b")%char then Some "008"%char
  else if (e =? "f")%char then Some "012"%char
  else if (e =? "n")%char then Some LF
  else if (e =? "r")%char then Some CR
  else if (e =? "t")%char then Some "009"%char
  else None.

(** Fewer than four bytes are left after [\u]: a byte that is no hexadecimal
    digit is a syntax error, else the input ended too early. *)
Fixpoint short_hex (s : string) : result (string * string) :=
  match s with
  | String c r => if hexval c is Some _ then short_hex r else syntax_error
  | EmptyString => unexpected_eof
  end.

(** A string literal after its opening quote, scanned ([stateInString] and
    its escape states) and unquoted ([unquoteBytes]) in one pass: the
    unquoted string and the text after the closing quote.  [cont] counts the
    continuation bytes of a well-formed UTF-8 encoding still to be copied;
    a byte that starts none becomes U+FFFD. *)
Fixpoint scan_chars (cont : nat) (s : string) : result (string * string) :=
  match s with
  | EmptyString => unexpected_eof
  | String c r =>
      match cont with
      | S k => '(t, rest) ← scan_chars k r; Ok (String c t, rest)
      | O =>
          if (c =? DQ)%char then Ok (EmptyString, r)
          else if (c =? BSL)%char then
            match r with
            | EmptyString => unexpected_eof
            | String e r1 =>
                if (e =? "u")%char then
                  match r1 with
                  | String h1 (String h2 (String h3 (String h4 r2))) =>
                      match hex4 h1 h2 h3 h4 with
                      | Some rr =>
                          let dec := utf16_DecodeRune rr (getu4 r2) in
                          if IsSurrogate rr && negb (dec =? 65533) then
                            match r2 with
                            | String _ (String _ (String _ (String _
                                (String _ (String _ r3))))) =>
                                '(t, rest) ← scan_chars 0 r3;
                                Ok (EncodeRune dec +:+ t, rest)
                            | _ => syntax_error
                            end
                          else
                            '(t, rest) ← scan_chars 0 r2;
                            Ok (EncodeRune rr +:+ t, rest)
                      | None => syntax_error
                      end
                  | _ => short_hex r1
                  end
                else
                  match unescape e with
                  | Some x => '(t, rest) ← scan_chars 0 r1; Ok (String x t, rest)
                  | None => syntax_error
                  end
            end
          else if code c <? 32 then syntax_error
          else if code c <? 128 then
            '(t, rest) ← scan_chars 0 r; Ok (String c t, rest)
          else
            match utf8_size c r with
            | O => '(t, rest) ← scan_chars 0 r; Ok (EncodeRune 65533 +:+ t, rest)
            | S k => '(t, rest) ← scan_chars k r; Ok (String c t, rest)
            end
      end
  end.

Definition maxNestingDepth : nat := Z.to_nat 10000.

(** One value, with the white space before it: the tree and the text after
    the value.  [depth] is the length of the scanner's [parseState] stack.
    [fuel] bounds the recursion: more than twice the length of the text is
    enough, and more than that changes nothing ([scan_value_fuel]). *)
Fixpoint scan_value (fuel depth : nat) (s : string) {struct fuel}
  : result (jtree * string) :=
  match fuel with
  | O => syntax_error
  | S fuel =>
      match skip_space s with
      | EmptyString => unexpected_eof
      | String c r =>
          if (c =? "{")%char then
            if decide (maxNestingDepth < S depth)%nat then syntax_error
            else
              match skip_space r with
              | String c' r' =>
                  if (c' =? "}")%char then Ok (TObject [], r')
                  else
                    '(ms, rest) ← scan_members fuel (S depth) r;
                    Ok (TObject ms, rest)
              | EmptyString => unexpected_eof
              end
          else if (c =? "[")%char then
            if decide (maxNestingDepth < S depth)%nat then syntax_error
            else
              match skip_space r with
              | String c' r' =>
                  if (c' =? "]")%char then Ok (TArray [], r')
                  else
                    '(xs, rest) ← scan_elems fuel (S depth) r;
                    Ok (TArray xs, rest)
              | EmptyString => unexpected_eof
              end
          else if (c =? DQ)%char then
            '(t, rest) ← scan_chars 0 r; Ok (TString t, rest)
          else if (c =? "-")%char || isDigit c then
            '(tok, rest) ← scan_number (String c r); Ok (TNumber tok, rest)
          else if (c =? "t")%char then
            rest ← expect "rue" r; Ok (TBool true, rest)
          else if (c =? "f")%char then
            rest ← expect "alse" r; Ok (TBool false, rest)
          else if (c =? "n")%char then
            rest ← expect "ull" r; Ok (TNull, rest)
          else syntax_error
      end
  end
with scan_elems (fuel depth : nat) (s : string) {struct fuel}
  : result (list jtree * string) :=
  match fuel with
  | O => syntax_error
  | S fuel =>
      '(v, r) ← scan_value fuel depth s;
      match skip_space r with
      | String c r' =>
          if (c =? ",")%char then
            '(vs, rest) ← scan_elems fuel depth r'; Ok (v :: vs, rest)
          else if (c =? "]")%char then Ok ([v], r')
          else syntax_error
      | EmptyString => unexpected_eof
      end
  end
with scan_members (fuel depth : nat) (s : string) {struct fuel}
  : result (list (string * jtree) * string) :=
  match fuel with
  | O => syntax_error
  | S fuel =>
      match skip_space s with
      | String c r =>
          if (c =? DQ)%char then
            '(k, r1) ← scan_chars 0 r;
            match skip_space r1 with
            | String c1 r2 =>
                if (c1 =? ":")%char then
                  '(v, r3) ← scan_value fuel depth r2;
                  match skip_space r3 with
                  | String c2 r4 =>
                      if (c2 =? ",")%char then
                        '(ms, rest) ← scan_members fuel depth r4;
                        Ok ((k, v) :: ms, rest)
                      else if (c2 =? "}")%char then Ok ([(k, v)], r4)
                      else syntax_error
                  | EmptyString => unexpected_eof
                  end
                else syntax_error
            | EmptyString => unexpected_eof
            end
          else syntax_error
      | EmptyString => unexpected_eof
      end
  end.

(** ** Package encoding/json: decoding *)

(** The dynamic values ([any]) that the decoder stores: [nil], [bool],
    [string], a number, [[]any] and [map[string]any].  [JNumber tok] is the
    number read from the token [tok]: the [json.Number] itself under
    [UseNumber], the [float64] parsed from it otherwise. *)
#[local] Unset Elimination Schemes.
Inductive any :=
| JNull
| JBool (b : bool)
| JString (s : string)
| JNumber (tok : string)
| JArray (items : list any)
| JObject (m : gmap string any).
#[local] Set Elimination Schemes.

(** [m[key] = value] for each member in the order of the text: of two
    members with one name the later one stays. *)
Definition store_members {V} (ms : list (string * V)) : gmap string V :=
  foldl (fun m kv => <[kv.1 := kv.2]> m) ∅ ms.

Fixpoint interface_of (t : jtree) : any :=
  match t with
  | TNull => JNull
  | TBool b => JBool b
  | TString s => JString s
  | TNumber tok => JNumber tok
  | TArray items => JArray (interface_of <$> items)
  | TObject members =>
      JObject (store_members ((fun kv => (kv.1, interface_of kv.2)) <$> members))
  end.

Definition scan_fuel (raw : string) : nat := S (2 * String.length raw).

(** [dec.Decode(&v)] of a [json.Decoder] over [raw]: the first value of the
    stream and the text after it. *)
Definition Decode (raw : string) : result (jtree * string) :=
  match skip_space raw with
  | EmptyString => Err (ErrJSON EOF)
  | _ => scan_value (scan_fuel raw) 0 raw
  end.

(** *** Numbers as float64 *)

Definition digit_value (c : ascii) : Z := code c - 48.

Definition digits_value (s : string) : Z :=
  foldl (fun n c => n * 10 + digit_value c) 0 (list_ascii_of_string s).

(** The decimal exponent as [strconv] accumulates it: it stops growing once
    it has reached 10000. *)
Definition capped_exponent (s : string) : Z :=
  foldl (fun e c => if e <? 10000 then e * 10 + digit_value c else e) 0
    (list_ascii_of_string s).

(** The parts of a number token: whether it is negative, the digits before
    and after the point, whether the exponent is negative, and its digits. *)
Definition number_parts (tok : string) : bool * string * string * bool * string :=
  let '(neg, s) :=
    match tok with
    | String c r => if (c =? "-")%char then (true, r) else (false, tok)
    | EmptyString => (false, tok)
    end in
  let '(int, s) := take_digits s in
  let '(frac, s) :=
    match s with
    | String c r => if (c =? ".")%char then take_digits r else (EmptyString, s)
    | EmptyString => (EmptyString, s)
    end in
  let '(eneg, edigits) :=
    match s with
    | String _ (String c r) =>
        if (c =? "-")%char then (true, r)
        else if (c =? "+")%char then (false, r)
        else (false, String c r)
    | _ => (false, EmptyString)
    end in
  (neg, int, frac, eneg, edigits).

(** [strconv.ParseFloat(tok, 64)] fails with [ErrRange] exactly when the
    magnitude rounds to infinity: when it is at least [2^1024 - 2^970], half
    an ulp above the largest float64. *)
Definition float64_overflows (tok : string) : bool :=
  let '(_, int, frac, eneg, edigits) := number_parts tok in
  let e := capped_exponent edigits in
  let e := if eneg : bool then - e else e in
  let n := digits_value (int +:+ frac) in
  let len := Z.of_nat (String.length (int +:+ frac)) in
  let p := e - Z.of_nat (String.length frac) in
  let limit := 2 ^ 1024 - 2 ^ 970 in
  if n =? 0 then false
  else if len + p <=? 308 then false   (* n * 10^p < 10^308 *)
  else if 309 <=? p then true          (* 10^309 <= n * 10^p *)
  else if 0 <=? p then limit <=? n * 10 ^ p
  else limit * 10 ^ (- p) <=? n.

Fixpoint floats_ok (t : jtree) : bool :=
  match t with
  | TNumber tok => negb (float64_overflows tok)
  | TArray items => forallb floats_ok items
  | TObject members => forallb (fun kv => floats_ok kv.2) members
  | _ => true
  end.

(** [json.Unmarshal(raw, &payload)] with [payload] a [map[string]any]:
    [checkValid] over the whole text, whose failures are all syntax errors,
    then the decoding.  The literal [null] leaves the map nil, any other
    value that is no object is a type error, and so is a number out of the
    range of float64. *)
Definition Unmarshal (raw : string) : result (gmap string any) :=
  match scan_value (scan_fuel raw) 0 raw with
  | Err _ => syntax_error
  | Ok (t, rest) =>
      match skip_space rest with
      | String _ _ => syntax_error
      | EmptyString =>
          match t with
          | TNull => Ok ∅
          | TObject members =>
              if floats_ok t then
                Ok (store_members
                      ((fun kv => (kv.1, interface_of kv.2)) <$> members))
              else Err (ErrJSON UnmarshalTypeError)
          | _ => Err (ErrJSON UnmarshalTypeError)
          end
      end
  end.

(** *** Encoding a string *)

Definition hex_digit (z : Z) : ascii :=
  default "0"%char (list_ascii_of_string "0123456789abcdef" !! Z.to_nat z).

(** [htmlSafeSet]: the printable ASCII bytes and DEL, without the double
    quote, the backslash and the three bytes that HTML escaping covers. *)
Definition htmlSafe (c : ascii) : bool :=
  (32 <=? code c) && (code c <? 128)
  && negb ((c =? DQ)%char || (c =? BSL)%char || (c =? "<")%char
           || (c =? ">")%char || (c =? "&")%char).

(** [json.Marshal(s)] of a Go string ([appendString] with [escapeHTML]), as
    of Go 1.22.  [cont] counts the bytes of a well-formed UTF-8 encoding
    still to be copied. *)
Fixpoint escape_from (cont : nat) (s : string) : string :=
  match s with
  | EmptyString => EmptyString
  | String c r =>
      match cont with
      | S k => String c (escape_from k r)
      | O =>
          if code c <? 128 then
            if htmlSafe c then String c (escape_from 0 r)
            else if (c =? BSL)%char || (c =? DQ)%char then
              String BSL (String c (escape_from 0 r))
            else if (c =? "008")%char then String BSL "b" +:+ escape_from 0 r
            else if (c =? "012")%char then String BSL "f" +:+ escape_from 0 r
            else if (c =? LF)%char then String BSL "n" +:+ escape_from 0 r
            else if (c =? CR)%char then String BSL "r" +:+ escape_from 0 r
            else if (c =? "009")%char then String BSL "t" +:+ escape_from 0 r
            else
              String BSL "u00" +:+ String (hex_digit (Z.shiftr (code c) 4))
                (String (hex_digit (Z.land (code c) 15)) (escape_from 0 r))
          else
            match utf8_size c r with
            | O => String BSL "ufffd" +:+ escape_from 0 r
            | S k =>
                let rune := utf8_rune (S k) c r in
                if (rune =? 8232) || (rune =? 8233) then
                  match r with
                  | String _ (String _ r2) =>
                      String BSL "u202"
                      +:+ String (hex_digit (Z.land rune 15)) (escape_from 0 r2)
                  | _ => EmptyString
                  end
                else String c (escape_from k r)
            end
      end
  end.

Definition Marshal_string (s : string) : string :=
  String DQ (escape_from 0 s) +:+ ch DQ.

(** Texts with double quotes are written with an apostrophe for each double
    quote in the examples below. *)
Definition quoted (s : string) : string :=
  string_of_list_ascii
    ((fun c => if (c =? "'")%char then DQ else c) <$> list_ascii_of_string s).

(** ** Package time *)

(** A [time.Time]: the instant, as seconds since the Unix epoch and
    nanoseconds within the second, and the offset in seconds east of UTC of
    its location. *)
Record GoTime := {
  unix : Z;
  nano : Z;
  offset : Z
}.

(** Days since 1970-01-01 of a date of the proleptic Gregorian calendar, and
    back. *)
Definition days_from_civil (y m d : Z) : Z :=
  let y := if m <=? 2 then y - 1 else y in
  let era := y / 400 in
  let yoe := y - era * 400 in
  let doy := (153 * (if 2 <? m then m - 3 else m + 9) + 2) / 5 + d - 1 in
  let doe := yoe * 365 + yoe / 4 - yoe / 100 + doy in
  era * 146097 + doe - 719468.

Definition civil_from_days (z : Z) : Z * Z * Z :=
  let z := z + 719468 in
  let era := z / 146097 in
  let doe := z - era * 146097 in
  let yoe := (doe - doe / 1460 + doe / 36524 - doe / 146096) / 365 in
  let doy := doe - (365 * yoe + yoe / 4 - yoe / 100) in
  let mp := (5 * doy + 2) / 153 in
  let d := doy - (153 * mp + 2) / 5 + 1 in
  let m := if mp <? 10 then mp + 3 else mp - 9 in
  (if m <=? 2 then yoe + era * 400 + 1 else yoe + era * 400, m, d).

Definition isLeap (year : Z) : bool :=
  (year mod 4 =? 0) && (negb (year mod 100 =? 0) || (year mod 400 =? 0)).

Definition daysIn (month year : Z) : Z :=
  if month =? 2 then (if isLeap year then 29 else 28)
  else if (month =? 4) || (month =? 6) || (month =? 9) || (month =? 11) then 30
  else 31.

(** [getnum]: one or two digits, two when [fixed]. *)
Definition getnum (s : string) (fixed : bool) : option (Z * string) :=
  match s with
  | String c0 r0 =>
      if isDigit c0 then
        match r0 with
        | String c1 r1 =>
            if isDigit c1 then Some (digit_value c0 * 10 + digit_value c1, r1)
            else if fixed then None else Some (digit_value c0, r0)
        | EmptyString => if fixed then None else Some (digit_value c0, r0)
        end
      else None
  | EmptyString => None
  end.

(** [skip] of a one-byte layout prefix. *)
Definition skip_byte (c : ascii) (s : string) : option string :=
  match s with
  | String c' r => if (c =? c')%char then Some r else None
  | EmptyString => None
  end.

(** [stdLongYear]: four digits. *)
Definition long_year (s : string) : option (Z * string) :=
  match s with
  | String a (String b (String c (String d r))) =>
      if isDigit a && isDigit b && isDigit c && isDigit d
      then Some (digits_value (String a (String b (String c (ch d)))), r)
      else None
  | _ => None
  end.

(** [stdFracSecond9]: a point or comma and a digit start a fraction, of which
    all the digits are taken and the first nine count; anything else is a
    fraction left out. *)
Definition frac_second (s : string) : Z * string :=
  match s with
  | String c r =>
      match r with
      | String c1 _ =>
          if ((c =? ".")%char || (c =? ",")%char) && isDigit c1 then
            let '(ds, rest) := take_digits r in
            let ds9 := String.substring 0 9 ds in
            (digits_value ds9 * 10 ^ (9 - Z.of_nat (String.length ds9)), rest)
          else (0, s)
      | EmptyString => (0, s)
      end
  | EmptyString => (0, s)
  end.

(** [stdISO8601ColonTZ]: [Z], or a sign, two digits, a colon and two digits;
    the offset in seconds. *)
Definition colon_zone (s : string) : option (Z * string) :=
  match s with
  | String sg (String h1 (String h2 (String col (String m1 (String m2 r))))) =>
      if (sg =? "Z")%char
      then Some (0, String h1 (String h2 (String col (String m1 (String m2 r)))))
      else if negb (col =? ":")%char then None
      else
        '(hr, _) ← getnum (String h1 (ch h2)) true;
        '(mm, _) ← getnum (String m1 (ch m2)) true;
        if (24 <? hr) || (60 <? mm) then None
        else if (sg =? "+")%char then Some ((hr * 60 + mm) * 60, r)
        else if (sg =? "-")%char then Some (- ((hr * 60 + mm) * 60), r)
        else None
  | String sg r => if (sg =? "Z")%char then Some (0, r) else None
  | EmptyString => None
  end.

Definition parse_fields (value : string) : option GoTime :=
  '(year, value) ← long_year value;
  value ← skip_byte "-" value;
  '(month, value) ← getnum value true;
  if (month <=? 0) || (12 <? month) then None else
  value ← skip_byte "-" value;
  '(day, value) ← getnum value true;
  value ← skip_byte "T" value;
  '(hour, value) ← getnum value false;
  if 24 <=? hour then None else
  value ← skip_byte ":" value;
  '(min, value) ← getnum value true;
  if 60 <=? min then None else
  value ← skip_byte ":" value;
  '(sec, value) ← getnum value true;
  if 60 <=? sec then None else
  let '(nsec, value) := frac_second value in
  '(zoneOffset, value) ← colon_zone value;
  if negb (value =? "")%string then None
  else if (day <? 1) || (daysIn month year <? day) then None
  else
    Some {| unix := days_from_civil year month day * 86400
                    + hour * 3600 + min * 60 + sec - zoneOffset;
            nano := nsec;
            offset := zoneOffset |}.

(** [time.Parse(time.RFC3339Nano, value)], the layout
    [2006-01-02T15:04:05.999999999Z07:00]. *)
Definition time_Parse (value : string) : result GoTime :=
  match parse_fields value with
  | Some t => Ok t
  | None => Err ErrTime
  end.

(** [t.UTC()]: the same instant with the location UTC. *)
Definition UTC (t : GoTime) : GoTime :=
  {| unix := unix t; nano := nano t; offset := 0 |}.

Definition decimal (n : Z) : string :=
  DecimalString.NilZero.string_of_uint (N.to_uint (Z.to_N n)).

Definition zeros (n : nat) : string := string_of_list_ascii (replicate n "0"%char).

(** [appendInt(b, x, width)]: the decimal form, padded with zeros to [width]
    digits, after the sign. *)
Definition appendInt (x : Z) (width : nat) : string :=
  let d := decimal (Z.abs x) in
  (if x <? 0 then "-" else "") +:+ zeros (width - String.length d) +:+ d.

Fixpoint drop_zeros (l : list ascii) : list ascii :=
  match l with
  | c :: r => if (c =? "0")%char then drop_zeros r else l
  | [] => []
  end.

(** [appendNano] for [.999999999]: nine digits without the zeros at their
    end, nothing for a whole second. *)
Definition appendNano (nanosec : Z) : string :=
  if nanosec =? 0 then ""
  else
    let ds := list_ascii_of_string (appendInt nanosec 9) in
    "." +:+ string_of_list_ascii
              (reverse (drop_zeros (reverse ds))).

(** [t.Format(time.RFC3339Nano)]: the date and clock of the instant in the
    location of [t]. *)
Definition Format (t : GoTime) : string :=
  let abs := unix t + offset t in
  let '(year, month, day) := civil_from_days (abs / 86400) in
  let secs := abs mod 86400 in
  let zone := offset t / 60 in
  appendInt year 4 +:+ "-" +:+ appendInt month 2 +:+ "-" +:+ appendInt day 2
  +:+ "T" +:+ appendInt (secs / 3600) 2 +:+ ":" +:+ appendInt (secs / 60 mod 60) 2
  +:+ ":" +:+ appendInt (secs mod 60) 2 +:+ appendNano (nano t)
  +:+ (if offset t =? 0 then "Z"
       else (if zone <? 0 then "-" else "+")
            +:+ appendInt (Z.abs zone / 60) 2 +:+ ":"
            +:+ appendInt (Z.abs zone mod 60) 2).

(** ** Package crypto/sha256 *)

(** 32-bit words are integers in [0, 2^32); [w32] is the wrap-around of the
    additions. *)
Definition w32 (x : Z) : Z := x mod 4294967296.

Definition rotr (n x : Z) : Z :=
  Z.lor (Z.shiftr x n) (w32 (Z.shiftl x (32 - n))).

Definition Ch (x y z : Z) : Z :=
  Z.lxor (Z.land x y) (Z.land (Z.lxor x 4294967295) z).
Definition Maj (x y z : Z) : Z :=
  Z.lxor (Z.lxor (Z.land x y) (Z.land x z)) (Z.land y z).
Definition bsig0 (x : Z) : Z := Z.lxor (Z.lxor (rotr 2 x) (rotr 13 x)) (rotr 22 x).
Definition bsig1 (x : Z) : Z := Z.lxor (Z.lxor (rotr 6 x) (rotr 11 x)) (rotr 25 x).
Definition ssig0 (x : Z) : Z := Z.lxor (Z.lxor (rotr 7 x) (rotr 18 x)) (Z.shiftr x 3).
Definition ssig1 (x : Z) : Z := Z.lxor (Z.lxor (rotr 17 x) (rotr 19 x)) (Z.shiftr x 10).

(** The round constants [_K]. *)
Definition K256 : list Z :=
  [
    1116352408; 1899447441; 3049323471; 3921009573; 961987163;
    1508970993; 2453635748; 2870763221; 3624381080; 310598401;
    607225278; 1426881987; 1925078388; 2162078206; 2614888103;
    3248222580; 3835390401; 4022224774; 264347078; 604807628;
    770255983; 1249150122; 1555081692; 1996064986; 2554220882;
    2821834349; 2952996808; 3210313671; 3336571891; 3584528711;
    113926993; 338241895; 666307205; 773529912; 1294757372;
    1396182291; 1695183700; 1986661051; 2177026350; 2456956037;
    2730485921; 2820302411; 3259730800; 3345764771; 3516065817;
    3600352804; 4094571909; 275423344; 430227734; 506948616;
    659060556; 883997877; 958139571; 1322822218; 1537002063;
    1747873779; 1955562222; 2024104815; 2227730452; 2361852424;
    2428436474; 2756734187; 3204031479; 3329325298 ].

(** The eight words of the running hash. *)
Record digest := {
  h0 : Z; h1 : Z; h2 : Z; h3 : Z; h4 : Z; h5 : Z; h6 : Z; h7 : Z
}.

Definition init : digest :=
  {| h0 := 1779033703; h1 := 3144134277; h2 := 1013904242; h3 := 2773480762;
     h4 := 1359893119; h5 := 2600822924; h6 := 528734635; h7 := 1541459225 |}.

(** Big-endian words of a block. *)
Fixpoint words_of (bs : list Z) : list Z :=
  match bs with
  | b0 :: b1 :: b2 :: b3 :: rest =>
      Z.lor (Z.shiftl b0 24) (Z.lor (Z.shiftl b1 16) (Z.lor (Z.shiftl b2 8) b3))
      :: words_of rest
  | _ => []
  end.

(** One round: the working variables, and the window of the sixteen latest
    words of the message schedule, whose first is the word of the round. *)
Definition round (st : digest * list Z) (k : Z) : digest * list Z :=
  let '(v, w) := st in
  let wt := default 0 (w !! 0%nat) in
  let t1 := h7 v + bsig1 (h4 v) + Ch (h4 v) (h5 v) (h6 v) + k + wt in
  let t2 := bsig0 (h0 v) + Maj (h0 v) (h1 v) (h2 v) in
  let next := w32 (ssig1 (default 0 (w !! 14%nat)) + default 0 (w !! 9%nat)
                   + ssig0 (default 0 (w !! 1%nat)) + wt) in
  ({| h0 := w32 (t1 + t2); h1 := h0 v; h2 := h1 v; h3 := h2 v;
      h4 := w32 (h3 v + t1); h5 := h4 v; h6 := h5 v; h7 := h6 v |},
   (tail w ++ [next])%list).

(** [block]: one block of 64 bytes into the running hash. *)
Definition block (d : digest) (bs : list Z) : digest :=
  let v := (foldl round (d, words_of bs) K256).1 in
  {| h0 := w32 (h0 d + h0 v); h1 := w32 (h1 d + h1 v);
     h2 := w32 (h2 d + h2 v); h3 := w32 (h3 d + h3 v);
     h4 := w32 (h4 d + h4 v); h5 := w32 (h5 d + h5 v);
     h6 := w32 (h6 d + h6 v); h7 := w32 (h7 d + h7 v) |}.

(** [d.Write]: a byte goes to the buffer [x], and a full buffer into the
    running hash. *)
Definition absorb (st : digest * list Z) (b : Z) : digest * list Z :=
  let '(d, x) := st in
  let x := (x ++ [b])%list in
  if decide (length x = 64%nat) then (block d x, []) else (d, x).

(** The padding of [checkSum]: the byte 128, zeros up to 56 modulo 64, the
    length in bits as eight bytes, the most significant first. *)
Definition padding (len : Z) : list Z :=
  let bits := len * 8 in
  (128 :: replicate (Z.to_nat ((55 - len) mod 64)) 0
   ++ ((fun i => Z.shiftr bits (8 * i) mod 256) <$> [7; 6; 5; 4; 3; 2; 1; 0]))%list.

Definition word_bytes (w : Z) : list Z :=
  [Z.land (Z.shiftr w 24) 255; Z.land (Z.shiftr w 16) 255;
   Z.land (Z.shiftr w 8) 255; Z.land w 255].

(** [sha256.Sum256(data)]: the 32 bytes of the checksum. *)
Definition Sum256 (data : string) : list Z :=
  let bs := bytes_of data in
  let d := (foldl absorb (init, []) (bs ++ padding (Z.of_nat (length bs)))%list).1 in
  (word_bytes (h0 d) ++ word_bytes (h1 d) ++ word_bytes (h2 d) ++ word_bytes (h3 d)
   ++ word_bytes (h4 d) ++ word_bytes (h5 d) ++ word_bytes (h6 d)
   ++ word_bytes (h7 d))%list.

(** ** Package encoding/hex *)

(** [hex.EncodeToString]: two digits of [hextable] for a byte. *)
Definition EncodeToString (src : list Z) : string :=
  string_of_list_ascii
    (src ≫= fun v => [hex_digit (Z.shiftr v 4); hex_digit (Z.land v 15)]).

(** ** Package sort *)

(** [sort.Strings]: ascending in the order [<] of Go strings, which compares
    them byte by byte. *)
Definition sort_Strings (keys : list string) : list string :=
  merge_sort String.le keys.

(** ** Package hash *)

Section hash.

(** Go leaves open the order in which [for key := range obj] yields the
    keys of a map, and changes it from one loop to the next.
    [range_order] is that order, as a rearrangement of the keys. *)
Variable range_order : list string -> list string.

(** The body of [writeJSONObject], with the text [write] gives a value:
    the keys collected by the [range] loop and sorted, then [obj[key]]
    written for each of them ([nil], written [null], for a key that the
    map does not hold). *)
Definition write_object (write : any -> string) (obj : gmap string any) : string :=
  let keys := sort_Strings (range_order (map_to_list obj).*1) in
  let text := write <$> obj in
  "{"
  +:+ String.concat ","
        ((fun key => Marshal_string key +:+ ":" +:+ default "null" (text !! key))
           <$> keys)
  +:+ "}".

(** [writeJSONValue] and [writeJSONObject] return the text they append to
    the builder.  Their error result is nil on every value that
    [decodeJSON] returns, whose numbers are all [json.Number]: the cases
    [float64] and [default] of the type switch are not reached. *)
Fixpoint writeJSONValue (value : any) : string :=
  match value with
  | JNull => "null"
  | JBool v => if v then "true" else "false"
  | JString v => Marshal_string v
  | JNumber v => v
  | JArray v => "[" +:+ String.concat "," (writeJSONValue <$> v) +:+ "]"
  | JObject v => write_object writeJSONValue v
  end.

Definition writeJSONObject (obj : gmap string any) : string :=
  write_object writeJSONValue obj.

Definition trailing_data : error := ErrNew "unexpected trailing JSON data".

(** [ensureEOF] on the decoder whose unread text is [rest]. *)
Definition ensureEOF (rest : string) : result unit :=
  match Decode rest with
  | Ok _ => Err trailing_data
  | Err (ErrJSON EOF) => Ok ()
  | Err _ => Err trailing_data
  end.

(** [decodeJSON] before the value is stored in [v]: the tree of the only
    value in [raw]. *)
Definition decode_tree (raw : string) : result jtree :=
  '(v, rest) ← Decode raw;
  _ ← ensureEOF rest;
  Ok v.

Definition decodeJSON (raw : string) : result any :=
  v ← decode_tree raw;
  Ok (interface_of v).

(** A nil slice and an empty one are both the empty string: the callers
    only take their length. *)
Definition CanonicalizeMeta (raw : string) : result string :=
  if decide (String.length raw = 0)%nat then Ok ""
  else
    value ← decodeJSON raw;
    match value with
    | JObject obj => Ok (writeJSONObject obj)
    | _ => Err (ErrNew "meta must be a JSON object")
    end.

Definition normalizeRFC3339 (value : string) : result string :=
  parsed ← time_Parse value;
  Ok (Format (UTC parsed)).

(** The builder and the flag [first], threaded through the field writers. *)
Definition addStringField (st : string * bool) (name value : string)
  : string * bool :=
  let '(b, first) := st in
  let b := if first then b else b +:+ "," in
  (b +:+ ch DQ +:+ name +:+ String DQ ":" +:+ Marshal_string value, false).

Definition addRawField (st : string * bool) (name raw : string)
  : string * bool :=
  let '(b, first) := st in
  let b := if first then b else b +:+ "," in
  (b +:+ ch DQ +:+ name +:+ String DQ ":" +:+ raw, false).

Definition canonicalIntentPreimage (record : IntentRecord) : result string :=
  if decide (String.length (ID record) = 0)%nat
  then Err (ErrNew "id is required for hashing")
  else if decide (String.length (CreatedAt record) = 0)%nat
  then Err (ErrNew "created_at is required for hashing")
  else
    match normalizeRFC3339 (CreatedAt record) with
    | Err _ => Err (ErrNew "created_at must be RFC3339")
    | Ok createdAt =>
        if decide (String.length (Author record) = 0)%nat
        then Err (ErrNew "author is required for hashing")
        else if decide (String.length (SourceType record) = 0)%nat
        then Err (ErrNew "source_type is required for hashing")
        else if decide (String.length (Prompt record) = 0)%nat
        then Err (ErrNew "prompt is required for hashing")
        else if decide (String.length (Response record) = 0)%nat
        then Err (ErrNew "response is required for hashing")
        else
          meta ← (if decide (0 < String.length (Meta record))%nat
                  then CanonicalizeMeta (Meta record)
                  else Ok "");
          let st := ("{", true) in
          let st := addStringField st "id" (ID record) in
          let st := addStringField st "created_at" createdAt in
          let st := addStringField st "author" (Author record) in
          let st := addStringField st "source_type" (SourceType record) in
          let st := if decide (Title record = "") then st
                    else addStringField st "title" (Title record) in
          let st := addStringField st "prompt" (Prompt record) in
          let st := addStringField st "response" (Response record) in
          let st := if decide (0 < String.length meta)%nat
                    then addRawField st "meta" meta else st in
          let st := if decide (PrevHash record = "") then st
                    else addStringField st "prev_hash" (PrevHash record) in
          Ok (st.1 +:+ "}")
    end.

Definition HashIntent (record : IntentRecord) : result string :=
  let normalized := Normalize record in
  preimage ← canonicalIntentPreimage normalized;
  let sum := Sum256 preimage in
  Ok (EncodeToString sum).

End hash.

(** ** Package store *)

(** [matchesMetaFilters]: both [range] loops give the same result in every
    order of the keys, the first builds a map and the second returns
    [false] at any filter that is not met. *)
Definition matchesMetaFilters (raw : string) (filters : gmap string string)
  : result bool :=
  if decide (size filters = 0)%nat then Ok true
  else if decide (String.length raw = 0)%nat then Ok false
  else
    match Unmarshal raw with
    | Err err => Err (ErrWrap "decode meta" err)
    | Ok payload =>
        let meta : gmap string string :=
          omap (fun value => match value with JString s => Some s | _ => None end)
            payload in
        Ok (bool_decide (map_Forall (fun key want => meta !! key = Some want) filters))
    end.

(** The loop of [FilterIntentsByMeta] over the intents still to visit, with
    the slice [filtered] built so far. *)
Fixpoint filter_loop (filters : gmap string string)
    (intents filtered : list IntentRecord) : result (list IntentRecord) :=
  match intents with
  | [] => Ok filtered
  | intent :: rest =>
      match_ ← matchesMetaFilters (Meta intent) filters;
      filter_loop filters rest
        (if match_ : bool then (filtered ++ [intent])%list else filtered)
  end.

Definition FilterIntentsByMeta (intents : list IntentRecord)
    (filters : gmap string string) : result (list IntentRecord) :=
  if decide (size filters = 0)%nat then Ok intents
  else filter_loop filters intents [].

(** A row of the table [intents]: the columns [title], [meta] and
    [prev_hash] may be NULL, the others are declared NOT NULL. *)
Record row := {
  col_id : string;
  col_created_at : string;
  col_author : string;
  col_source_type : string;
  col_title : option string;
  col_prompt : string;
  col_response : string;
  col_meta : option string;
  col_prev_hash : option string;
  col_hash : string
}.

(** The values [CreateIntent] binds to the INSERT statement. *)
Definition insert_values (record : IntentRecord) : row :=
  {| col_id := ID record;
     col_created_at := CreatedAt record;
     col_author := Author record;
     col_source_type := SourceType record;
     col_title := if decide (Title record = "") then None else Some (Title record);
     col_prompt := Prompt record;
     col_response := Response record;
     col_meta := if decide (0 < String.length (Meta record))%nat
                 then Some (Meta record) else None;
     col_prev_hash := if decide (PrevHash record = "") then None
                      else Some (PrevHash record);
     col_hash := Hash record |}.

(** [rows.Scan] and the three assignments after it. *)
Definition scan_row (r : row) : IntentRecord :=
  {| ID := col_id r;
     CreatedAt := col_created_at r;
     Author := col_author r;
     SourceType := col_source_type r;
     Title := default "" (col_title r);
     Prompt := col_prompt r;
     Response := col_response r;
     Meta := match col_meta r with
             | Some m => if decide (m = "") then "" else m
             | None => ""
             end;
     PrevHash := default "" (col_prev_hash r);
     Hash := col_hash r |}.

(** [ORDER BY created_at DESC]: the rows with the greater text in the column
    first, texts compared byte by byte as SQLite does for a TEXT column. *)
Definition created_desc (r1 r2 : row) : Prop :=
  String.le (col_created_at r2) (col_created_at r1).

Global Instance created_desc_dec : RelDecision created_desc.
Proof. intros r1 r2. unfold created_desc. apply _. Defined.

(** What [ORDER BY created_at DESC] asks of the engine: the rows of the
    table, rearranged with the greater texts first.  SQL leaves open the
    order of the rows whose [created_at] is the same. *)
Definition orders_recent (order_by : list row -> list row) : Prop :=
  forall table,
    order_by table ≡ₚ table /\ StronglySorted created_desc (order_by table).

(** The result set of
    [SELECT ... FROM intents ORDER BY created_at DESC LIMIT ?] on the rows
    [table], for a positive bound: the first rows in the order [order_by] in
    which the engine sorts the table, see [orders_recent]. *)
Definition select_recent (order_by : list row -> list row) (table : list row)
    (limit : Z) : list row :=
  take (Z.to_nat limit) (order_by table).

(** [ListIntents] on a store whose table holds the rows [table], when the
    storage engine reports no failure of its own. *)
Definition ListIntents (order_by : list row -> list row) (table : list row)
    (limit : Z) : list IntentRecord :=
  let limit := if limit <=? 0 then 100 else limit in
  scan_row <$> select_recent order_by table limit.

(** ** Notions used to state the properties *)

(** The record with the line endings of its free-text fields rewritten to LF;
    the free-text fields are the six that [Normalize] assigns. *)
Definition lf_record (r : IntentRecord) : IntentRecord :=
  {| ID := ID r;
     CreatedAt := CreatedAt r;
     Author := lf_endings (Author r);
     SourceType := lf_endings (SourceType r);
     Title := lf_endings (Title r);
     Prompt := lf_endings (Prompt r);
     Response := lf_endings (Response r);
     Meta := Meta r;
     PrevHash := lf_endings (PrevHash r);
     Hash := Hash r |}.

Definition with_Hash (r : IntentRecord) (h : string) : IntentRecord :=
  {| ID := ID r; CreatedAt := CreatedAt r; Author := Author r;
     SourceType := SourceType r; Title := Title r; Prompt := Prompt r;
     Response := Response r; Meta := Meta r; PrevHash := PrevHash r;
     Hash := h |}.

Definition with_Meta (r : IntentRecord) (m : string) : IntentRecord :=
  {| ID := ID r; CreatedAt := CreatedAt r; Author := Author r;
     SourceType := SourceType r; Title := Title r; Prompt := Prompt r;
     Response := Response r; Meta := m; PrevHash := PrevHash r;
     Hash := Hash r |}.

Definition with_CreatedAt (r : IntentRecord) (c : string) : IntentRecord :=
  {| ID := ID r; CreatedAt := c; Author := Author r;
     SourceType := SourceType r; Title := Title r; Prompt := Prompt r;
     Response := Response r; Meta := Meta r; PrevHash := PrevHash r;
     Hash := Hash r |}.

Definition has_CR (s : string) : Prop := CR ∈ list_ascii_of_string s.

(** The order of a [range] loop is a rearrangement of the keys. *)
Definition rearranges (f : list string -> list string) : Prop :=
  forall l, f l ≡ₚ l.

Definition is_lower_hex (c : ascii) : bool :=
  in_range 48 57 c || in_range 97 102 c.

(** The number of nodes of a value, a measure for inductions on it. *)
Fixpoint any_size (v : any) : nat :=
  match v with
  | JArray items => S (foldr (fun x n => any_size x + n)%nat 0%nat items)
  | JObject m => S (map_fold (fun _ x n => any_size x + n)%nat 0%nat m)
  | _ => 1%nat
  end.

(** [key_perm t1 t2]: [t2] is [t1] with the members of its objects listed in
    another order, at every level.  The members of an object have distinct
    names. *)
#[local] Unset Elimination Schemes.
Inductive key_perm : jtree -> jtree -> Prop :=
| key_perm_null : key_perm TNull TNull
| key_perm_bool b : key_perm (TBool b) (TBool b)
| key_perm_string s : key_perm (TString s) (TString s)
| key_perm_number tok : key_perm (TNumber tok) (TNumber tok)
| key_perm_array xs ys :
    Forall2 key_perm xs ys -> key_perm (TArray xs) (TArray ys)
| key_perm_object ms ms' ns :
    NoDup ms.*1 ->
    ms ≡ₚ ms' ->
    Forall2 (fun a b => a.1 = b.1 /\ key_perm a.2 b.2) ms' ns ->
    key_perm (TObject ms) (TObject ns).
#[local] Set Elimination Schemes.

(** Ascending and not equal, in the order [String.le], which compares the
    strings byte by byte ([String_le_bytes]). *)
Definition key_lt (s1 s2 : string) : Prop := String.le s1 s2 /\ s1 <> s2.

(** [obj[key]] is nil for a key that the map does not hold. *)
Global Instance any_inhabited : Inhabited any := populate JNull.

(** The number a token denotes, as [(n, p)] for [n * 10^p], and whether two
    tokens denote one number. *)
Definition number_value (tok : string) : Z * Z :=
  let '(neg, int, frac, eneg, edigits) := number_parts tok in
  let n := digits_value (int +:+ frac) in
  let e := digits_value edigits in
  (if neg : bool then - n else n,
   (if eneg : bool then - e else e) - Z.of_nat (String.length frac)).

Definition same_number (tok1 tok2 : string) : bool :=
  let '(n1, p1) := number_value tok1 in
  let '(n2, p2) := number_value tok2 in
  let p := Z.min p1 p2 in
  n1 * 10 ^ (p1 - p) =? n2 * 10 ^ (p2 - p).

(** The errors of the checks that [canonicalIntentPreimage] makes on the
    fields other than the metadata. *)
Definition validation_errors : list error :=
  ErrNew <$> [ "id is required for hashing";
               "created_at is required for hashing";
               "created_at must be RFC3339";
               "author is required for hashing";
               "source_type is required for hashing";
               "prompt is required for hashing";
               "response is required for hashing" ].

(** The record of the example in section 8 of the specification. *)
Definition example_record : IntentRecord :=
  {| ID := "x"; CreatedAt := "2026-02-09T10:00:00Z"; Author := "a";
     SourceType := "cli"; Title := ""; Prompt := "p"; Response := "r";
     Meta := ""; PrevHash := ""; Hash := "" |}.

(** A record of the filter tests: an id and metadata, the other fields
    empty. *)
Definition intent_with_meta (id meta : string) : IntentRecord :=
  {| ID := id; CreatedAt := ""; Author := ""; SourceType := ""; Title := "";
     Prompt := ""; Response := ""; Meta := meta; PrevHash := ""; Hash := "" |}.

(** Descending by [CreatedAt], the texts compared byte by byte. *)
Definition recent_first (a b : IntentRecord) : Prop :=
  String.le (CreatedAt b) (CreatedAt a).

(** The lexicographic order on sequences of bytes, which is the order [<=] of
    Go strings. *)
Fixpoint bytes_le (l1 l2 : list Z) : Prop :=
  match l1, l2 with
  | [], _ => True
  | _ :: _, [] => False
  | b1 :: r1, b2 :: r2 => b1 < b2 \/ (b1 = b2 /\ bytes_le r1 r2)
  end.

(** ** Packages unicode and strings: trimming *)

(** [unicode.IsSpace]: the switch on the Latin-1 runes, and the table
    [White_Space] for the others. *)
Definition IsSpace (r : Z) : bool :=
  if r <=? 255 then
    ((9 <=? r) && (r <=? 13)) || (r =? 32) || (r =? 133) || (r =? 160)
  else
    (r =? 5760) || ((8192 <=? r) && (r <=? 8202)) || (r =? 8232) || (r =? 8233)
    || (r =? 8239) || (r =? 8287) || (r =? 12288).

(** The table [asciiSpace] of package [strings]. *)
Definition asciiSpace (c : ascii) : bool := in_range 9 13 c || (c =? " ")%char.

(** [utf8.DecodeRuneInString]: the rune and its width. *)
Definition DecodeRuneInString (s : string) : Z * nat :=
  match s with
  | EmptyString => (65533, 0%nat)
  | String c r =>
      if code c <? 128 then (code c, 1%nat)
      else
        match utf8_size c r with
        | O => (65533, 1%nat)
        | S k => (utf8_rune (S k) c r, S k)
        end
  end.

(** [utf8.RuneStart]. *)
Definition RuneStart (c : ascii) : bool := negb (Z.land (code c) 192 =? 128).

(** [s[i]], for an index within the string. *)
Definition byte_at (s : string) (i : Z) : ascii :=
  default "000"%char (String.get (Z.to_nat i) s).

(** The loop of [utf8.DecodeLastRuneInString] that steps [start] back to a
    byte that starts a rune, not below [lim]; it runs less than [UTFMax]
    times, which [n] counts. *)
Fixpoint last_start (s : string) (lim : Z) (n : nat) (start : Z) : Z :=
  match n with
  | O => start
  | S n =>
      if start <? lim then start
      else if RuneStart (byte_at s start) then start
      else last_start s lim n (start - 1)
  end.

Definition DecodeLastRuneInString (s : string) : Z * nat :=
  let end_ := Z.of_nat (String.length s) in
  if end_ =? 0 then (65533, 0%nat)
  else
    let start := end_ - 1 in
    let r := code (byte_at s start) in
    if r <? 128 then (r, 1%nat)
    else
      let lim := Z.max 0 (end_ - 4) in
      let start := Z.max 0 (last_start s lim 4 (start - 1)) in
      let '(r, size) :=
        DecodeRuneInString
          (String.substring (Z.to_nat start) (Z.to_nat (end_ - start)) s) in
      if start + Z.of_nat size =? end_ then (r, size) else (65533, 1%nat).

(** [strings.TrimLeftFunc(s, f)]: [indexFunc] ranges over the runes of [s]
    up to the first one that [f] rejects; [skip] counts the bytes of the
    current rune still to be passed. *)
Fixpoint trim_left (f : Z -> bool) (skip : nat) (s : string) : string :=
  match s with
  | EmptyString => EmptyString
  | String c r =>
      match skip with
      | S k => trim_left f k r
      | O =>
          let '(rune, size) := DecodeRuneInString s in
          if f rune then trim_left f (size - 1) r else s
      end
  end.

Definition TrimLeftFunc (s : string) (f : Z -> bool) : string := trim_left f 0 s.

(** [lastIndexFunc(s, f, false)] from the index [i] down; each step takes
    one byte or more, [fuel] bounds their number. *)
Fixpoint last_index (fuel : nat) (f : Z -> bool) (s : string) (i : Z) : Z :=
  match fuel with
  | O => -1
  | S fuel =>
      if i <=? 0 then -1
      else
        let '(r, size) :=
          DecodeLastRuneInString (String.substring 0 (Z.to_nat i) s) in
        let i := i - Z.of_nat size in
        if f r then last_index fuel f s i else i
  end.

Definition TrimRightFunc (s : string) (f : Z -> bool) : string :=
  let i := last_index (String.length s) f s (Z.of_nat (String.length s)) in
  let i :=
    if (0 <=? i) && (128 <=? code (byte_at s i)) then
      i + Z.of_nat
            (DecodeRuneInString
               (String.substring (Z.to_nat i) (String.length s - Z.to_nat i) s)).2
    else i + 1 in
  String.substring 0 (Z.to_nat i) s.

Definition TrimFunc (s : string) (f : Z -> bool) : string :=
  TrimRightFunc (TrimLeftFunc s f) f.

(** The second loop of [strings.TrimSpace], on [s[start:]]: [stop] steps
    back over the ASCII spaces at the end. *)
Fixpoint trim_stop (s : string) (stop : nat) : string :=
  match stop with
  | O => EmptyString
  | S k =>
      let c := byte_at s (Z.of_nat k) in
      if 128 <=? code c then TrimRightFunc (String.substring 0 stop s) IsSpace
      else if asciiSpace c then trim_stop s k
      else String.substring 0 stop s
  end.

(** [strings.TrimSpace]: the first loop steps over the ASCII spaces at the
    start, and a byte that is not ASCII hands the rest over to [TrimFunc]. *)
Fixpoint TrimSpace (s : string) : string :=
  match s with
  | EmptyString => EmptyString
  | String c r =>
      if 128 <=? code c then TrimFunc s IsSpace
      else if asciiSpace c then TrimSpace r
      else trim_stop s (String.length s)
  end.

(** ** Package model: validation *)

(** [func (r IntentRecord) Validate() error]; [Ok ()] is the nil error. *)
Definition Validate (r : IntentRecord) : result unit :=
  if decide (TrimSpace (ID r) = "") then Err (ErrNew "id is required")
  else if decide (String.length (CreatedAt r) = 0)%nat
  then Err (ErrNew "created_at is required")
  else
    match time_Parse (CreatedAt r) with
    | Err _ => Err (ErrNew "created_at must be RFC3339")
    | Ok _ =>
        if decide (String.length (Author r) = 0)%nat
        then Err (ErrNew "author is required")
        else if decide (String.length (SourceType r) = 0)%nat
        then Err (ErrNew "source_type is required")
        else if decide (String.length (Prompt r) = 0)%nat
        then Err (ErrNew "prompt is required")
        else if decide (String.length (Response r) = 0)%nat
        then Err (ErrNew "response is required")
        else if decide (String.length (Hash r) = 0)%nat
        then Err (ErrNew "hash is required")
        else Ok ()
    end.

(** ** Package store: single records *)

(** [sql.ErrNoRows]. *)
Definition ErrNoRows : error := ErrNew "sql: no rows in result set".

(** The failure of an INSERT whose [id] is that of a stored row, by its
    message: [id] is the PRIMARY KEY of the table [intents], as the migration
    of the store's test declares it. *)
Definition unique_id_failed : error :=
  ErrNew "constraint failed: UNIQUE constraint failed: intents.id (1555)".

(** [CreateIntent] on a store whose table holds the rows [table], when the
    storage engine reports no failure of its own: the table after the
    INSERT.  The columns declared NOT NULL are bound to Go strings, which
    are never NULL. *)
Definition CreateIntent (table : list row) (record : IntentRecord)
  : result (list row) :=
  let values := insert_values record in
  if decide (col_id values ∈ col_id <$> table) then Err unique_id_failed
  else Ok (table ++ [values])%list.

Section store.

(** SQL leaves open the order in which a SELECT without ORDER BY yields the
    rows; [visit] is that order, as a rearrangement of the table. *)
Variable visit : list row -> list row.

(** [db.QueryRowContext(...).Scan(...)] for a query [SELECT ... WHERE]: the
    first row of the result set, or [sql.ErrNoRows]. *)
Definition query_row (where_ : row -> bool) (table : list row) : result row :=
  match base.filter (fun r => where_ r = true) (visit table) with
  | r :: _ => Ok r
  | [] => Err ErrNoRows
  end.

(** [WHERE id = ?] and [WHERE hash = ?] compare the texts byte by byte. *)
Definition GetIntent (table : list row) (id : string) : result IntentRecord :=
  r ← query_row (fun r => bool_decide (col_id r = id)) table;
  Ok (scan_row r).

Definition GetIntentByHash (table : list row) (hash : string)
  : result IntentRecord :=
  r ← query_row (fun r => bool_decide (col_hash r = hash)) table;
  Ok (scan_row r).

End store.

(** ** More notions used to state the properties *)

(** [matches filters r]: the filter loop keeps the record [r]. *)
Definition matches (filters : gmap string string) (r : IntentRecord) : bool :=
  match matchesMetaFilters (Meta r) filters with
  | Ok b => b
  | Err _ => false
  end.

(** The metadata of [r] is unset or decodes into a [map[string]any]. *)
Definition meta_decodes (r : IntentRecord) : Prop :=
  Meta r = "" \/ is_ok (Unmarshal (Meta r)) = true.

(** The filters of [f1] and [f2] that have one key have one value. *)
Definition agree (f1 f2 : gmap string string) : Prop :=
  forall k v1 v2, f1 !! k = Some v1 -> f2 !! k = Some v2 -> v1 = v2.

(** The fields that [canonicalIntentPreimage] requires pass its checks. *)
Definition fields_pass (r : IntentRecord) : Prop :=
  ID r <> "" /\ is_ok (time_Parse (CreatedAt r)) = true /\ Author r <> ""
  /\ SourceType r <> "" /\ Prompt r <> "" /\ Response r <> "".

(** The six fields that [Normalize] assigns. *)
Definition free_text (r : IntentRecord) : list string :=
  [Author r; SourceType r; Title r; Prompt r; Response r; PrevHash r].

(** The record of [TestIntentRecordValidate]. *)
Definition valid_record : IntentRecord :=
  {| ID := "01HZYFQ7T9ZV54X2G4A8M4J2C1"; CreatedAt := "2026-02-09T10:00:00Z";
     Author := "alice"; SourceType := "cli"; Title := ""; Prompt := "hello";
     Response := "world"; Meta := ""; PrevHash := ""; Hash := "abc123" |}.

Definition with_ID (r : IntentRecord) (i : string) : IntentRecord :=
  {| ID := i; CreatedAt := CreatedAt r; Author := Author r;
     SourceType := SourceType r; Title := Title r; Prompt := Prompt r;
     Response := Response r; Meta := Meta r; PrevHash := PrevHash r;
     Hash := Hash r |}.

(** The two errors of the scanner: a syntax error, and the end of the text
    within a value. *)
Definition scan_failure (e : error) : Prop :=
  e = ErrJSON SyntaxError \/ e = ErrJSON ErrUnexpectedEOF.

(** The map [meta] that [matchesMetaFilters] builds from the payload: its
    members that are strings. *)
Definition string_members (payload : gmap string any) : gmap string string :=
  omap (fun value => match value with JString s => Some s | _ => None end)
    payload.

(** The three records of the filter tests. *)
Definition filter_test_intents : list IntentRecord :=
  [intent_with_meta "a" (quoted "{'env':'prod'}");
   intent_with_meta "b" (quoted "{'env':'staging'}");
   intent_with_meta "c" (quoted "{'env':'prod','count':2}")].

(** The order of a SELECT without ORDER BY is a rearrangement of the rows. *)
Definition visits (f : list row -> list row) : Prop :=
  forall table, f table ≡ₚ table.

(** The tables that calls of [CreateIntent] build from the empty table. *)
Inductive created : list row -> Prop :=
| created_empty : created []
| created_insert table record table' :
    created table -> CreateIntent table record = Ok table' -> created table'.

(** The record of [TestStoreMigrateAndCRUD], with a fixed time. *)
Definition stored_record : IntentRecord :=
  {| ID := "01HZYFQ7T9ZV54X2G4A8M4J2C1"; CreatedAt := "2026-02-09T10:00:00Z";
     Author := "alice"; SourceType := "cli"; Title := "hello";
     Prompt := "prompt"; Response := "response";
     Meta := quoted "{'env':'prod'}"; PrevHash := "prevhash";
     Hash := "hashvalue" |}.

(** ** Notions on texts and values *)

(** [coerce_from 0 s] is [s] with each byte that starts no well-formed UTF-8
    encoding replaced by U+FFFD, which is what [json.Marshal] writes for it
    and what the decoder stores for it; [cont] counts the bytes of a
    well-formed encoding still to be copied. *)
Fixpoint coerce_from (cont : nat) (s : string) : string :=
  match s with
  | EmptyString => EmptyString
  | String c r =>
      match cont with
      | S k => String c (coerce_from k r)
      | O =>
          if code c <? 128 then String c (coerce_from 0 r)
          else
            match utf8_size c r with
            | O => EncodeRune 65533 +:+ coerce_from 0 r
            | S k => String c (coerce_from k r)
            end
      end
  end.

(** Well-formed UTF-8: nothing to replace. *)
Definition valid_utf8 (s : string) : Prop := coerce_from 0 s = s.

(** The well-formed encodings of two, three and four bytes, by the ranges
    of their bytes. *)
Definition is_utf8_2 (c c1 : ascii) : Prop :=
  194 <= code c <= 223 /\ 128 <= code c1 <= 191.

Definition is_utf8_3 (c c1 c2 : ascii) : Prop :=
  224 <= code c <= 239 /\ 128 <= code c1 <= 191 /\ 128 <= code c2 <= 191
  /\ (code c = 224 -> 160 <= code c1) /\ (code c = 237 -> code c1 <= 159).

Definition is_utf8_4 (c c1 c2 c3 : ascii) : Prop :=
  240 <= code c <= 244 /\ 128 <= code c1 <= 191 /\ 128 <= code c2 <= 191
  /\ 128 <= code c3 <= 191
  /\ (code c = 240 -> 144 <= code c1) /\ (code c = 244 -> code c1 <= 143).


(** The four stages of [scan_number]: the sign, the digits before the
    point, the fraction and the exponent. *)
Definition scan_sign (s : string) : string * string :=
  match s with
  | String c r => if (c =? "-")%char then ("-", r) else ("", s)
  | EmptyString => ("", s)
  end.

Definition scan_int (s1 : string) : result (string * string) :=
  match s1 with
  | String c r =>
      if (c =? "0")%char then Ok ("0", r)
      else if in_range 49 57 c then Ok (take_digits s1)
      else syntax_error
  | EmptyString => unexpected_eof
  end.

Definition scan_frac (s2 : string) : result (string * string) :=
  match s2 with
  | String c r =>
      if (c =? ".")%char then '(d, r') ← digits1 r; Ok (String c d, r')
      else Ok ("", s2)
  | EmptyString => Ok ("", s2)
  end.

Definition scan_exp (s3 : string) : result (string * string) :=
  match s3 with
  | String c r =>
      if (c =? "e")%char || (c =? "E")%char then
        let '(sg, r1) :=
          match r with
          | String c' r' =>
              if (c' =? "+")%char || (c' =? "-")%char then (ch c', r') else ("", r)
          | EmptyString => ("", r)
          end in
        '(d, r2) ← digits1 r1; Ok (String c (sg +:+ d), r2)
      else Ok ("", s3)
  | EmptyString => Ok ("", s3)
  end.

(** The first byte of [s], when there is one, is none for which [P]
    holds. *)
Definition not_first (P : ascii -> bool) (s : string) : Prop :=
  match s with
  | String c _ => P c = false
  | EmptyString => True
  end.

(** [s] is not empty, and [P] holds for its first byte. *)
Definition first_is (P : ascii -> bool) (s : string) : Prop :=
  match s with
  | String c _ => P c = true
  | EmptyString => False
  end.

(** The bytes that continue a number: a digit, the point, the letter of
    the exponent. *)
Definition continues_number (c : ascii) : bool :=
  isDigit c || (c =? ".")%char || (c =? "e")%char || (c =? "E")%char.

Definition stops (s : string) : Prop := not_first continues_number s.

(** A number token: it is scanned as a whole, up to a text that does not
    continue it, and starts as a number does. *)
Definition number_token (tok : string) : Prop :=
  (forall rest, stops rest -> scan_number (tok +:+ rest) = Ok (tok, rest))
  /\ first_is (fun c => (c =? "-")%char || isDigit c) tok.

(** [decodable n v]: the value [v] is made as the decoder makes its values,
    with [n] levels of arrays and objects at most: the strings and the names
    well formed, the numbers tokens. *)
#[local] Unset Elimination Schemes.
Inductive decodable : nat -> any -> Prop :=
| decodable_null n : decodable n JNull
| decodable_bool n b : decodable n (JBool b)
| decodable_string n s : valid_utf8 s -> decodable n (JString s)
| decodable_number n tok : number_token tok -> decodable n (JNumber tok)
| decodable_array n items :
    Forall (decodable n) items -> decodable (S n) (JArray items)
| decodable_object n (m : gmap string any) :
    (forall k x, m !! k = Some x -> valid_utf8 k /\ decodable n x) ->
    decodable (S n) (JObject m).
#[local] Set Elimination Schemes.

(** The bytes that start a value in the text of the canonical writer. *)
Definition starts_value (c : ascii) : bool :=
  (c =? "{")%char || (c =? "[")%char || (c =? DQ)%char || (c =? "-")%char
  || isDigit c || (c =? "t")%char || (c =? "f")%char || (c =? "n")%char.

(** [reads_back text v n]: with enough fuel, at every depth that leaves [n]
    levels, the scanner reads [text], before a text that continues no
    number, as a tree that is stored as [v]. *)
Definition reads_back (text : string) (v : any) (n : nat) : Prop :=
  exists t F,
    interface_of t = v
    /\ forall fuel d rest,
         (F <= fuel)%nat -> (d + n <= maxNestingDepth)%nat -> stops rest ->
         scan_value fuel d (text +:+ rest) = Ok (t, rest).

(** ** The fields of the preimage *)

(** A field as [addStringField] and [addRawField] write it: the name
    between quotes, the colon, and the text of the value. *)
Definition field_text (f : string * string) : string :=
  ch DQ +:+ f.1 +:+ String DQ ":" +:+ f.2.

(** The fields that [canonicalIntentPreimage] writes for [record], in its
    order, each with the text of its value, from the normalized timestamp
    and the canonical metadata. *)
Definition preimage_fields (record : IntentRecord) (createdAt meta : string)
  : list (string * string) :=
  [("id", Marshal_string (ID record));
   ("created_at", Marshal_string createdAt);
   ("author", Marshal_string (Author record));
   ("source_type", Marshal_string (SourceType record))]
  ++ (if decide (Title record = "") then []
      else [("title", Marshal_string (Title record))])
  ++ [("prompt", Marshal_string (Prompt record));
      ("response", Marshal_string (Response record))]
  ++ (if decide (0 < String.length meta)%nat then [("meta", meta)] else [])
  ++ (if decide (PrevHash record = "") then []
      else [("prev_hash", Marshal_string (PrevHash record))]).

(** Two strings that are the same once every byte that is not part of a
    well-formed encoding is replaced by U+FFFD: the same string, for
    well-formed ones. *)
Definition same_text (s1 s2 : string) : Prop :=
  coerce_from 0 s1 = coerce_from 0 s2.

(** A name that is written between quotes as it is, and read back so. *)
Definition plain_name (name : string) : Prop :=
  forall rest, scan_chars 0 (name +:+ String DQ rest) = Ok (name, rest).

(** A text that the scanner reads as one value, at the top, before every
    text that continues no number. *)
Definition readable (text : string) : Prop :=
  exists v, reads_back text v maxNestingDepth.

(** The bytes of [s] are ASCII. *)
Fixpoint ascii_only (s : string) : Prop :=
  match s with
  | EmptyString => True
  | String c r => code c < 128 /\ ascii_only r
  end.

(** * Properties *)

(** * The models of the library functions on known values *)

(** SHA-256 of the empty text, of [abc] and of a text of two blocks (FIPS
    180-4 and its examples). *)
Lemma Sum256_vectors :
  EncodeToString (Sum256 "")
  = "e3b0c44298fc1c149afbf4c8996fb92427ae41e4649b934ca495991b7852b855"
  ∧ EncodeToString (Sum256 "abc")
    = "ba7816bf8f01cfea414140de5dae2223b00361a396177a9cb410ff61f20015ad"
  ∧ EncodeToString
      (Sum256 "abcdbcdecdefdefgefghfghighijhijkijkljklmklmnlmnomnopnopq")
    = "248d6a61d20638b8e5c026930c3e6039a33ce45964ff2167f6ecedd419db06c1".
Proof. repeat split; vm_compute; reflexivity. Qed.

Lemma Decode_examples :
  Decode (quoted "{'a':1, 'b' : [true,null,'xA\n'] } ")
  = Ok (TObject [("a", TNumber "1");
                 ("b", TArray [TBool true; TNull; TString ("xA" +:+ ch LF)])], " ")
  ∧ Decode (quoted "{'env':") = unexpected_eof
  ∧ Decode (quoted "[1,]") = syntax_error
  ∧ Decode "01" = Ok (TNumber "0", "1")
  ∧ Decode "  " = Err (ErrJSON EOF).
Proof. repeat split; vm_compute; reflexivity. Qed.

(** Of two members with one name the later one is stored, and a number
    keeps its token. *)
Lemma CanonicalizeMeta_examples :
  CanonicalizeMeta id (quoted "{'b':2,'a':[1.0,{'z':null,'y':'<'}]} ")
  = Ok (quoted "{'a':[1.0,{'y':'\u003c','z':null}],'b':2}")
  ∧ CanonicalizeMeta id (quoted "{'a':1,'a':2}") = Ok (quoted "{'a':2}")
  ∧ CanonicalizeMeta id "[1]" = Err (ErrNew "meta must be a JSON object")
  ∧ CanonicalizeMeta id "{} x" = Err (ErrNew "unexpected trailing JSON data")
  ∧ CanonicalizeMeta id (quoted "{'a':") = unexpected_eof
  ∧ CanonicalizeMeta id " " = Err (ErrJSON EOF).
Proof. repeat split; vm_compute; reflexivity. Qed.

Lemma time_Parse_examples :
  time_Parse "1970-01-01T00:00:00Z" = Ok {| unix := 0; nano := 0; offset := 0 |}
  ∧ time_Parse "2026-02-09T12:00:00.5+02:00"
    = Ok {| unix := 1770631200; nano := 500000000; offset := 7200 |}
  ∧ time_Parse "1969-12-31T23:59:59Z" = Ok {| unix := -1; nano := 0; offset := 0 |}.
Proof. repeat split; vm_compute; reflexivity. Qed.

Lemma Marshal_string_examples :
  Marshal_string (quoted "a'b<c>" +:+ ch LF) = quoted "'a\'b\u003cc\u003e\n'"
  ∧ Marshal_string (ch "200"%char) = String DQ (String BSL "ufffd") +:+ ch DQ.
Proof. split; vm_compute; reflexivity. Qed.

(** The last accepted text shows that [time.Parse] takes more than RFC 3339
    allows: one digit for the hour and a comma before the fraction. *)
Lemma normalizeRFC3339_examples :
  normalizeRFC3339 "2026-02-09T10:00:00Z" = Ok "2026-02-09T10:00:00Z"
  ∧ normalizeRFC3339 "2026-02-09T12:00:00+02:00" = Ok "2026-02-09T10:00:00Z"
  ∧ normalizeRFC3339 "2026-02-09T10:00:00.120000000-05:30"
    = Ok "2026-02-09T15:30:00.12Z"
  ∧ normalizeRFC3339 "2024-02-29T23:59:59.999999999Z"
    = Ok "2024-02-29T23:59:59.999999999Z"
  ∧ normalizeRFC3339 "2026-02-09T5:00:00,5Z" = Ok "2026-02-09T05:00:00.5Z"
  ∧ normalizeRFC3339 "2023-02-29T00:00:00Z" = Err ErrTime
  ∧ normalizeRFC3339 "2026-02-09 10:00:00Z" = Err ErrTime
  ∧ normalizeRFC3339 "not-a-time" = Err ErrTime.
Proof. repeat split; vm_compute; reflexivity. Qed.

(** * The tests of the repository *)

(** [TestHashIntentCanonicalization]: the digest is stable, and the same for
    the metadata with its keys in the other order and for the texts with
    CRLF and CR. *)
Lemma hash_test_canonicalization :
  let base := {| ID := "01HZYFQ7T9ZV54X2G4A8M4J2C1";
                 CreatedAt := "2026-02-09T10:00:00Z";
                 Author := "alice"; SourceType := "cli"; Title := "";
                 Prompt := "line1" +:+ ch LF +:+ "line2";
                 Response := "resp" +:+ ch LF +:+ "line2";
                 Meta := quoted "{'b':2,'a':1}"; PrevHash := ""; Hash := "" |} in
  let metaReordered := with_Meta base (quoted "{'a':1,'b':2}") in
  let newlineVariant :=
    {| ID := ID base; CreatedAt := CreatedAt base; Author := Author base;
       SourceType := SourceType base; Title := Title base;
       Prompt := "line1" +:+ String CR (ch LF) +:+ "line2";
       Response := "resp" +:+ ch CR +:+ "line2";
       Meta := Meta base; PrevHash := PrevHash base; Hash := Hash base |} in
  HashIntent id base
  = Ok "105783b2c9eff1e32a81ff587839ede59bab0400eb3f9e6894fcb41d5ad1e4e6"
  ∧ HashIntent id metaReordered = HashIntent id base
  ∧ HashIntent id newlineVariant = HashIntent id base.
Proof. repeat split; vm_compute; reflexivity. Qed.

(** [TestIntentRecordNormalizeNewlines]. *)
Lemma normalize_test_newlines :
  normalizeNewlines ("alice" +:+ String CR (ch LF) +:+ "line2")
  = "alice" +:+ ch LF +:+ "line2"
  ∧ normalizeNewlines ("cli" +:+ ch CR +:+ "line2") = "cli" +:+ ch LF +:+ "line2".
Proof. split; vm_compute; reflexivity. Qed.

(** * The scanner consumes its input, and its fuel is enough *)

Local Open Scope nat_scope.

Lemma skip_space_length s : String.length (skip_space s) ≤ String.length s.
Proof. induction s as [|c r IH]; cbn; [lia|]. case_match; cbn; lia. Qed.

Lemma skip_space_cons s c r :
  skip_space s = String c r → String.length r < String.length s.
Proof.
  intros H. pose proof (skip_space_length s) as Hl. rewrite H in Hl. cbn in Hl. lia.
Qed.

Lemma take_digits_length s d rest :
  take_digits s = (d, rest) → String.length rest ≤ String.length s.
Proof.
  revert d rest. induction s as [|c r IH]; intros d rest; cbn.
  - intros [= <- <-]. cbn. lia.
  - case_match.
    + destruct (take_digits r) as [d' rest'] eqn:Hr. intros [= <- <-].
      specialize (IH _ _ eq_refl). lia.
    + intros [= <- <-]. cbn. lia.
Qed.

Lemma digits1_length s d rest :
  digits1 s = Ok (d, rest) → String.length rest < String.length s.
Proof.
  destruct s as [|c r]; [done|]. unfold digits1. case_match eqn:Hc; [|done].
  cbn [take_digits]. rewrite Hc.
  destruct (take_digits r) as [d' rest'] eqn:Hr. intros [= <- <-].
  apply take_digits_length in Hr. cbn. lia.
Qed.

Lemma expect_length lit s rest :
  expect lit s = Ok rest → String.length rest ≤ String.length s.
Proof.
  revert s. induction lit as [|a lit IH]; intros s; cbn.
  - intros [= <-]. lia.
  - destruct s as [|b s]; [done|]. destruct (a =? b)%char; [|done].
    intros H. apply IH in H. cbn. lia.
Qed.

Ltac bind_ok H :=
  match type of H with
  | (?x ≫= _) = Ok _ =>
      let E := fresh "E" in
      destruct x as [[? ?]|] eqn:E; cbn [mbind result_bind] in H; [|discriminate H]
  end.

Lemma nonzero_digit c : in_range 49 57 c = true → isDigit c = true.
Proof.
  unfold isDigit, in_range. rewrite !andb_true_iff, !Z.leb_le. lia.
Qed.

Lemma scan_number_length s tok rest :
  scan_number s = Ok (tok, rest) → String.length rest < String.length s.
Proof.
  unfold scan_number. intros H.
  destruct (match s with
            | String c r => if (c =? "-")%char then ("-", r) else ("", s)
            | EmptyString => ("", s)
            end) as [sign s1] eqn:Hs1.
  assert (String.length s1 ≤ String.length s) as Hl1.
  { destruct s as [|c r]; [simplify_eq; cbn; lia|].
    destruct (c =? "-")%char; simplify_eq; cbn; lia. }
  bind_ok H. rename s0 into int, s2 into s2.
  assert (String.length s2 < String.length s1) as Hl2.
  { destruct s1 as [|c r]; [done|]. revert E.
    destruct (c =? "0")%char; [intros [= <- <-]; cbn; lia|].
    destruct (in_range 49 57 c) eqn:Hc; [|done].
    cbn [take_digits]. rewrite (nonzero_digit c Hc).
    destruct (take_digits r) as [d'' r''] eqn:Ht'. intros [= <- <-].
    apply take_digits_length in Ht'. cbn. lia. }
  bind_ok H. rename s0 into frac, s3 into s3.
  assert (String.length s3 ≤ String.length s2) as Hl3.
  { destruct s2 as [|c r]; [simplify_eq; cbn; lia|].
    revert E0. destruct (c =? ".")%char; [|intros; simplify_eq; cbn; lia].
    intros E0. bind_ok E0. simplify_eq.
    apply digits1_length in E1. cbn. lia. }
  bind_ok H. rename s0 into exp, s4 into s4.
  assert (String.length s4 ≤ String.length s3) as Hl4.
  { destruct s3 as [|c r]; [simplify_eq; cbn; lia|].
    revert E1. destruct ((c =? "e")%char || (c =? "E")%char);
      [|intros; simplify_eq; cbn; lia].
    destruct (match r with
              | String c' r' =>
                  if (c' =? "+")%char || (c' =? "-")%char then (ch c', r') else ("", r)
              | EmptyString => ("", r)
              end) as [sg r1] eqn:Hsg.
    intros E1. bind_ok E1. simplify_eq.
    apply digits1_length in E2.
    assert (String.length r1 ≤ String.length r).
    { destruct r as [|c' r']; [simplify_eq; cbn; lia|].
      revert Hsg. destruct ((c' =? "+")%char || (c' =? "-")%char);
        intros; simplify_eq; cbn; lia. }
    cbn. lia. }
  simplify_eq. lia.
Qed.

Lemma short_hex_err s x : short_hex s ≠ Ok x.
Proof. induction s as [|c r IH]; cbn; [done|]. by destruct (hexval c). Qed.

Ltac scan_step IH H :=
  match type of H with
  | Ok _ = Ok _ => simplify_eq; cbn [String.length] in *; lia
  | syntax_error = Ok _ => discriminate H
  | unexpected_eof = Ok _ => discriminate H
  | Err _ = Ok _ => discriminate H
  | short_hex _ = Ok _ => by apply short_hex_err in H
  | (scan_chars ?k ?r ≫= _) = Ok _ =>
      let E := fresh "E" in
      destruct (scan_chars k r) as [[? ?]|] eqn:E;
      cbn [mbind result_bind] in H; [|discriminate H];
      apply IH in E; [|cbn [String.length] in *; lia]
  | match ?e with _ => _ end = Ok _ => destruct e eqn:?
  end.

Lemma scan_chars_length_aux n cont s t rest :
  String.length s ≤ n →
  scan_chars cont s = Ok (t, rest) → String.length rest < String.length s.
Proof.
  revert cont s t rest. induction n as [|n IH]; intros cont s t rest Hn H.
  - destruct s; [done|cbn in Hn; lia].
  - destruct s as [|c r]; [done|]. cbn [scan_chars] in H.
    repeat scan_step IH H.
Qed.

Lemma scan_chars_length cont s t rest :
  scan_chars cont s = Ok (t, rest) → String.length rest < String.length s.
Proof. by apply scan_chars_length_aux with (n := String.length s). Qed.

Ltac value_step IHv IHe IHm H :=
  match type of H with
  | Ok _ = Ok _ => simplify_eq; cbn [String.length] in *; lia
  | syntax_error = Ok _ => discriminate H
  | unexpected_eof = Ok _ => discriminate H
  | Err _ = Ok _ => discriminate H
  | (?x ≫= _) = Ok _ =>
      let E := fresh "E" in
      first [ destruct x as [[? ?]|] eqn:E | destruct x eqn:E ];
      cbn [mbind result_bind] in H; [|discriminate H];
      first [ apply IHv in E | apply IHe in E | apply IHm in E
            | apply scan_chars_length in E | apply scan_number_length in E
            | apply expect_length in E | idtac ]
  | match skip_space ?s with _ => _ end = Ok _ =>
      let E := fresh "E" in
      destruct (skip_space s) eqn:E; [|apply skip_space_cons in E]
  | match ?e with _ => _ end = Ok _ => destruct e eqn:?
  end.

Lemma scan_progress fuel :
  (∀ d s t rest,
     scan_value fuel d s = Ok (t, rest) → String.length rest < String.length s)
  ∧ (∀ d s ts rest,
       scan_elems fuel d s = Ok (ts, rest) → String.length rest < String.length s)
  ∧ (∀ d s ms rest,
       scan_members fuel d s = Ok (ms, rest) → String.length rest < String.length s).
Proof.
  induction fuel as [|fuel (IHv & IHe & IHm)]; [by repeat split|].
  split; [|split]; intros d s t rest H.
  - cbn [scan_value] in H. repeat value_step IHv IHe IHm H.
  - cbn [scan_elems] in H. repeat value_step IHv IHe IHm H.
  - cbn [scan_members] in H. repeat value_step IHv IHe IHm H.
Qed.

Lemma scan_value_length fuel d s t rest :
  scan_value fuel d s = Ok (t, rest) → String.length rest < String.length s.
Proof. apply scan_progress. Qed.

Lemma scan_elems_length fuel d s ts rest :
  scan_elems fuel d s = Ok (ts, rest) → String.length rest < String.length s.
Proof. apply scan_progress. Qed.

Lemma scan_members_length fuel d s ms rest :
  scan_members fuel d s = Ok (ms, rest) → String.length rest < String.length s.
Proof. apply scan_progress. Qed.

Ltac note_lengths :=
  repeat match goal with
    | E : skip_space _ = String _ _ |- _ => apply skip_space_cons in E
    | E : scan_chars _ _ = Ok _ |- _ => apply scan_chars_length in E
    | E : scan_number _ = Ok _ |- _ => apply scan_number_length in E
    | E : expect _ _ = Ok _ |- _ => apply expect_length in E
    | E : scan_value _ _ _ = Ok _ |- _ => apply scan_value_length in E
    | E : scan_elems _ _ _ = Ok _ |- _ => apply scan_elems_length in E
    | E : scan_members _ _ _ = Ok _ |- _ => apply scan_members_length in E
    end;
  cbn [String.length] in *.

Ltac stable_step IHv IHe IHm :=
  note_lengths;
  match goal with
  | |- ?a = ?a => reflexivity
  | |- (scan_value _ ?d ?s ≫= _) = (scan_value ?f' ?d ?s ≫= _) =>
      rewrite (IHv f' d s) by lia;
      destruct (scan_value f' d s) as [[? ?]|] eqn:?; cbn [mbind result_bind]
  | |- (scan_elems _ ?d ?s ≫= _) = (scan_elems ?f' ?d ?s ≫= _) =>
      rewrite (IHe f' d s) by lia;
      destruct (scan_elems f' d s) as [[? ?]|] eqn:?; cbn [mbind result_bind]
  | |- (scan_members _ ?d ?s ≫= _) = (scan_members ?f' ?d ?s ≫= _) =>
      rewrite (IHm f' d s) by lia;
      destruct (scan_members f' d s) as [[? ?]|] eqn:?; cbn [mbind result_bind]
  | |- (?x ≫= _) = (?x ≫= _) =>
      first [ destruct x as [[? ?]|] eqn:? | destruct x eqn:? ];
      cbn [mbind result_bind]
  | |- match ?e with _ => _ end = match ?e with _ => _ end => destruct e eqn:?
  end.

(** Fuel beyond twice the length of the text changes nothing. *)
Lemma scan_fuel_stable f :
  (∀ f' d s, 2 * String.length s < f → 2 * String.length s < f' →
             scan_value f d s = scan_value f' d s)
  ∧ (∀ f' d s, 2 * String.length s + 1 < f → 2 * String.length s + 1 < f' →
               scan_elems f d s = scan_elems f' d s)
  ∧ (∀ f' d s, 2 * String.length s + 1 < f → 2 * String.length s + 1 < f' →
               scan_members f d s = scan_members f' d s).
Proof.
  induction f as [|f (IHv & IHe & IHm)]; [repeat split; intros; lia|].
  split; [|split]; intros [|f'] d s Hf Hf'; try lia.
  - cbn [scan_value]. repeat stable_step IHv IHe IHm.
  - cbn [scan_elems]. repeat stable_step IHv IHe IHm.
  - cbn [scan_members]. repeat stable_step IHv IHe IHm.
Qed.

Lemma scan_value_fuel f d raw :
  scan_fuel raw ≤ f → scan_value f d raw = scan_value (scan_fuel raw) d raw.
Proof. intros Hf. apply scan_fuel_stable; unfold scan_fuel in *; lia. Qed.

Local Close Scope nat_scope.

(** * The order of the keys is that of their bytes *)

Lemma String_le_bytes s1 s2 :
  String.le s1 s2 ↔ bytes_le (bytes_of s1) (bytes_of s2).
Proof.
  unfold String.le, String.leb, bytes_of. revert s2.
  induction s1 as [|a s1 IH]; intros [|b s2]; cbn; try done.
  unfold Ascii.compare. rewrite <- N2Z.inj_compare. fold (code a) (code b).
  destruct (code a ?= code b) eqn:Hc.
  - apply Z.compare_eq in Hc. rewrite IH. split; [auto|].
    intros [?|[_ ?]]; [lia|done].
  - apply Z.compare_lt_iff in Hc. cbn. split; auto.
  - apply Z.compare_gt_iff in Hc. cbn. split; [done|]. intros [?|[? _]]; lia.
Qed.

Lemma key_lt_bytes s1 s2 :
  key_lt s1 s2 ↔ bytes_le (bytes_of s1) (bytes_of s2) ∧ s1 ≠ s2.
Proof. unfold key_lt. by rewrite String_le_bytes. Qed.

(** * Line endings *)

Lemma replace_CRLF_step c r :
  ReplaceAll (String c r) CRLF (ch LF) =
    match r with
    | String c' r' =>
        if decide (c = CR ∧ c' = LF) then String LF (ReplaceAll r' CRLF (ch LF))
        else String c (ReplaceAll r CRLF (ch LF))
    | EmptyString => String c EmptyString
    end.
Proof.
  unfold ReplaceAll, CRLF, ch. destruct r as [|c' r'].
  - cbn [replace_from String.prefix]. destruct (ascii_dec CR c); reflexivity.
  - cbn [replace_from String.prefix String.length].
    destruct (ascii_dec CR c) as [<-|Hc].
    + destruct (ascii_dec LF c') as [<-|Hc'].
      * rewrite decide_True by done. destruct r'; reflexivity.
      * rewrite decide_False by (intros [_ ->]; done). reflexivity.
    + rewrite decide_False by (intros [-> _]; done). reflexivity.
Qed.

Lemma replace_cr_step c r :
  ReplaceAll (String c r) (ch CR) (ch LF) =
    String (if decide (c = CR) then LF else c) (ReplaceAll r (ch CR) (ch LF)).
Proof.
  unfold ReplaceAll, ch. cbn [replace_from String.prefix String.length].
  destruct (ascii_dec CR c) as [<-|Hc].
  - destruct r; reflexivity.
  - rewrite decide_False by done. reflexivity.
Qed.

(** The two passes of the code are the one pass of the specification. *)
Lemma two_passes_lf_endings s :
  ReplaceAll (ReplaceAll s CRLF (ch LF)) (ch CR) (ch LF) = lf_endings s.
Proof.
  remember (String.length s) as n eqn:Hn.
  revert s Hn. induction (lt_wf n) as [n _ IH]. intros s ->.
  destruct s as [|c r]; [reflexivity|].
  rewrite replace_CRLF_step. destruct r as [|c' r'].
  - rewrite replace_cr_step. cbn. destruct (decide (c = CR)); reflexivity.
  - cbn [lf_endings]. destruct (decide (c = CR)) as [->|Hc].
    + destruct (decide (c' = LF)) as [->|Hc'].
      * rewrite decide_True by done. rewrite replace_cr_step.
        rewrite decide_False by done. f_equal.
        eapply IH; [|reflexivity]. cbn. lia.
      * rewrite decide_False by (intros [_ ?]; done). rewrite replace_cr_step.
        rewrite decide_True by done. f_equal.
        eapply IH; [|reflexivity]. cbn. lia.
    + rewrite decide_False by (intros [? _]; done). rewrite replace_cr_step.
      rewrite decide_False by done. f_equal.
      eapply IH; [|reflexivity]. cbn. lia.
Qed.

Lemma normalizeNewlines_lf_endings s : normalizeNewlines s = lf_endings s.
Proof.
  unfold normalizeNewlines. destruct (decide (s = "")) as [->|_]; [reflexivity|].
  apply two_passes_lf_endings.
Qed.

Lemma lf_endings_no_CR s : ¬ has_CR (lf_endings s).
Proof.
  unfold has_CR.
  remember (String.length s) as n eqn:Hn.
  revert s Hn. induction (lt_wf n) as [n _ IH]. intros s ->.
  destruct s as [|c r]; cbn [lf_endings].
  - cbn. apply not_elem_of_nil.
  - destruct (decide (c = CR)) as [->|Hc].
    + destruct r as [|c' r'].
      * cbn. rewrite list_elem_of_singleton. done.
      * destruct (decide (c' = LF)); cbn [list_ascii_of_string];
          rewrite elem_of_cons; intros [[=]|Hin];
          [apply (IH (String.length r')) in Hin
          |apply (IH (String.length (String c' r'))) in Hin];
          try done; cbn; lia.
    + cbn. rewrite elem_of_cons. intros [?|?]; [done|].
      eapply IH; [| reflexivity | eassumption]. cbn; lia.
Qed.

Lemma lf_endings_without_CR s : ¬ has_CR s → lf_endings s = s.
Proof.
  unfold has_CR. induction s as [|c r IH]; [reflexivity|].
  cbn. rewrite elem_of_cons. intros Hn.
  rewrite decide_False by (intros ->; apply Hn; by left).
  f_equal. apply IH. intros ?. apply Hn. by right.
Qed.

Lemma lf_endings_idemp s : lf_endings (lf_endings s) = lf_endings s.
Proof. apply lf_endings_without_CR, lf_endings_no_CR. Qed.

Lemma lf_endings_empty s : lf_endings s = "" ↔ s = "".
Proof.
  split; [|intros ->; reflexivity].
  destruct s as [|c r]; [done|]. cbn.
  destruct (decide (c = CR)); [|done].
  destruct r as [|c' r']; [done|]. by destruct (decide (c' = LF)).
Qed.

Lemma Normalize_lf_record r : Normalize r = lf_record r.
Proof. unfold Normalize, lf_record. by rewrite !normalizeNewlines_lf_endings. Qed.

Lemma Normalize_idemp r : Normalize (Normalize r) = Normalize r.
Proof.
  rewrite !Normalize_lf_record. unfold lf_record; cbn.
  by rewrite !lf_endings_idemp.
Qed.

(** C4: a record whose free-text fields have CRLF or lone CR line endings has
    the digest of the record with those endings rewritten to LF
    ([lf_record]).  [Normalize] is a total function that rewrites each
    free-text field as the one-pass rewriting [lf_endings] of the
    specification does: no CR is left, a text without CR is unchanged, and
    the empty string stays empty. *)
Theorem newline_styles_hash_alike (range_order : list string → list string)
    (r : IntentRecord) :
  HashIntent range_order r = HashIntent range_order (lf_record r)
  ∧ Normalize r = lf_record r
  ∧ (∀ s, normalizeNewlines s = lf_endings s
          ∧ ¬ has_CR (normalizeNewlines s)
          ∧ (¬ has_CR s → normalizeNewlines s = s))
  ∧ normalizeNewlines "" = "".
Proof.
  split; [|split; [|split]].
  - unfold HashIntent. by rewrite <- Normalize_lf_record, Normalize_idemp.
  - apply Normalize_lf_record.
  - intros s. rewrite normalizeNewlines_lf_endings.
    auto using lf_endings_no_CR, lf_endings_without_CR.
  - reflexivity.
Qed.

Lemma newline_styles_hash_alike_witness :
  let r := {| ID := "01HZYFQ7T9ZV54X2G4A8M4J2C1"; CreatedAt := "2026-02-09T10:00:00Z";
              Author := "alice"; SourceType := "cli"; Title := "";
              Prompt := "line1" +:+ String CR (ch LF) +:+ "line2";
              Response := "resp" +:+ ch CR +:+ "line2";
              Meta := quoted "{'b':2,'a':1}"; PrevHash := ""; Hash := "" |} in
  HashIntent id r = HashIntent id (lf_record r)
  ∧ Prompt (lf_record r) = "line1" +:+ ch LF +:+ "line2"
  ∧ Response (lf_record r) = "resp" +:+ ch LF +:+ "line2"
  ∧ normalizeNewlines "alice" = "alice".
Proof.
  intros r. destruct (newline_styles_hash_alike id r) as (Hhash & _ & Hnorm & _).
  split; [exact Hhash|]. split; [reflexivity|]. split; [reflexivity|].
  apply Hnorm. unfold has_CR. cbn.
  rewrite !elem_of_cons, elem_of_nil. intuition discriminate.
Defined.

(** C5: setting the Hash field of a record to any string changes neither the
    preimage nor the digest that [HashIntent] computes. *)
Theorem hash_field_not_hashed (range_order : list string → list string)
    (r : IntentRecord) (h : string) :
  canonicalIntentPreimage range_order (Normalize (with_Hash r h))
  = canonicalIntentPreimage range_order (Normalize r)
  ∧ HashIntent range_order (with_Hash r h) = HashIntent range_order r.
Proof. split; reflexivity. Qed.

(** * Induction on dynamic values *)

Lemma any_size_member (m : gmap string any) k v :
  m !! k = Some v → (any_size v < any_size (JObject m))%nat.
Proof.
  intros Hk. cbn [any_size].
  rewrite (map_fold_delete_L _ _ k v m); [lia| |done].
  intros; lia.
Qed.

Lemma any_size_item (items : list any) v :
  v ∈ items → (any_size v < any_size (JArray items))%nat.
Proof.
  cbn [any_size]. induction 1; cbn; lia.
Qed.

Lemma any_ind (P : any → Prop) :
  P JNull → (∀ b, P (JBool b)) → (∀ s, P (JString s)) → (∀ tok, P (JNumber tok)) →
  (∀ items, Forall P items → P (JArray items)) →
  (∀ m : gmap string any, map_Forall (fun _ => P) m → P (JObject m)) →
  ∀ v, P v.
Proof.
  intros Hnull Hbool Hstr Hnum Harr Hobj v.
  remember (any_size v) as n eqn:Hn. revert v Hn.
  induction (lt_wf n) as [n _ IH]. intros v ->.
  destruct v as [| | | |items|m]; auto.
  - apply Harr, Forall_forall. intros x Hx.
    eapply IH; [by apply any_size_item|done].
  - apply Hobj. intros k x Hk.
    eapply IH; [by eapply any_size_member|done].
Qed.

(** * The order of the [range] loop does not show *)

Lemma sort_Strings_perm l1 l2 : l1 ≡ₚ l2 → sort_Strings l1 = sort_Strings l2.
Proof.
  intros Hp. unfold sort_Strings.
  apply (Sorted_unique String.le); [apply Sorted_merge_sort, _..|].
  by rewrite !merge_sort_Permutation.
Qed.

Lemma sort_Strings_range ord l : rearranges ord → sort_Strings (ord l) = sort_Strings l.
Proof. intros Hord. apply sort_Strings_perm, Hord. Qed.

Lemma write_object_order ord1 ord2 write1 write2 (obj : gmap string any) :
  rearranges ord1 → rearranges ord2 →
  map_Forall (fun _ v => write1 v = write2 v) obj →
  write_object ord1 write1 obj = write_object ord2 write2 obj.
Proof.
  intros H1 H2 Hw. unfold write_object.
  rewrite (sort_Strings_range ord1), (sort_Strings_range ord2) by done.
  replace (write1 <$> obj) with (write2 <$> obj); [done|].
  apply map_fmap_ext. intros k v Hk. symmetry. exact (Hw k v Hk).
Qed.

Lemma writeJSONValue_order ord1 ord2 v :
  rearranges ord1 → rearranges ord2 →
  writeJSONValue ord1 v = writeJSONValue ord2 v.
Proof.
  intros H1 H2. induction v as [| | | |items IH|m IH] using any_ind; try done.
  - cbn [writeJSONValue]. do 3 f_equal.
    apply list_fmap_ext. intros i x Hx. eapply Forall_lookup_1 in IH; eauto.
  - cbn [writeJSONValue]. by apply write_object_order.
Qed.

Lemma CanonicalizeMeta_order ord1 ord2 raw :
  rearranges ord1 → rearranges ord2 →
  CanonicalizeMeta ord1 raw = CanonicalizeMeta ord2 raw.
Proof.
  intros H1 H2. unfold CanonicalizeMeta. case_decide; [done|].
  destruct (decodeJSON raw) as [[]|]; cbn; try done.
  f_equal. apply write_object_order; [done..|].
  intros k v _. by apply writeJSONValue_order.
Qed.

Lemma canonicalIntentPreimage_order ord1 ord2 r :
  rearranges ord1 → rearranges ord2 →
  canonicalIntentPreimage ord1 r = canonicalIntentPreimage ord2 r.
Proof.
  intros H1 H2. unfold canonicalIntentPreimage.
  by rewrite (CanonicalizeMeta_order ord1 ord2).
Qed.

Lemma HashIntent_order ord1 ord2 r :
  rearranges ord1 → rearranges ord2 → HashIntent ord1 r = HashIntent ord2 r.
Proof.
  intros H1 H2. unfold HashIntent.
  by rewrite (canonicalIntentPreimage_order ord1 ord2).
Qed.

(** * The digest is 64 hexadecimal digits *)

Lemma hex_digit_lower z : 0 ≤ z < 16 → is_lower_hex (hex_digit z) = true.
Proof.
  intros Hz.
  assert (Hc : z ∈ [0; 1; 2; 3; 4; 5; 6; 7; 8; 9; 10; 11; 12; 13; 14; 15]).
  { rewrite !elem_of_cons. lia. }
  repeat (apply elem_of_cons in Hc as [->|Hc]; [reflexivity|]).
  by apply elem_of_nil in Hc.
Qed.

Lemma word_bytes_range w : Forall (fun b => 0 ≤ b < 256) (word_bytes w).
Proof.
  unfold word_bytes. repeat constructor;
    change 255 with (Z.ones 8); rewrite Z.land_ones by lia;
    apply Z.mod_pos_bound; lia.
Qed.

Lemma Sum256_length data : length (Sum256 data) = 32%nat.
Proof. unfold Sum256. rewrite !length_app. reflexivity. Qed.

Lemma Sum256_range data : Forall (fun b => 0 ≤ b < 256) (Sum256 data).
Proof. unfold Sum256. rewrite !Forall_app. auto 10 using word_bytes_range. Qed.

Lemma string_of_list_ascii_length l :
  String.length (string_of_list_ascii l) = length l.
Proof. induction l; cbn; congruence. Qed.

Lemma EncodeToString_length src :
  String.length (EncodeToString src) = (2 * length src)%nat.
Proof.
  unfold EncodeToString. rewrite string_of_list_ascii_length.
  induction src as [|b src IH]; [done|]. cbn. lia.
Qed.

Lemma EncodeToString_lower_hex src :
  Forall (fun b => 0 ≤ b < 256) src →
  Forall (fun c => is_lower_hex c = true) (list_ascii_of_string (EncodeToString src)).
Proof.
  unfold EncodeToString. rewrite list_ascii_of_string_of_list_ascii.
  induction 1 as [|b src Hb _ IH]; [constructor|].
  cbn [mbind list_bind app]. repeat constructor; [| |exact IH].
  - apply hex_digit_lower. rewrite Z.shiftr_div_pow2 by lia.
    change (2 ^ 4) with 16. split; [apply Z.div_pos; lia|].
    apply Z.div_lt_upper_bound; lia.
  - apply hex_digit_lower. change 15 with (Z.ones 4).
    rewrite Z.land_ones by lia. apply Z.mod_pos_bound. lia.
Qed.

(** C1: when [HashIntent] gives a digest for a record, it gives the same one
    at every call, whatever the order in which the [range] loops over the
    metadata maps run; the digest is 64 lower-case hexadecimal digits, the
    hexadecimal form of the SHA-256 checksum of the preimage. *)
Theorem HashIntent_deterministic_hex (ord1 ord2 : list string → list string)
    (r : IntentRecord) (h : string) :
  rearranges ord1 → rearranges ord2 →
  HashIntent ord1 r = Ok h →
  HashIntent ord2 r = Ok h
  ∧ String.length h = 64%nat
  ∧ Forall (fun c => is_lower_hex c = true) (list_ascii_of_string h)
  ∧ ∃ preimage, canonicalIntentPreimage ord1 (Normalize r) = Ok preimage
                ∧ h = EncodeToString (Sum256 preimage).
Proof.
  intros H1 H2 Hh. split; [by rewrite (HashIntent_order ord2 ord1)|].
  unfold HashIntent in Hh.
  destruct (canonicalIntentPreimage ord1 (Normalize r)) as [preimage|]; [|done].
  change (Ok (EncodeToString (Sum256 preimage)) = Ok h) in Hh.
  injection Hh as <-.
  rewrite EncodeToString_length, Sum256_length.
  split; [done|]. split; [|by eexists].
  apply EncodeToString_lower_hex, Sum256_range.
Qed.

(** * The order of the members in the text does not show *)

Lemma jtree_ind (P : jtree → Prop) :
  P TNull → (∀ b, P (TBool b)) → (∀ s, P (TString s)) → (∀ tok, P (TNumber tok)) →
  (∀ items, Forall P items → P (TArray items)) →
  (∀ members, Forall (fun kv => P kv.2) members → P (TObject members)) →
  ∀ t, P t.
Proof.
  intros Hnull Hbool Hstr Hnum Harr Hobj. fix IH 1.
  intros [|b|s|tok|items|members];
    [exact Hnull|exact (Hbool b)|exact (Hstr s)|exact (Hnum tok)| |].
  - apply Harr. revert items. fix IHl 1.
    intros [|x xs]; constructor; [apply IH|apply IHl].
  - apply Hobj. revert members. fix IHl 1.
    intros [|[k x] xs]; constructor; [apply IH|apply IHl].
Qed.

Lemma store_members_list_to_map {V} (ms : list (string * V)) :
  store_members ms = list_to_map (reverse ms).
Proof.
  unfold store_members, list_to_map. generalize (∅ : gmap string V) as m0.
  induction ms as [|kv ms IH]; intros m0; [done|].
  cbn [foldl]. rewrite IH, reverse_cons, foldr_app. done.
Qed.

Lemma store_members_perm {V} (ms ms' : list (string * V)) :
  NoDup ms.*1 → ms ≡ₚ ms' → store_members ms = store_members ms'.
Proof.
  intros Hnd Hp. rewrite !store_members_list_to_map.
  apply list_to_map_proper.
  - by rewrite reverse_Permutation.
  - by rewrite !reverse_Permutation.
Qed.

Lemma interface_of_key_perm t1 t2 :
  key_perm t1 t2 → interface_of t1 = interface_of t2.
Proof.
  revert t2. induction t1 as [| | | |items IH|members IH] using jtree_ind;
    intros t2 Hkp; inversion Hkp as [| | | |xs ys Hxs|ms ms' ns Hnd Hp Hms];
    subst; try done.
  - cbn [interface_of]. f_equal. clear Hkp.
    induction Hxs as [|x y xs ys Hxy _ IHxs]; [done|].
    apply Forall_cons in IH as [Hx IH]. cbn. f_equal; auto.
  - cbn [interface_of]. f_equal.
    set (f := fun kv : string * jtree => (kv.1, interface_of kv.2)).
    rewrite (store_members_perm (f <$> members) (f <$> ms')).
    + f_equal. rewrite Hp in IH. clear Hkp Hp Hnd.
      induction Hms as [|[k x] [k' y] xs ys [Hk Hxy] _ IHxs]; [done|].
      apply Forall_cons in IH as [Hx IH]. cbn in *. subst k'.
      f_equal; [|auto]. unfold f; cbn. f_equal. auto.
    + by rewrite <- list_fmap_compose.
    + by rewrite Hp.
Qed.

Lemma CanonicalizeMeta_key_perm ord1 ord2 raw1 raw2 t1 t2 :
  rearranges ord1 → rearranges ord2 →
  decode_tree raw1 = Ok t1 → decode_tree raw2 = Ok t2 → key_perm t1 t2 →
  CanonicalizeMeta ord1 raw1 = CanonicalizeMeta ord2 raw2.
Proof.
  intros H1 H2 Hd1 Hd2 Hkp.
  rewrite (CanonicalizeMeta_order ord1 ord2) by done.
  unfold CanonicalizeMeta, decodeJSON. rewrite Hd1, Hd2.
  destruct raw1 as [|c1 raw1]; [done|]. destruct raw2 as [|c2 raw2]; [done|].
  cbn [String.length]. rewrite !decide_False by lia.
  cbn. by rewrite (interface_of_key_perm t1 t2).
Qed.

(** The record reaches the preimage through its canonical form only. *)
Lemma meta_guard ord meta :
  (if decide (0 < String.length meta)%nat then CanonicalizeMeta ord meta else Ok "")
  = CanonicalizeMeta ord meta.
Proof.
  case_decide as Hlen; [done|]. unfold CanonicalizeMeta.
  rewrite decide_True by lia. done.
Qed.

Lemma HashIntent_meta ord1 ord2 r raw1 raw2 :
  CanonicalizeMeta ord1 raw1 = CanonicalizeMeta ord2 raw2 →
  HashIntent ord1 (with_Meta r raw1) = HashIntent ord2 (with_Meta r raw2).
Proof.
  intros Hc. unfold HashIntent, canonicalIntentPreimage.
  cbn [Normalize with_Meta ID CreatedAt Author SourceType Title Prompt Response
         Meta PrevHash].
  rewrite !meta_guard, Hc. done.
Qed.

(** * The keys are written in ascending order *)

Lemma sorted_keys_strict ks :
  NoDup ks → StronglySorted String.le ks → StronglySorted key_lt ks.
Proof.
  intros Hnd Hs. induction Hs as [|k ks Hs IH Hk]; [constructor|].
  apply NoDup_cons in Hnd as [Hk' Hnd]. constructor; [auto|].
  apply Forall_forall. intros k2 Hk2. split.
  - eapply Forall_forall in Hk; eauto.
  - intros ->. done.
Qed.

Lemma writeJSONObject_sorted ord (obj : gmap string any) :
  rearranges ord →
  ∃ ks, ks ≡ₚ (map_to_list obj).*1
        ∧ StronglySorted key_lt ks
        ∧ writeJSONValue ord (JObject obj)
          = "{"
            +:+ String.concat ","
                  ((fun k => Marshal_string k +:+ ":" +:+ writeJSONValue ord (obj !!! k))
                     <$> ks)
            +:+ "}".
Proof.
  intros Hord. exists (sort_Strings (ord (map_to_list obj).*1)).
  assert (Hp : sort_Strings (ord (map_to_list obj).*1) ≡ₚ (map_to_list obj).*1).
  { unfold sort_Strings. by rewrite merge_sort_Permutation. }
  split; [done|]. split.
  - apply sorted_keys_strict.
    + rewrite Hp. apply NoDup_fst_map_to_list.
    + apply StronglySorted_merge_sort; apply _.
  - cbn [writeJSONValue]. unfold write_object. do 3 f_equal.
    apply list_fmap_ext. intros i k Hk. do 2 f_equal.
    assert (Hin : k ∈ (map_to_list obj).*1).
    { rewrite <- Hp. by eapply list_elem_of_lookup_2. }
    apply list_elem_of_fmap in Hin as [[k' v] [-> Hin]].
    apply elem_of_map_to_list in Hin. cbn.
    rewrite lookup_fmap, (lookup_total_correct _ _ _ Hin), Hin. done.
Qed.

(** What [CanonicalizeMeta] returns for a text that decodes: the text of
    [writeJSONObject] for the decoded object. *)
Lemma CanonicalizeMeta_decoded ord raw t obj :
  decode_tree raw = Ok t → interface_of t = JObject obj →
  CanonicalizeMeta ord raw = Ok (writeJSONValue ord (JObject obj)).
Proof.
  intros Hd Ht. unfold CanonicalizeMeta, decodeJSON. rewrite Hd.
  destruct raw as [|c raw]; [done|].
  cbn [String.length]. rewrite decide_False by lia.
  cbn. by rewrite Ht.
Qed.

(** C2: two metadata texts whose trees differ only in the order of the
    members of their objects, at any depth, have the same canonical form,
    and two records that differ only in such metadata have the same digest.
    The canonical form that [CanonicalizeMeta] returns for metadata that
    decodes as the object [obj] is the text of the members of [obj], their
    keys in strictly ascending order of their bytes, each key once and every
    key of [obj] among them, between braces; and the value of each member is
    written by [writeJSONValue], which writes every object, at any depth, in
    that way. *)
Theorem canonical_meta_key_order (ord1 ord2 : list string → list string)
    (raw1 raw2 : string) (t1 t2 : jtree) (r : IntentRecord) :
  rearranges ord1 → rearranges ord2 →
  decode_tree raw1 = Ok t1 → decode_tree raw2 = Ok t2 → key_perm t1 t2 →
  CanonicalizeMeta ord1 raw1 = CanonicalizeMeta ord2 raw2
  ∧ HashIntent ord1 (with_Meta r raw1) = HashIntent ord2 (with_Meta r raw2)
  ∧ (∀ obj : gmap string any,
       interface_of t1 = JObject obj →
       ∃ ks, ks ≡ₚ (map_to_list obj).*1
             ∧ StronglySorted key_lt ks
             ∧ CanonicalizeMeta ord1 raw1
               = Ok ("{"
                     +:+ String.concat ","
                           ((fun k => Marshal_string k +:+ ":"
                                      +:+ writeJSONValue ord1 (obj !!! k)) <$> ks)
                     +:+ "}")
             ∧ CanonicalizeMeta ord2 raw2 = CanonicalizeMeta ord1 raw1)
  ∧ (∀ obj : gmap string any,
       ∃ ks, ks ≡ₚ (map_to_list obj).*1
             ∧ StronglySorted key_lt ks
             ∧ writeJSONValue ord1 (JObject obj)
               = "{"
                 +:+ String.concat ","
                       ((fun k => Marshal_string k +:+ ":"
                                  +:+ writeJSONValue ord1 (obj !!! k)) <$> ks)
                 +:+ "}").
Proof.
  intros H1 H2 Hd1 Hd2 Hkp.
  assert (Hc := CanonicalizeMeta_key_perm ord1 ord2 raw1 raw2 t1 t2 H1 H2 Hd1 Hd2 Hkp).
  split; [done|]. split; [by apply HashIntent_meta|]. split.
  - intros obj Hobj.
    destruct (writeJSONObject_sorted ord1 obj H1) as (ks & Hp & Hs & Htext).
    exists ks. split; [done|]. split; [done|]. split; [|done].
    by rewrite (CanonicalizeMeta_decoded ord1 raw1 t1 obj), Htext.
  - intros obj. by apply writeJSONObject_sorted.
Qed.

(** * Numbers keep their tokens *)

Lemma HashIntent_same_value ord1 ord2 r raw1 raw2 v :
  rearranges ord1 → rearranges ord2 →
  decodeJSON raw1 = Ok v → decodeJSON raw2 = Ok v →
  HashIntent ord1 (with_Meta r raw1) = HashIntent ord2 (with_Meta r raw2).
Proof.
  intros H1 H2 Hd1 Hd2. apply HashIntent_meta.
  rewrite (CanonicalizeMeta_order ord1 ord2) by done.
  unfold CanonicalizeMeta. rewrite Hd1, Hd2.
  destruct raw1 as [|c1 raw1]; [done|]. destruct raw2 as [|c2 raw2]; [done|].
  cbn [String.length]. by rewrite !decide_False by lia.
Qed.

(** C3, as the code has it: the digest depends on the metadata through the
    value it decodes to, in which a number is its literal token; the
    canonical form repeats that token byte for byte, so that [1], [1.0] and
    [1e0] are three numbers. *)
Theorem number_tokens_kept (ord1 ord2 : list string → list string)
    (r : IntentRecord) (raw1 raw2 : string) (v : any) :
  rearranges ord1 → rearranges ord2 →
  decodeJSON raw1 = Ok v → decodeJSON raw2 = Ok v →
  HashIntent ord1 (with_Meta r raw1) = HashIntent ord2 (with_Meta r raw2)
  ∧ ∀ tok, interface_of (TNumber tok) = JNumber tok
           ∧ writeJSONValue ord1 (JNumber tok) = tok.
Proof.
  intros H1 H2 Hd1 Hd2. split; [by eapply HashIntent_same_value|done].
Qed.

Lemma number_tokens_kept_witness :
  HashIntent id (with_Meta example_record (quoted "{'n':1.0,'k':[]}"))
  = HashIntent reverse (with_Meta example_record (quoted " { 'k' : [ ], 'n' : 1.0 } "))
  ∧ ∀ tok, interface_of (TNumber tok) = JNumber tok
           ∧ writeJSONValue id (JNumber tok) = tok.
Proof.
  apply (number_tokens_kept id reverse example_record
           (quoted "{'n':1.0,'k':[]}") (quoted " { 'k' : [ ], 'n' : 1.0 } ")
           (JObject (<["n" := JNumber "1.0"]> (<["k" := JArray []]> ∅)))).
  - intros l. reflexivity.
  - intros l. apply reverse_Permutation.
  - vm_compute. reflexivity.
  - vm_compute. reflexivity.
Defined.

(** C3 fails as stated: the tokens [1] and [1.0] denote one number, and the
    two records that differ in this token alone have different digests. *)
Lemma number_spelling_changes_digest :
  decode_tree (quoted "{'n':1}") = Ok (TObject [("n", TNumber "1")])
  ∧ decode_tree (quoted "{'n':1.0}") = Ok (TObject [("n", TNumber "1.0")])
  ∧ same_number "1" "1.0" = true
  ∧ HashIntent id (with_Meta example_record (quoted "{'n':1}"))
    = Ok "1dae082ea182ded9c3cc106e373df4f4b7e780dd78e984448ce088f161299109"
  ∧ HashIntent id (with_Meta example_record (quoted "{'n':1.0}"))
    = Ok "22a749699346e21ac02f9b4e9a3437e855c0e7d160eecb6769e797607370973c"
  ∧ HashIntent id (with_Meta example_record (quoted "{'n':1}"))
    ≠ HashIntent id (with_Meta example_record (quoted "{'n':1.0}")).
Proof.
  repeat split; try (vm_compute; reflexivity).
  intros H. vm_compute in H. discriminate H.
Qed.

(** * Witnesses of the first two properties *)

Ltac distinct_keys :=
  cbn;
  repeat (apply NoDup_cons_2;
          [rewrite ?elem_of_cons, ?elem_of_nil; intuition discriminate|]);
  apply NoDup_nil_2.

Lemma HashIntent_deterministic_hex_witness :
  let h := "5b1974ffea1ff80bfb73c98a1db437a2421ed142c4ecf6f9925da9cbb839a630" in
  HashIntent reverse example_record = Ok h
  ∧ String.length h = 64%nat
  ∧ Forall (fun c => is_lower_hex c = true) (list_ascii_of_string h)
  ∧ ∃ preimage, canonicalIntentPreimage id (Normalize example_record) = Ok preimage
                ∧ h = EncodeToString (Sum256 preimage).
Proof.
  apply (HashIntent_deterministic_hex id reverse example_record).
  - intros l. reflexivity.
  - intros l. apply reverse_Permutation.
  - vm_compute. reflexivity.
Defined.

Lemma canonical_meta_key_order_witness :
  let raw1 := quoted "{'b':{'y':true,'x':null},'a':[1]}" in
  let raw2 := quoted "{'a':[1],'b':{'x':null,'y':true}}" in
  let t1 := TObject [("b", TObject [("y", TBool true); ("x", TNull)]);
                     ("a", TArray [TNumber "1"])] in
  CanonicalizeMeta id raw1 = Ok (quoted "{'a':[1],'b':{'x':null,'y':true}}")
  ∧ CanonicalizeMeta id raw1 = CanonicalizeMeta reverse raw2
  ∧ HashIntent id (with_Meta example_record raw1)
    = HashIntent reverse (with_Meta example_record raw2)
  ∧ (∀ obj : gmap string any,
       interface_of t1 = JObject obj →
       ∃ ks, ks ≡ₚ (map_to_list obj).*1
             ∧ StronglySorted key_lt ks
             ∧ CanonicalizeMeta id raw1
               = Ok ("{"
                     +:+ String.concat ","
                           ((fun k => Marshal_string k +:+ ":"
                                      +:+ writeJSONValue id (obj !!! k)) <$> ks)
                     +:+ "}")
             ∧ CanonicalizeMeta reverse raw2 = CanonicalizeMeta id raw1)
  ∧ (∀ obj : gmap string any,
       ∃ ks, ks ≡ₚ (map_to_list obj).*1
             ∧ StronglySorted key_lt ks
             ∧ writeJSONValue id (JObject obj)
               = "{"
                 +:+ String.concat ","
                       ((fun k => Marshal_string k +:+ ":"
                                  +:+ writeJSONValue id (obj !!! k)) <$> ks)
                 +:+ "}").
Proof.
  intros raw1 raw2 t1. split; [vm_compute; reflexivity|].
  apply (canonical_meta_key_order id reverse raw1 raw2 t1
           (TObject [("a", TArray [TNumber "1"]);
                     ("b", TObject [("x", TNull); ("y", TBool true)])])
           example_record).
  - intros l. reflexivity.
  - intros l. apply reverse_Permutation.
  - vm_compute. reflexivity.
  - vm_compute. reflexivity.
  - eapply key_perm_object; [distinct_keys | apply perm_swap |].
    repeat constructor.
    eapply key_perm_object; [distinct_keys | apply perm_swap | repeat constructor].
Defined.

(** * The checks on the mandatory fields and on the timestamp *)

Lemma length_zero s : String.length s = 0%nat ↔ s = "".
Proof. destruct s; cbn; split; (done || lia). Qed.

Lemma normalized_length_zero s :
  String.length (normalizeNewlines s) = 0%nat ↔ s = "".
Proof. by rewrite length_zero, normalizeNewlines_lf_endings, lf_endings_empty. Qed.

Lemma time_Parse_empty : time_Parse "" = Err ErrTime.
Proof. reflexivity. Qed.

Ltac field_empty f :=
  rewrite (decide_True (P := String.length f = 0%nat))
    by first [by apply length_zero | by apply normalized_length_zero].

Ltac field_present f :=
  rewrite (decide_False (P := String.length f = 0%nat))
    by first [by rewrite length_zero | by rewrite normalized_length_zero].

Ltac unfold_HashIntent :=
  unfold canonicalIntentPreimage, normalizeRFC3339;
  cbn [Normalize ID CreatedAt Author SourceType Title Prompt Response Meta PrevHash].

(** The checks in the order in which [canonicalIntentPreimage] makes them on
    the normalized record; past them the digest is left as it is. *)
Lemma HashIntent_checks ord r :
  HashIntent ord r =
    if decide (ID r = "") then Err (ErrNew "id is required for hashing")
    else if decide (CreatedAt r = "")
    then Err (ErrNew "created_at is required for hashing")
    else
      match time_Parse (CreatedAt r) with
      | Err _ => Err (ErrNew "created_at must be RFC3339")
      | Ok _ =>
          if decide (Author r = "") then Err (ErrNew "author is required for hashing")
          else if decide (SourceType r = "")
          then Err (ErrNew "source_type is required for hashing")
          else if decide (Prompt r = "")
          then Err (ErrNew "prompt is required for hashing")
          else if decide (Response r = "")
          then Err (ErrNew "response is required for hashing")
          else HashIntent ord r
      end.
Proof.
  destruct (decide (ID r = "")) as [Hid|Hid].
  { unfold HashIntent. unfold_HashIntent. by field_empty (ID r). }
  destruct (decide (CreatedAt r = "")) as [Hc|Hc].
  { unfold HashIntent. unfold_HashIntent.
    field_present (ID r). by field_empty (CreatedAt r). }
  destruct (time_Parse (CreatedAt r)) as [t|e] eqn:Ht.
  2: { unfold HashIntent. unfold_HashIntent. rewrite Ht.
       field_present (ID r). by field_present (CreatedAt r). }
  repeat case_decide; try done; unfold HashIntent; unfold_HashIntent; rewrite Ht;
    cbn [mbind result_bind]; field_present (ID r); field_present (CreatedAt r).
  - by field_empty (normalizeNewlines (Author r)).
  - field_present (normalizeNewlines (Author r)).
    by field_empty (normalizeNewlines (SourceType r)).
  - field_present (normalizeNewlines (Author r)).
    field_present (normalizeNewlines (SourceType r)).
    by field_empty (normalizeNewlines (Prompt r)).
  - field_present (normalizeNewlines (Author r)).
    field_present (normalizeNewlines (SourceType r)).
    field_present (normalizeNewlines (Prompt r)).
    by field_empty (normalizeNewlines (Response r)).
Qed.

(** Past the checks a record without metadata has a digest. *)
Lemma HashIntent_unset_meta ord r t :
  Meta r = "" → ID r ≠ "" → time_Parse (CreatedAt r) = Ok t →
  Author r ≠ "" → SourceType r ≠ "" → Prompt r ≠ "" → Response r ≠ "" →
  is_ok (HashIntent ord r) = true.
Proof.
  intros Hm Hid Ht Ha Hs Hp Hr.
  assert (Hc : CreatedAt r ≠ "") by (intros Hc; by rewrite Hc in Ht).
  unfold HashIntent. unfold_HashIntent. rewrite Ht, Hm. cbn [mbind result_bind].
  field_present (ID r). field_present (CreatedAt r).
  field_present (normalizeNewlines (Author r)).
  field_present (normalizeNewlines (SourceType r)).
  field_present (normalizeNewlines (Prompt r)).
  field_present (normalizeNewlines (Response r)).
  done.
Qed.

(** C6, as the code has it: a record with an empty mandatory field has no
    digest, and the error is that of the first check that fails, in the
    order: id present, createdAt present, createdAt parses, author,
    sourceType, prompt, response present.  It names the empty field when
    every check before that field passes, and is the timestamp error when
    createdAt does not parse and id and createdAt are present. *)
Theorem missing_field_errors (ord : list string → list string) (r : IntentRecord) :
  (ID r = "" ∨ CreatedAt r = "" ∨ Author r = "" ∨ SourceType r = ""
   ∨ Prompt r = "" ∨ Response r = "") →
  is_ok (HashIntent ord r) = false
  ∧ (ID r = "" → HashIntent ord r = Err (ErrNew "id is required for hashing"))
  ∧ (ID r ≠ "" → CreatedAt r = "" →
     HashIntent ord r = Err (ErrNew "created_at is required for hashing"))
  ∧ (ID r ≠ "" → is_ok (time_Parse (CreatedAt r)) = true →
     (Author r = "" →
      HashIntent ord r = Err (ErrNew "author is required for hashing"))
     ∧ (Author r ≠ "" → SourceType r = "" →
        HashIntent ord r = Err (ErrNew "source_type is required for hashing"))
     ∧ (Author r ≠ "" → SourceType r ≠ "" → Prompt r = "" →
        HashIntent ord r = Err (ErrNew "prompt is required for hashing"))
     ∧ (Author r ≠ "" → SourceType r ≠ "" → Prompt r ≠ "" → Response r = "" →
        HashIntent ord r = Err (ErrNew "response is required for hashing")))
  ∧ (ID r ≠ "" → CreatedAt r ≠ "" → is_ok (time_Parse (CreatedAt r)) = false →
     HashIntent ord r = Err (ErrNew "created_at must be RFC3339")).
Proof.
  intros Hempty. rewrite (HashIntent_checks ord r).
  split; [|split; [|split; [|split]]]; cycle 4.
  { intros Hid Hc Ht. rewrite !decide_False by done.
    by destruct (time_Parse (CreatedAt r)). }
  - destruct (time_Parse (CreatedAt r)); repeat case_decide; try done.
    exfalso. destruct Hempty as [?|[?|[?|[?|[?|?]]]]]; done.
  - intros ->. done.
  - intros Hid ->. by rewrite decide_False.
  - intros Hid Ht.
    assert (Hc : CreatedAt r ≠ "") by (intros Hc; by rewrite Hc in Ht).
    rewrite !(decide_False (P := ID r = "")) by done.
    rewrite !(decide_False (P := CreatedAt r = "")) by done.
    destruct (time_Parse (CreatedAt r)); [|done].
    repeat split; intros; repeat case_decide; done.
Qed.

Lemma missing_field_errors_witness :
  let r := {| ID := "x"; CreatedAt := "2026-02-09T10:00:00Z"; Author := "a";
              SourceType := ""; Title := ""; Prompt := "p"; Response := "";
              Meta := ""; PrevHash := ""; Hash := "" |} in
  is_ok (HashIntent id r) = false
  ∧ HashIntent id r = Err (ErrNew "source_type is required for hashing").
Proof.
  intros r.
  destruct (missing_field_errors id r) as (Hfail & _ & _ & Hrest & _).
  - right. right. right. left. reflexivity.
  - split; [exact Hfail|].
    destruct Hrest as (_ & Hsource & _); [discriminate|reflexivity|].
    apply Hsource; [discriminate|reflexivity].
Defined.

(** C6 fails as stated: the only empty mandatory field of this record is the
    author, and the error is that of the timestamp, checked before it. *)
Lemma timestamp_checked_before_author :
  let r := {| ID := "x"; CreatedAt := "yesterday"; Author := "";
              SourceType := "cli"; Title := ""; Prompt := "p"; Response := "r";
              Meta := ""; PrevHash := ""; Hash := "" |} in
  Author r = "" ∧ ID r ≠ "" ∧ CreatedAt r ≠ "" ∧ SourceType r ≠ ""
  ∧ Prompt r ≠ "" ∧ Response r ≠ ""
  ∧ HashIntent id r = Err (ErrNew "created_at must be RFC3339")
  ∧ HashIntent id r ≠ Err (ErrNew "author is required for hashing").
Proof. cbn. repeat split; try discriminate. Qed.

(** * The timestamp *)

Lemma normalizeRFC3339_instant c1 c2 t1 t2 :
  time_Parse c1 = Ok t1 → time_Parse c2 = Ok t2 →
  unix t1 = unix t2 → nano t1 = nano t2 →
  normalizeRFC3339 c1 = Ok (Format (UTC t1))
  ∧ normalizeRFC3339 c2 = Ok (Format (UTC t1)).
Proof.
  intros H1 H2 Hu Hn. unfold normalizeRFC3339, UTC.
  rewrite H1, H2. cbn [mbind result_bind]. rewrite Hu, Hn. done.
Qed.

(** C7, as the code has it: two texts of one instant give one digest, and a
    text that does not parse gives the timestamp error once the checks made
    before the parse, that id and createdAt are not empty, have passed. *)
Theorem created_at_instant (ord : list string → list string) (r : IntentRecord) :
  (∀ c1 c2 t1 t2,
     time_Parse c1 = Ok t1 → time_Parse c2 = Ok t2 →
     unix t1 = unix t2 → nano t1 = nano t2 →
     normalizeRFC3339 c1 = Ok (Format (UTC t1))
     ∧ normalizeRFC3339 c2 = Ok (Format (UTC t1))
     ∧ HashIntent ord (with_CreatedAt r c1) = HashIntent ord (with_CreatedAt r c2))
  ∧ (ID r ≠ "" → CreatedAt r ≠ "" → is_ok (time_Parse (CreatedAt r)) = false →
     HashIntent ord r = Err (ErrNew "created_at must be RFC3339")).
Proof.
  split.
  - intros c1 c2 t1 t2 H1 H2 Hu Hn.
    destruct (normalizeRFC3339_instant c1 c2 t1 t2 H1 H2 Hu Hn) as [Hn1 Hn2].
    split; [done|]. split; [done|].
    unfold HashIntent, canonicalIntentPreimage.
    cbn [Normalize with_CreatedAt ID CreatedAt Author SourceType Title Prompt
           Response Meta PrevHash].
    rewrite Hn1, Hn2.
    destruct c1 as [|a1 c1]; [done|]. destruct c2 as [|a2 c2]; [done|].
    cbn [String.length]. rewrite !(decide_False (P := S _ = 0%nat)) by lia. done.
  - intros Hid Hc Ht. rewrite HashIntent_checks.
    rewrite !decide_False by done.
    by destruct (time_Parse (CreatedAt r)).
Qed.

Lemma created_at_instant_witness :
  HashIntent id (with_CreatedAt example_record "2026-02-09T10:00:00Z")
  = HashIntent id (with_CreatedAt example_record "2026-02-09T12:00:00.000+02:00")
  ∧ HashIntent id (with_CreatedAt example_record "yesterday")
    = Err (ErrNew "created_at must be RFC3339").
Proof.
  split.
  - apply (proj1 (created_at_instant id example_record)
             "2026-02-09T10:00:00Z" "2026-02-09T12:00:00.000+02:00"
             {| unix := 1770631200; nano := 0; offset := 0 |}
             {| unix := 1770631200; nano := 0; offset := 7200 |});
      vm_compute; reflexivity.
  - apply (proj2 (created_at_instant id (with_CreatedAt example_record "yesterday")));
      [discriminate|discriminate|vm_compute; reflexivity].
Defined.

(** C7 fails as stated: the createdAt of this record does not parse, and the
    error is that of the id, checked before it. *)
Lemma id_checked_before_timestamp :
  let r := {| ID := ""; CreatedAt := "yesterday"; Author := "a";
              SourceType := "cli"; Title := ""; Prompt := "p"; Response := "r";
              Meta := ""; PrevHash := ""; Hash := "" |} in
  time_Parse (CreatedAt r) = Err ErrTime
  ∧ HashIntent id r = Err (ErrNew "id is required for hashing")
  ∧ HashIntent id r ≠ Err (ErrNew "created_at must be RFC3339").
Proof. cbn. repeat split; try discriminate. Qed.

(** * Metadata that is not set *)

(** C10: [CanonicalizeMeta] of the empty input is nil without an error, where
    decoding the empty input would fail.  A record whose Meta is not set
    never fails in the metadata branch: every error of [HashIntent] on it is
    one of the checks on the other fields, and it has a digest once those
    checks pass. *)
Theorem unset_meta_is_absent (ord : list string → list string) (r : IntentRecord) :
  CanonicalizeMeta ord "" = Ok ""
  ∧ decodeJSON "" = Err (ErrJSON EOF)
  ∧ (Meta r = "" →
     (∀ e, HashIntent ord r = Err e → e ∈ validation_errors)
     ∧ (ID r ≠ "" → is_ok (time_Parse (CreatedAt r)) = true →
        Author r ≠ "" → SourceType r ≠ "" → Prompt r ≠ "" → Response r ≠ "" →
        is_ok (HashIntent ord r) = true)).
Proof.
  split; [reflexivity|]. split; [reflexivity|]. intros Hm. split.
  - intros e. rewrite HashIntent_checks. unfold validation_errors.
    destruct (decide (ID r = "")) as [|Hid]; [intros [= <-]; set_solver|].
    destruct (decide (CreatedAt r = "")); [intros [= <-]; set_solver|].
    destruct (time_Parse (CreatedAt r)) as [t|] eqn:Ht; [|intros [= <-]; set_solver].
    destruct (decide (Author r = "")) as [|Ha]; [intros [= <-]; set_solver|].
    destruct (decide (SourceType r = "")) as [|Hs]; [intros [= <-]; set_solver|].
    destruct (decide (Prompt r = "")) as [|Hp]; [intros [= <-]; set_solver|].
    destruct (decide (Response r = "")) as [|Hr]; [intros [= <-]; set_solver|].
    intros He. pose proof (HashIntent_unset_meta ord r t Hm Hid Ht Ha Hs Hp Hr) as Hok.
    by rewrite He in Hok.
  - intros Hid Ht Ha Hs Hp Hr.
    destruct (time_Parse (CreatedAt r)) as [t|] eqn:Ht'; [|done].
    by eapply HashIntent_unset_meta.
Qed.

Lemma unset_meta_is_absent_witness :
  CanonicalizeMeta id "" = Ok ""
  ∧ is_ok (HashIntent id example_record) = true.
Proof.
  destruct (unset_meta_is_absent id example_record) as (Hnil & _ & Hrec).
  split; [exact Hnil|].
  destruct Hrec as [_ Hok]; [reflexivity|].
  apply Hok; (discriminate || reflexivity).
Defined.

(** * The metadata filter *)

Lemma matchesMetaFilters_error_form raw filters e :
  matchesMetaFilters raw filters = Err e → ∃ e', e = ErrWrap "decode meta" e'.
Proof.
  unfold matchesMetaFilters. repeat case_decide; try done.
  destruct (Unmarshal raw) as [payload|e']; [done|].
  intros [= <-]. by eexists.
Qed.

Lemma matchesMetaFilters_undecodable raw filters :
  size filters ≠ 0%nat → raw ≠ "" → is_ok (Unmarshal raw) = false →
  ∃ e, matchesMetaFilters raw filters = Err (ErrWrap "decode meta" e).
Proof.
  intros Hf Hraw Hu. unfold matchesMetaFilters.
  rewrite decide_False by done.
  rewrite decide_False by (by rewrite length_zero).
  destruct (Unmarshal raw) as [payload|e]; [done|]. by eexists.
Qed.

Lemma filter_loop_undecodable filters intents filtered r :
  size filters ≠ 0%nat → r ∈ intents → Meta r ≠ "" →
  is_ok (Unmarshal (Meta r)) = false →
  ∃ e, filter_loop filters intents filtered = Err (ErrWrap "decode meta" e).
Proof.
  intros Hf Hin Hraw Hu. revert filtered.
  induction Hin as [r intents|r r' intents Hin IH]; intros filtered; cbn [filter_loop].
  - destruct (matchesMetaFilters_undecodable (Meta r) filters Hf Hraw Hu) as [e ->].
    by eexists.
  - destruct (matchesMetaFilters (Meta r') filters) as [b|e] eqn:Hm.
    + cbn [mbind result_bind]. by apply IH.
    + apply matchesMetaFilters_error_form in Hm as [e' ->]. by eexists.
Qed.

(** C8, as the code has it: with a filter set that is not empty, metadata
    that is not empty and fails to decode, on any record of the list, fails
    the whole call with the decode error and no subset is returned; with the
    empty filter set the call returns the list as it is and decodes
    nothing. *)
Theorem filter_fails_on_undecodable_meta (intents : list IntentRecord)
    (filters : gmap string string) :
  (size filters = 0%nat → FilterIntentsByMeta intents filters = Ok intents)
  ∧ (size filters ≠ 0%nat →
     ∀ r, r ∈ intents → Meta r ≠ "" → is_ok (Unmarshal (Meta r)) = false →
          ∃ e, FilterIntentsByMeta intents filters = Err (ErrWrap "decode meta" e)).
Proof.
  unfold FilterIntentsByMeta. split.
  - intros Hf. by rewrite decide_True.
  - intros Hf r Hin Hraw Hu. rewrite decide_False by done.
    by eapply filter_loop_undecodable.
Qed.

Lemma filter_fails_on_undecodable_meta_witness :
  let a := intent_with_meta "a" (quoted "{'env':'prod'}") in
  let b := intent_with_meta "b" (quoted "{'env':") in
  FilterIntentsByMeta [a; b] ∅ = Ok [a; b]
  ∧ ∃ e, FilterIntentsByMeta [a; b] {["env" := "prod"]}
         = Err (ErrWrap "decode meta" e).
Proof.
  intros a b. split.
  - apply (proj1 (filter_fails_on_undecodable_meta [a; b] ∅)). reflexivity.
  - apply (proj2 (filter_fails_on_undecodable_meta [a; b] {["env" := "prod"]}))
      with (r := b).
    + vm_compute. discriminate.
    + apply elem_of_cons. right. apply elem_of_cons. left. reflexivity.
    + vm_compute. discriminate.
    + vm_compute. reflexivity.
Defined.

(** C8 fails as stated: the metadata of this record does not decode, and
    with the empty filter set the call returns the list. *)
Lemma empty_filter_decodes_nothing :
  let bad := intent_with_meta "a" (quoted "{'env':") in
  Meta bad ≠ ""
  ∧ Unmarshal (Meta bad) = Err (ErrJSON SyntaxError)
  ∧ FilterIntentsByMeta [bad] ∅ = Ok [bad].
Proof. repeat split; try (vm_compute; reflexivity). vm_compute. discriminate. Qed.

(** Metadata that is the literal [null] decodes, to a nil map, and matches
    no filter; metadata that is an array does not decode. *)
Lemma filter_null_and_array :
  FilterIntentsByMeta [intent_with_meta "a" "null"] {["env" := "prod"]} = Ok []
  ∧ FilterIntentsByMeta [intent_with_meta "a" "[1]"] {["env" := "prod"]}
    = Err (ErrWrap "decode meta" (ErrJSON UnmarshalTypeError)).
Proof. split; vm_compute; reflexivity. Qed.

(** The three filter calls of section 8 of the specification. *)
Lemma filter_examples :
  let a := intent_with_meta "a" (quoted "{'env':'prod'}") in
  let b := intent_with_meta "b" (quoted "{'env':'staging'}") in
  let c := intent_with_meta "c" (quoted "{'env':'prod','count':2}") in
  FilterIntentsByMeta [a; b; c] {["env" := "prod"]} = Ok [a; c]
  ∧ FilterIntentsByMeta [a; b; c] {["missing" := "value"]} = Ok []
  ∧ FilterIntentsByMeta [a; b; c] ∅ = Ok [a; b; c].
Proof. repeat split; vm_compute; reflexivity. Qed.
(** * Listing the store *)

Global Instance created_desc_total : Total created_desc.
Proof.
  intros r1 r2. unfold created_desc.
  destruct (total String.le (col_created_at r1) (col_created_at r2)); auto.
Qed.

Global Instance created_desc_trans : Transitive created_desc.
Proof. intros r1 r2 r3. unfold created_desc. intros H12 H23. by etrans. Qed.

(** A stable sort of the rows is one of the orders of the engine. *)
Lemma merge_sort_orders_recent : orders_recent (merge_sort created_desc).
Proof.
  intros table. split; [apply merge_sort_Permutation|].
  apply StronglySorted_merge_sort; apply _.
Qed.

Lemma record_eq (r1 r2 : IntentRecord) :
  ID r1 = ID r2 → CreatedAt r1 = CreatedAt r2 → Author r1 = Author r2 →
  SourceType r1 = SourceType r2 → Title r1 = Title r2 → Prompt r1 = Prompt r2 →
  Response r1 = Response r2 → Meta r1 = Meta r2 → PrevHash r1 = PrevHash r2 →
  Hash r1 = Hash r2 → r1 = r2.
Proof. destruct r1, r2; cbn; intros; by subst. Qed.

Lemma scan_insert_values record : scan_row (insert_values record) = record.
Proof.
  apply record_eq; cbn [scan_row insert_values ID CreatedAt Author SourceType
    Title Prompt Response Meta PrevHash Hash col_id col_created_at col_author
    col_source_type col_title col_prompt col_response col_meta col_prev_hash
    col_hash]; try done.
  - by case_decide.
  - case_decide as Hm; [|symmetry; apply length_zero; lia].
    rewrite decide_False; [done|]. intros Hempty. rewrite Hempty in Hm.
    cbn in Hm. lia.
  - by case_decide.
Qed.

Lemma select_recent_sorted order_by table limit :
  orders_recent order_by →
  StronglySorted created_desc (select_recent order_by table limit).
Proof.
  intros Hord. unfold select_recent. destruct (Hord table) as [_ Hs].
  rewrite <- (take_drop (Z.to_nat limit) (order_by table)) in Hs.
  by apply StronglySorted_app_1_l in Hs.
Qed.

Lemma select_recent_length order_by table limit :
  orders_recent order_by →
  length (select_recent order_by table limit)
  = (Z.to_nat limit `min` length table)%nat.
Proof.
  intros Hord. unfold select_recent. destruct (Hord table) as [Hp _].
  by rewrite length_take, (Permutation_length Hp).
Qed.

(** The rows after the first ones of a sorted list are not before them. *)
Lemma sorted_take_drop (rows : list row) n :
  StronglySorted created_desc rows →
  Forall (fun old => Forall (fun new => created_desc new old) (take n rows))
         (drop n rows).
Proof.
  intros Hs. rewrite <- (take_drop n rows) in Hs.
  apply Forall_forall. intros old Hold. apply Forall_forall. intros new Hnew.
  by apply (StronglySorted_app_1_elem_of _ _ _ _ _ Hs).
Qed.

(** C9: [ListIntents] returns the records in descending order of createdAt
    (the stored texts, compared byte by byte), at most [limit] of them, and
    takes 100 for [limit] when it is not positive: it returns the first
    [limit] rows of the sorted table, or all the rows when there are fewer,
    each read field by field; no row that is left out has a greater
    createdAt than a row that is listed; and of the records that
    [CreateIntent] has written to the table it returns the first [limit] in
    descending order, as they were stored.  This holds in whatever order the
    engine puts the rows of one createdAt. *)
Theorem ListIntents_recent_first (order_by : list row → list row)
    (table : list row) (limit : Z) :
  orders_recent order_by →
  let bound := if limit <=? 0 then 100 else limit in
  StronglySorted recent_first (ListIntents order_by table limit)
  ∧ Z.of_nat (length (ListIntents order_by table limit)) ≤ bound
  ∧ length (ListIntents order_by table limit)
    = (Z.to_nat bound `min` length table)%nat
  ∧ (∃ rows, rows ≡ₚ table
             ∧ StronglySorted created_desc rows
             ∧ ListIntents order_by table limit
               = scan_row <$> take (Z.to_nat bound) rows)
  ∧ (∃ listed rest,
       listed ++ rest ≡ₚ table
       ∧ ListIntents order_by table limit = scan_row <$> listed
       ∧ Forall (fun old =>
                   Forall (fun new =>
                             String.le (col_created_at old) (col_created_at new))
                          listed) rest)
  ∧ (∀ i r, ListIntents order_by table limit !! i = Some r →
       ∃ stored, stored ∈ table
         ∧ ID r = col_id stored ∧ CreatedAt r = col_created_at stored
         ∧ Author r = col_author stored ∧ SourceType r = col_source_type stored
         ∧ Title r = default "" (col_title stored)
         ∧ Prompt r = col_prompt stored ∧ Response r = col_response stored
         ∧ Meta r = default "" (col_meta stored)
         ∧ PrevHash r = default "" (col_prev_hash stored)
         ∧ Hash r = col_hash stored)
  ∧ (∀ records, table = insert_values <$> records →
       ∃ sorted, sorted ≡ₚ records
         ∧ StronglySorted recent_first sorted
         ∧ ListIntents order_by table limit = take (Z.to_nat bound) sorted).
Proof.
  intros Hord bound. unfold ListIntents. fold bound.
  destruct (Hord table) as [Hp Hs].
  assert (Hlen : length (scan_row <$> select_recent order_by table bound)
                 = (Z.to_nat bound `min` length table)%nat).
  { by rewrite length_fmap, select_recent_length. }
  split; [|split; [|split; [|split; [|split; [|split]]]]].
  - eapply StronglySorted_fmap; [|by apply select_recent_sorted].
    intros r1 r2 H. exact H.
  - rewrite Hlen. assert (0 < bound) by (unfold bound; case_match; lia). lia.
  - exact Hlen.
  - by exists (order_by table).
  - exists (take (Z.to_nat bound) (order_by table)),
      (drop (Z.to_nat bound) (order_by table)).
    split; [by rewrite take_drop|]. split; [done|].
    by apply sorted_take_drop.
  - intros i r Hi. unfold select_recent in Hi.
    apply list_lookup_fmap_Some in Hi as (stored & -> & Hi).
    exists stored. split.
    { rewrite <- Hp. apply list_elem_of_lookup_2 in Hi.
      revert Hi. apply subseteq_take. }
    cbn [scan_row ID CreatedAt Author SourceType Title Prompt Response Meta
           PrevHash Hash]. repeat split.
    destruct (col_meta stored) as [m|]; [|done]. cbn [default].
    by case_decide.
  - intros records ->. exists (scan_row <$> order_by (insert_values <$> records)).
    split; [|split].
    + rewrite Hp, <- list_fmap_compose.
      assert (scan_row ∘ insert_values <$> records = records) as ->; [|done].
      rewrite <- (list_fmap_id records) at 2.
      apply list_fmap_ext. intros i r _. apply scan_insert_values.
    + eapply StronglySorted_fmap; [|exact Hs]. intros r1 r2 H. exact H.
    + unfold select_recent. by rewrite fmap_take.
Qed.

Lemma ListIntents_recent_first_witness :
  let stored c := insert_values (with_CreatedAt example_record c) in
  let table := [stored "2026-02-09T10:00:00Z"; stored "2026-03-01T08:30:00Z";
                stored "2025-12-31T23:59:59Z"] in
  let listing := ListIntents (merge_sort created_desc) table 2 in
  CreatedAt <$> listing = ["2026-03-01T08:30:00Z"; "2026-02-09T10:00:00Z"]
  ∧ StronglySorted recent_first listing
  ∧ Z.of_nat (length listing) ≤ 2
  ∧ length listing = (Z.to_nat 2 `min` length table)%nat
  ∧ (∃ rows, rows ≡ₚ table
             ∧ StronglySorted created_desc rows
             ∧ listing = scan_row <$> take (Z.to_nat 2) rows)
  ∧ (∃ listed rest,
       listed ++ rest ≡ₚ table
       ∧ listing = scan_row <$> listed
       ∧ Forall (fun old =>
                   Forall (fun new =>
                             String.le (col_created_at old) (col_created_at new))
                          listed) rest)
  ∧ (∀ i r, listing !! i = Some r →
       ∃ stored, stored ∈ table
         ∧ ID r = col_id stored ∧ CreatedAt r = col_created_at stored
         ∧ Author r = col_author stored ∧ SourceType r = col_source_type stored
         ∧ Title r = default "" (col_title stored)
         ∧ Prompt r = col_prompt stored ∧ Response r = col_response stored
         ∧ Meta r = default "" (col_meta stored)
         ∧ PrevHash r = default "" (col_prev_hash stored)
         ∧ Hash r = col_hash stored)
  ∧ (∀ records, table = insert_values <$> records →
       ∃ sorted, sorted ≡ₚ records
         ∧ StronglySorted recent_first sorted
         ∧ listing = take (Z.to_nat 2) sorted).
Proof.
  intros stored table listing. split; [vm_compute; reflexivity|].
  exact (ListIntents_recent_first (merge_sort created_desc) table 2
           merge_sort_orders_recent).
Defined.

(** A table of three rows, listed with a bound of 2 and with no bound
    given. *)
Lemma ListIntents_example :
  let stored c := insert_values (with_CreatedAt example_record c) in
  let table := [stored "2026-02-09T10:00:00Z"; stored "2026-03-01T08:30:00Z";
                stored "2025-12-31T23:59:59Z"] in
  CreatedAt <$> ListIntents (merge_sort created_desc) table 2
  = ["2026-03-01T08:30:00Z"; "2026-02-09T10:00:00Z"]
  ∧ CreatedAt <$> ListIntents (merge_sort created_desc) table 0
    = ["2026-03-01T08:30:00Z"; "2026-02-09T10:00:00Z"; "2025-12-31T23:59:59Z"].
Proof. split; vm_compute; reflexivity. Qed.
(** * Validation, normalization and the checks of the digest *)

Lemma TrimSpace_ascii_spaces s :
  Forall (fun c => asciiSpace c = true) (list_ascii_of_string s) → TrimSpace s = "".
Proof.
  induction s as [|c s IH]; [done|]. cbn [list_ascii_of_string]. intros Hs.
  apply Forall_cons in Hs as [Hc Hs]. cbn [TrimSpace]. rewrite Hc.
  assert (code c < 128) as Hlt.
  { unfold asciiSpace, in_range in Hc.
    apply orb_true_iff in Hc as [Hc|Hc].
    - apply andb_true_iff in Hc as [_ Hc]. lia.
    - apply Ascii.eqb_eq in Hc. by subst c. }
  destruct (128 <=? code c) eqn:E; [lia|]. by apply IH.
Qed.

(** Past the checks on the fields the outcome of [HashIntent] is that of the
    canonicalization of the metadata. *)
Lemma HashIntent_fields_pass ord r :
  fields_pass r →
  match CanonicalizeMeta ord (Meta r) with
  | Ok _ => is_ok (HashIntent ord r) = true
  | Err e => HashIntent ord r = Err e
  end.
Proof.
  intros (Hid & Ht & Ha & Hs & Hp & Hr).
  destruct (time_Parse (CreatedAt r)) as [t|] eqn:Hparse; [|done].
  assert (Hc : CreatedAt r ≠ "") by (intros Hc; by rewrite Hc in Hparse).
  unfold HashIntent. unfold_HashIntent. rewrite Hparse. cbn [mbind result_bind].
  field_present (ID r). field_present (CreatedAt r).
  field_present (normalizeNewlines (Author r)).
  field_present (normalizeNewlines (SourceType r)).
  field_present (normalizeNewlines (Prompt r)).
  field_present (normalizeNewlines (Response r)).
  rewrite meta_guard.
  by destruct (CanonicalizeMeta ord (Meta r)).
Qed.

Lemma HashIntent_fields_fail ord r :
  ¬ fields_pass r → ∃ e, HashIntent ord r = Err e ∧ e ∈ validation_errors.
Proof.
  intros Hfail. rewrite (HashIntent_checks ord r). unfold validation_errors.
  destruct (time_Parse (CreatedAt r)) as [t|] eqn:Hparse;
    repeat case_decide;
    try (eexists; split; [reflexivity|]; cbn; set_solver).
  exfalso. apply Hfail. unfold fields_pass. by rewrite Hparse.
Qed.

(** X1: [Normalize] is idempotent, and the records it leaves as they are
    are those with no CR in any of the six fields it assigns. *)
Theorem Normalize_fixed_points (r : IntentRecord) :
  Normalize (Normalize r) = Normalize r
  ∧ (Normalize r = r ↔ Forall (fun s => ¬ has_CR s) (free_text r)).
Proof.
  split; [apply Normalize_idemp|]. rewrite Normalize_lf_record. split.
  - intros Heq. unfold free_text. rewrite <- Heq. cbn [lf_record Author SourceType
      Title Prompt Response PrevHash].
    repeat (apply Forall_cons; split; [apply lf_endings_no_CR|]). apply Forall_nil_2.
  - unfold free_text. intros H.
    repeat (apply Forall_cons in H as [? H]).
    apply record_eq; cbn [lf_record ID CreatedAt Author SourceType Title Prompt
      Response Meta PrevHash Hash]; try done; by apply lf_endings_without_CR.
Qed.

(** X2: [HashIntent] gives a record that was normalized before the call the
    digest of the record itself, for every outcome. *)
Theorem HashIntent_of_normalized (range_order : list string → list string)
    (r : IntentRecord) :
  HashIntent range_order (Normalize r) = HashIntent range_order r.
Proof. unfold HashIntent. by rewrite Normalize_idemp. Qed.

(** X3: the outcomes of [HashIntent].  It returns a digest exactly when the
    six required fields pass their checks and the metadata is canonicalized;
    when a field fails, the error is one of the seven of the field checks;
    when the metadata fails, the error is that of [CanonicalizeMeta], as it
    is. *)
Theorem HashIntent_outcome (range_order : list string → list string)
    (r : IntentRecord) :
  match HashIntent range_order r with
  | Ok _ => fields_pass r ∧ is_ok (CanonicalizeMeta range_order (Meta r)) = true
  | Err e =>
      (¬ fields_pass r ∧ e ∈ validation_errors)
      ∨ (fields_pass r ∧ Meta r ≠ ""
         ∧ CanonicalizeMeta range_order (Meta r) = Err e)
  end.
Proof.
  destruct (decide (ID r = "")) as [Hid|Hid];
    [|destruct (is_ok (time_Parse (CreatedAt r))) eqn:Ht;
      [destruct (decide (Author r = "")) as [Ha|Ha];
       [|destruct (decide (SourceType r = "")) as [Hs|Hs];
         [|destruct (decide (Prompt r = "")) as [Hp|Hp];
           [|destruct (decide (Response r = "")) as [Hr|Hr]]]]|]].
  6: { assert (Hpass : fields_pass r) by done.
       pose proof (HashIntent_fields_pass range_order r Hpass) as H.
       destruct (CanonicalizeMeta range_order (Meta r)) as [m|e] eqn:Hm.
       - destruct (HashIntent range_order r); [done|discriminate H].
       - rewrite H. right. repeat split; try done.
         intros Hempty. rewrite Hempty in Hm. discriminate Hm. }
  all: assert (Hfail : ¬ fields_pass r)
    by (unfold fields_pass; intros (? & ? & ? & ? & ? & ?); congruence).
  all: destruct (HashIntent_fields_fail range_order r Hfail) as (e & -> & He).
  all: by left.
Qed.

Lemma Validate_checks r :
  Validate r = Ok () ↔ TrimSpace (ID r) ≠ "" ∧ fields_pass r ∧ Hash r ≠ "".
Proof.
  unfold Validate, fields_pass.
  destruct (decide (TrimSpace (ID r) = "")) as [Hid|Hid]; [intuition congruence|].
  assert (ID r ≠ "") by (intros E; apply Hid; by rewrite E).
  destruct (decide (String.length (CreatedAt r) = 0)%nat) as [Hc|Hc].
  { apply length_zero in Hc. rewrite Hc. cbn. intuition congruence. }
  destruct (time_Parse (CreatedAt r)); cbn [is_ok]; [|intuition congruence].
  repeat case_decide;
    repeat match goal with
      | H : String.length _ = 0%nat |- _ => apply length_zero in H
      | H : String.length _ ≠ 0%nat |- _ => rewrite length_zero in H
      end; intuition congruence.
Qed.

(** X4: a record that [Validate] accepts passes every field check of
    [HashIntent]: hashing it fails only when its metadata is not
    canonicalized, with the error of [CanonicalizeMeta].  [Validate] checks
    the same six fields, the id for more than white space, and the hash. *)
Theorem validated_record_hashes (range_order : list string → list string)
    (r : IntentRecord) :
  Validate r = Ok () →
  fields_pass r ∧ TrimSpace (ID r) ≠ "" ∧ Hash r ≠ ""
  ∧ match CanonicalizeMeta range_order (Meta r) with
    | Ok _ => is_ok (HashIntent range_order r) = true
    | Err e => HashIntent range_order r = Err e
    end.
Proof.
  intros (Hid & Hpass & Hh)%Validate_checks.
  split; [exact Hpass|split; [exact Hid|split; [exact Hh|]]].
  by apply HashIntent_fields_pass.
Qed.

Lemma validated_record_hashes_witness :
  fields_pass valid_record ∧ TrimSpace (ID valid_record) ≠ ""
  ∧ Hash valid_record ≠ ""
  ∧ is_ok (HashIntent id valid_record) = true.
Proof.
  destruct (validated_record_hashes id valid_record) as (H1 & H2 & H3 & H4).
  - vm_compute. reflexivity.
  - exact (conj H1 (conj H2 (conj H3 H4))).
Defined.

(** X5: [Validate] gives a record and its normalized copy the same
    verdict. *)
Theorem Validate_Normalize (r : IntentRecord) :
  Validate (Normalize r) = Validate r.
Proof.
  unfold Validate.
  cbn [Normalize ID CreatedAt Author SourceType Prompt Response Hash].
  destruct (time_Parse (CreatedAt r)); [|done].
  repeat case_decide; try done;
    repeat match goal with
      | H : String.length (normalizeNewlines _) = 0%nat |- _ =>
          apply normalized_length_zero in H
      | H : String.length (normalizeNewlines _) ≠ 0%nat |- _ =>
          rewrite normalized_length_zero in H
      | H : String.length _ = 0%nat |- _ => apply length_zero in H
      | H : String.length _ ≠ 0%nat |- _ => rewrite length_zero in H
      end; congruence.
Qed.

(** X6: an id of ASCII white space only is no id for [Validate], whatever
    the other fields hold; it is one for [HashIntent] unless it is empty, and
    the record has a digest when its other fields pass the checks and its
    metadata is canonicalized. *)
Theorem blank_id_checks (range_order : list string → list string)
    (r : IntentRecord) :
  Forall (fun c => asciiSpace c = true) (list_ascii_of_string (ID r)) →
  Validate r = Err (ErrNew "id is required")
  ∧ (fields_pass r →
     is_ok (HashIntent range_order r)
     = is_ok (CanonicalizeMeta range_order (Meta r))).
Proof.
  intros Hblank. split.
  - unfold Validate. by rewrite decide_True by by apply TrimSpace_ascii_spaces.
  - intros Hpass. pose proof (HashIntent_fields_pass range_order r Hpass) as H.
    destruct (CanonicalizeMeta range_order (Meta r)); [done|by rewrite H].
Qed.

Lemma blank_id_checks_witness :
  let r := with_ID valid_record "  " in
  Validate r = Err (ErrNew "id is required")
  ∧ is_ok (HashIntent id r) = true.
Proof.
  intros r. destruct (blank_id_checks id r) as [H1 H2].
  - repeat constructor.
  - split; [exact H1|]. rewrite H2; [reflexivity|].
    unfold fields_pass. repeat split; discriminate.
Defined.
(** * Decoding the metadata *)

Lemma expect_failure lit s e : expect lit s = Err e → scan_failure e.
Proof.
  revert s. induction lit as [|a lit IH]; intros s; cbn [expect]; [done|].
  destruct s as [|b s]; [intros [= <-]; by right|].
  destruct (a =? b)%char; [apply IH|intros [= <-]; by left].
Qed.

Lemma digits1_failure s e : digits1 s = Err e → scan_failure e.
Proof.
  destruct s as [|c s]; cbn [digits1]; [intros [= <-]; by right|].
  destruct (isDigit c); [done|intros [= <-]; by left].
Qed.

Lemma short_hex_failure s e : short_hex s = Err e → scan_failure e.
Proof.
  induction s as [|c s IH]; cbn [short_hex]; [intros [= <-]; by right|].
  destruct (hexval c); [done|intros [= <-]; by left].
Qed.

Ltac failure_step IH :=
  match goal with
  | H : Ok _ = Err _ |- _ => discriminate H
  | H : syntax_error = Err _ |- _ => injection H as <-; by left
  | H : unexpected_eof = Err _ |- _ => injection H as <-; by right
  | H : Err _ = Err _ |- _ => injection H as ->
  | H : expect _ _ = Err _ |- _ => by apply expect_failure in H
  | H : digits1 _ = Err _ |- _ => by apply digits1_failure in H
  | H : short_hex _ = Err _ |- _ => by apply short_hex_failure in H
  | H : (?x ≫= _) = Err _ |- _ =>
      let E := fresh "E" in
      first [ destruct x as [[? ?]|] eqn:E | destruct x eqn:E ];
      cbn [mbind result_bind] in H
  | H : match ?e with _ => _ end = Err _ |- _ => destruct e eqn:?
  | H : (let '(_, _) := ?e in _) = Err _ |- _ => destruct e eqn:?
  | H : _ = Err _ |- _ => by (eapply IH; [|exact H]; cbn [String.length] in *; lia)
  | H : _ = Err _ |- _ => by (eapply IH; exact H)
  end.

Lemma scan_number_failure s e : scan_number s = Err e → scan_failure e.
Proof.
  unfold scan_number. intros H.
  repeat failure_step (fun (x : True) => x).
Qed.

Lemma scan_chars_failure_aux n cont s e :
  (String.length s ≤ n)%nat → scan_chars cont s = Err e → scan_failure e.
Proof.
  revert cont s. induction n as [|n IH]; intros cont s Hn H.
  - destruct s; [injection H as <-; by right|cbn in Hn; lia].
  - destruct s as [|c r]; [injection H as <-; by right|]. cbn [scan_chars] in H.
    repeat failure_step IH.
Qed.

Lemma scan_chars_failure cont s e : scan_chars cont s = Err e → scan_failure e.
Proof. by apply scan_chars_failure_aux with (n := String.length s). Qed.

Ltac value_failure_step IHv IHe IHm :=
  match goal with
  | H : scan_chars _ _ = Err _ |- _ => by apply scan_chars_failure in H
  | H : scan_number _ = Err _ |- _ => by apply scan_number_failure in H
  | H : scan_value _ _ _ = Err _ |- _ => by apply IHv in H
  | H : scan_elems _ _ _ = Err _ |- _ => by apply IHe in H
  | H : scan_members _ _ _ = Err _ |- _ => by apply IHm in H
  | _ => failure_step (fun (x : True) => x)
  end.

(** The scanner fails with a syntax error or at the end of the text, and
    with nothing else. *)
Lemma scan_failures fuel :
  (∀ d s e, scan_value fuel d s = Err e → scan_failure e)
  ∧ (∀ d s e, scan_elems fuel d s = Err e → scan_failure e)
  ∧ (∀ d s e, scan_members fuel d s = Err e → scan_failure e).
Proof.
  induction fuel as [|fuel (IHv & IHe & IHm)].
  { repeat split; intros d s e [= <-]; by left. }
  split; [|split]; intros d s e H.
  - cbn [scan_value] in H. repeat value_failure_step IHv IHe IHm.
  - cbn [scan_elems] in H. repeat value_failure_step IHv IHe IHm.
  - cbn [scan_members] in H. repeat value_failure_step IHv IHe IHm.
Qed.

Lemma scan_value_failure fuel d s e :
  scan_value fuel d s = Err e → scan_failure e.
Proof. apply scan_failures. Qed.

(** [Decode] returns [io.EOF] for white space only, and for nothing else. *)
Lemma Decode_EOF raw : Decode raw = Err (ErrJSON EOF) ↔ skip_space raw = "".
Proof.
  unfold Decode. destruct (skip_space raw) eqn:Hs; [done|]. split; [|done].
  intros [H|H]%scan_value_failure; discriminate H.
Qed.

Lemma ensureEOF_blank rest :
  ensureEOF rest = if decide (skip_space rest = "") then Ok () else Err trailing_data.
Proof.
  unfold ensureEOF. case_decide as Hs.
  - apply Decode_EOF in Hs. by rewrite Hs.
  - destruct (Decode rest) as [x|e] eqn:Hd; [done|].
    destruct e as [| [] | |]; try done. by apply Decode_EOF in Hd.
Qed.

(** X7: [decodeJSON] returns the value of a text that holds one value and
    white space around it.  White space only fails with [io.EOF], a text
    whose first value is malformed with a syntax error or the unexpected
    end of the text, and anything but white space after the first value,
    well formed or not, with the error of trailing data. *)
Theorem decodeJSON_outcome (raw : string) :
  decodeJSON raw
  = match Decode raw with
    | Ok (t, rest) =>
        if decide (skip_space rest = "") then Ok (interface_of t)
        else Err trailing_data
    | Err e => Err e
    end
  ∧ (skip_space raw = "" → decodeJSON raw = Err (ErrJSON EOF))
  ∧ (skip_space raw ≠ "" →
     ∀ e, Decode raw = Err e → scan_failure e).
Proof.
  split; [|split].
  - unfold decodeJSON, decode_tree.
    destruct (Decode raw) as [[t rest]|e]; [|done]. cbn [mbind result_bind].
    rewrite ensureEOF_blank. by case_decide.
  - intros Hs. unfold decodeJSON, decode_tree.
    by rewrite (proj2 (Decode_EOF raw) Hs).
  - intros Hs e. unfold Decode. destruct (skip_space raw); [done|].
    apply scan_value_failure.
Qed.

Lemma decode_tree_scan raw :
  decode_tree raw
  = match scan_value (scan_fuel raw) 0 raw with
    | Ok (t, rest) =>
        if decide (skip_space rest = "") then Ok t else Err trailing_data
    | Err e => if decide (skip_space raw = "") then Err (ErrJSON EOF) else Err e
    end.
Proof.
  unfold decode_tree, Decode. destruct (skip_space raw) eqn:Hs.
  - unfold scan_fuel. cbn [scan_value]. by rewrite Hs.
  - destruct (scan_value (scan_fuel raw) 0 raw) as [[t rest]|e];
      cbn [mbind result_bind]; [|done].
    rewrite ensureEOF_blank. by case_decide.
Qed.

(** X8: hashing and filtering decode one tree from metadata that is not
    empty.  An object is canonicalized, and is the payload of the filter
    unless one of its numbers is out of the range of float64, which fails the
    filter only; the literal [null] is an empty payload for the filter and
    no object for the digest; another value fails both, and so does a text
    that is not one JSON value. *)
Theorem meta_in_hash_and_filter (range_order : list string → list string)
    (raw : string) :
  raw ≠ "" →
  match decode_tree raw with
  | Ok (TObject members) =>
      let payload :=
        store_members ((fun kv => (kv.1, interface_of kv.2)) <$> members) in
      CanonicalizeMeta range_order raw = Ok (writeJSONObject range_order payload)
      ∧ Unmarshal raw
        = if floats_ok (TObject members) then Ok payload
          else Err (ErrJSON UnmarshalTypeError)
  | Ok TNull =>
      CanonicalizeMeta range_order raw = Err (ErrNew "meta must be a JSON object")
      ∧ Unmarshal raw = Ok ∅
  | Ok _ =>
      CanonicalizeMeta range_order raw = Err (ErrNew "meta must be a JSON object")
      ∧ Unmarshal raw = Err (ErrJSON UnmarshalTypeError)
  | Err e =>
      CanonicalizeMeta range_order raw = Err e
      ∧ Unmarshal raw = Err (ErrJSON SyntaxError)
  end.
Proof.
  intros Hraw.
  assert (Hc : CanonicalizeMeta range_order raw
               = value ← decodeJSON raw;
                 match value with
                 | JObject obj => Ok (writeJSONObject range_order obj)
                 | _ => Err (ErrNew "meta must be a JSON object")
                 end).
  { unfold CanonicalizeMeta. rewrite decide_False; [done|]. by rewrite length_zero. }
  rewrite Hc. unfold decodeJSON, Unmarshal. rewrite decode_tree_scan.
  destruct (scan_value (scan_fuel raw) 0 raw) as [[t rest]|e] eqn:Hscan.
  - destruct (decide (skip_space rest = "")) as [Hs|Hs].
    + rewrite Hs. by destruct t.
    + destruct (skip_space rest); [done|]. done.
  - by case_decide.
Qed.

Lemma meta_in_hash_and_filter_witness :
  let raw := quoted "{'n':1e999}" in
  CanonicalizeMeta id raw = Ok raw
  ∧ Unmarshal raw = Err (ErrJSON UnmarshalTypeError).
Proof.
  intros raw.
  assert (Hraw : raw ≠ "") by discriminate.
  pose proof (meta_in_hash_and_filter id raw Hraw) as H.
  assert (Hd : decode_tree raw = Ok (TObject [("n", TNumber "1e999")]))
    by (vm_compute; reflexivity).
  rewrite Hd in H. destruct H as [H1 H2]. split; [|exact H2].
  rewrite H1. vm_compute. reflexivity.
Defined.
(** * The metadata filter, record by record *)

Lemma string_members_lookup (payload : gmap string any) key want :
  omap (fun value => match value with JString s => Some s | _ => None end) payload
    !! key = Some want
  ↔ payload !! key = Some (JString want).
Proof.
  rewrite lookup_omap.
  destruct (payload !! key) as [[]|]; cbn; split; intros; simplify_eq; done.
Qed.

(** [matchesMetaFilters] with filters, on the three kinds of metadata:
    unset, not decoded, decoded. *)
Lemma matchesMetaFilters_cases raw filters :
  size filters ≠ 0%nat →
  match matchesMetaFilters raw filters with
  | Ok b =>
      (raw = "" ∧ b = false)
      ∨ (raw ≠ ""
         ∧ ∃ payload, Unmarshal raw = Ok payload
             ∧ (b = true
                ↔ map_Forall (fun key want => payload !! key = Some (JString want))
                    filters))
  | Err e => raw ≠ "" ∧ ∃ err, Unmarshal raw = Err err ∧ e = ErrWrap "decode meta" err
  end.
Proof.
  intros Hf. unfold matchesMetaFilters. rewrite decide_False by done.
  destruct (decide (raw = "")) as [->|Hraw]; [by left|].
  rewrite decide_False by by rewrite length_zero.
  destruct (Unmarshal raw) as [payload|e]; [|by eauto].
  right. split; [done|]. exists payload. split; [done|].
  rewrite bool_decide_eq_true. unfold map_Forall.
  by setoid_rewrite string_members_lookup.
Qed.

(** X9: [matchesMetaFilters] answers true exactly when there is no filter,
    or the metadata is set, decodes into a map, and holds every filter key
    with a string value equal to the filter value.  A member that is no
    string meets no filter. *)
Theorem matchesMetaFilters_string_members (raw : string)
    (filters : gmap string string) :
  matchesMetaFilters raw filters = Ok true
  ↔ size filters = 0%nat
    ∨ (raw ≠ ""
       ∧ ∃ payload, Unmarshal raw = Ok payload
           ∧ map_Forall (fun key want => payload !! key = Some (JString want))
               filters).
Proof.
  destruct (decide (size filters = 0%nat)) as [Hf|Hf].
  { unfold matchesMetaFilters. rewrite decide_True by done. split; [by left|done]. }
  pose proof (matchesMetaFilters_cases raw filters Hf) as H.
  destruct (matchesMetaFilters raw filters) as [b|e].
  - destruct H as [[-> ->]|(Hraw & payload & Hu & Hb)].
    + split; [done|]. intros [?|[? _]]; done.
    + split.
      * intros [= ->]. right. split; [done|]. exists payload. split; [done|].
        by apply Hb.
      * intros [?|(_ & payload' & Hu' & Hall)]; [done|].
        rewrite Hu in Hu'. injection Hu' as <-. f_equal. by apply Hb.
  - destruct H as (Hraw & err & Hu & _). split; [done|].
    intros [?|(_ & payload & Hu' & _)]; [done|]. by rewrite Hu in Hu'.
Qed.

Lemma filter_loop_acc filters intents filtered :
  filter_loop filters intents filtered
  = out ← filter_loop filters intents []; Ok (filtered ++ out)%list.
Proof.
  revert filtered. induction intents as [|r l IH]; intros filtered.
  - cbn. by rewrite app_nil_r.
  - cbn [filter_loop].
    destruct (matchesMetaFilters (Meta r) filters) as [b|e]; [|done].
    cbn [mbind result_bind]. rewrite (IH (if b then _ else _)).
    rewrite (IH (if b then [] ++ [r] else [])%list).
    destruct (filter_loop filters l []) as [out|e]; [|done].
    cbn [mbind result_bind]. destruct b; by rewrite <- ?app_assoc.
Qed.

Lemma filter_loop_cons filters r l :
  filter_loop filters (r :: l) []
  = b ← matchesMetaFilters (Meta r) filters;
    out ← filter_loop filters l [];
    Ok (if b : bool then r :: out else out).
Proof.
  cbn [filter_loop].
  destruct (matchesMetaFilters (Meta r) filters) as [b|e]; [|done].
  cbn [mbind result_bind]. rewrite filter_loop_acc.
  destruct (filter_loop filters l []) as [out|e]; [|done]. by destruct b.
Qed.

Lemma filter_loop_matches filters intents out :
  filter_loop filters intents [] = Ok out →
  out = base.filter (fun r => matches filters r) intents.
Proof.
  revert out. induction intents as [|r l IH]; intros out; [by intros [= <-]|].
  rewrite filter_loop_cons. unfold matches at 1.
  destruct (matchesMetaFilters (Meta r) filters) as [b|e] eqn:Hm; [|done].
  cbn [mbind result_bind].
  destruct (filter_loop filters l []) as [out'|e]; [|done].
  cbn [mbind result_bind]. intros [= <-]. rewrite (IH out' eq_refl).
  destruct b.
  - rewrite filter_cons_True; [done|]. unfold matches. by rewrite Hm.
  - rewrite filter_cons_False; [done|]. unfold matches. rewrite Hm. exact id.
Qed.

Lemma filter_all {A} (P : A → Prop) `{∀ x, Decision (P x)} (l : list A) :
  Forall P l → base.filter P l = l.
Proof.
  induction 1 as [|x l Hx Hl IH]; [done|]. rewrite filter_cons_True by done.
  by rewrite IH.
Qed.

(** X10: when [FilterIntentsByMeta] returns a list, it is the list of the
    records that [matchesMetaFilters] answers true for, each as often and
    in the order of the input. *)
Theorem FilterIntentsByMeta_keeps_matches (intents out : list IntentRecord)
    (filters : gmap string string) :
  FilterIntentsByMeta intents filters = Ok out →
  out = base.filter (fun r => matches filters r) intents
  ∧ sublist out intents
  ∧ ∀ r, r ∈ out ↔ r ∈ intents ∧ matchesMetaFilters (Meta r) filters = Ok true.
Proof.
  intros H.
  assert (Hout : out = base.filter (fun r => matches filters r) intents).
  { revert H. unfold FilterIntentsByMeta. case_decide as Hf.
    - intros [= <-]. symmetry. apply filter_all.
      apply Forall_forall. intros r _. unfold matches, matchesMetaFilters.
      by rewrite decide_True.
    - apply filter_loop_matches. }
  split; [exact Hout|]. split.
  - rewrite Hout. apply sublist_filter.
  - intros r. rewrite Hout, list_elem_of_filter. unfold matches.
    destruct (matchesMetaFilters (Meta r) filters) as [[]|]; cbn; intuition congruence.
Qed.

Lemma FilterIntentsByMeta_keeps_matches_witness :
  let filters : gmap string string := {["env" := "prod"]} in
  let out := [intent_with_meta "a" (quoted "{'env':'prod'}");
              intent_with_meta "c" (quoted "{'env':'prod','count':2}")] in
  out = base.filter (fun r => matches filters r) filter_test_intents
  ∧ sublist out filter_test_intents
  ∧ ∀ r, r ∈ out
         ↔ r ∈ filter_test_intents ∧ matchesMetaFilters (Meta r) filters = Ok true.
Proof.
  intros filters out.
  apply (FilterIntentsByMeta_keeps_matches filter_test_intents out filters).
  vm_compute. reflexivity.
Defined.

Lemma matchesMetaFilters_decoded raw filters :
  size filters ≠ 0%nat →
  matchesMetaFilters raw filters
  = if decide (raw = "") then Ok false
    else match Unmarshal raw with
         | Err err => Err (ErrWrap "decode meta" err)
         | Ok payload =>
             Ok (bool_decide
                   (map_Forall (fun key want => string_members payload !! key = Some want)
                      filters))
         end.
Proof.
  intros Hf. unfold matchesMetaFilters. rewrite decide_False by done.
  destruct (decide (raw = "")) as [->|Hraw]; [done|].
  by rewrite decide_False by by rewrite length_zero.
Qed.

Lemma filter_loop_fails filters intents :
  size filters ≠ 0%nat →
  match filter_loop filters intents [] with
  | Ok _ => Forall meta_decodes intents
  | Err e =>
      ∃ pre r post err,
        intents = (pre ++ r :: post)%list ∧ Forall meta_decodes pre
        ∧ Meta r ≠ "" ∧ Unmarshal (Meta r) = Err err
        ∧ e = ErrWrap "decode meta" err
  end.
Proof.
  intros Hf. induction intents as [|r l IH]; [by cbn|].
  rewrite filter_loop_cons, matchesMetaFilters_decoded by done.
  destruct (decide (Meta r = "")) as [Hm|Hm];
    [|destruct (Unmarshal (Meta r)) as [payload|err] eqn:Hu];
    cbn [mbind result_bind].
  3: { exists [], r, l, err. by repeat split. }
  all: assert (Hr : meta_decodes r)
    by (unfold meta_decodes; first [by left | right; by rewrite Hu]).
  all: destruct (filter_loop filters l []) as [out|e]; cbn [mbind result_bind];
    [by apply Forall_cons|].
  all: destruct IH as (pre & r' & post & err' & -> & Hpre & ? & ? & ->).
  all: exists (r :: pre), r', post, err'; repeat split; try done.
  all: by apply Forall_cons.
Qed.

(** X11: with filters, [FilterIntentsByMeta] returns a list exactly when the
    metadata of every record is unset or decodes; when it fails, the error
    is the decoding error of the first record, in the order of the list,
    whose metadata does not decode, wrapped as [decode meta]. *)
Theorem FilterIntentsByMeta_outcome (intents : list IntentRecord)
    (filters : gmap string string) :
  size filters ≠ 0%nat →
  match FilterIntentsByMeta intents filters with
  | Ok _ => Forall meta_decodes intents
  | Err e =>
      ∃ pre r post err,
        intents = (pre ++ r :: post)%list ∧ Forall meta_decodes pre
        ∧ Meta r ≠ "" ∧ Unmarshal (Meta r) = Err err
        ∧ e = ErrWrap "decode meta" err
  end.
Proof.
  intros Hf. unfold FilterIntentsByMeta. rewrite decide_False by done.
  by apply filter_loop_fails.
Qed.

Lemma FilterIntentsByMeta_outcome_witness :
  let bad := intent_with_meta "d" "[1]" in
  ∃ pre r post err,
    (filter_test_intents ++ [bad; intent_with_meta "e" "{"])%list
    = (pre ++ r :: post)%list
    ∧ Forall meta_decodes pre ∧ Meta r ≠ "" ∧ Unmarshal (Meta r) = Err err
    ∧ ErrWrap "decode meta" (ErrJSON UnmarshalTypeError)
      = ErrWrap "decode meta" err.
Proof.
  intros bad.
  assert (Hf : size ({["env" := "prod"]} : gmap string string) ≠ 0%nat)
    by (vm_compute; discriminate).
  pose proof (FilterIntentsByMeta_outcome
                (filter_test_intents ++ [bad; intent_with_meta "e" "{"])
                {["env" := "prod"]} Hf) as H.
  assert (He : FilterIntentsByMeta
                 (filter_test_intents ++ [bad; intent_with_meta "e" "{"])
                 {["env" := "prod"]}
               = Err (ErrWrap "decode meta" (ErrJSON UnmarshalTypeError)))
    by (vm_compute; reflexivity).
  rewrite He in H. exact H.
Defined.

Lemma holds_union (meta f1 f2 : gmap string string) :
  agree f1 f2 →
  bool_decide (map_Forall (fun key want => meta !! key = Some want) (f1 ∪ f2))
  = bool_decide (map_Forall (fun key want => meta !! key = Some want) f1)
    && bool_decide (map_Forall (fun key want => meta !! key = Some want) f2).
Proof.
  intros Hagree. apply eq_bool_prop_intro.
  rewrite andb_True, !bool_decide_spec. unfold map_Forall. split.
  - intros H. split; intros k w Hk.
    + apply H. apply lookup_union_Some_raw. by left.
    + apply H. apply lookup_union_Some_raw.
      destruct (f1 !! k) as [w1|] eqn:H1; [left|by right].
      by rewrite (Hagree k w1 w H1 Hk).
  - intros [H1 H2] k w [?|[_ ?]]%lookup_union_Some_raw; auto.
Qed.

Lemma bind_ret {A} (x : result A) : (a ← x; Ok a) = x.
Proof. by destruct x. Qed.

Lemma filter_loop_union intents f1 f2 :
  agree f1 f2 → size f1 ≠ 0%nat → size f2 ≠ 0%nat → size (f1 ∪ f2) ≠ 0%nat →
  filter_loop (f1 ∪ f2) intents []
  = out ← filter_loop f1 intents []; filter_loop f2 out [].
Proof.
  intros Hagree H1 H2 H12. induction intents as [|r l IH]; [done|].
  rewrite !filter_loop_cons, !matchesMetaFilters_decoded, IH by done.
  destruct (decide (Meta r = "")) as [Hm|Hm]; cbn [mbind result_bind].
  { rewrite bind_ret. destruct (filter_loop f1 l []); [|done].
    by cbn [mbind result_bind]. }
  destruct (Unmarshal (Meta r)) as [payload|err] eqn:Hu; [|done].
  cbn [mbind result_bind]. rewrite holds_union by done.
  destruct (filter_loop f1 l []) as [out1|e]; [|done]. cbn [mbind result_bind].
  destruct (bool_decide (map_Forall _ f1)); cbn [andb].
  - rewrite filter_loop_cons, matchesMetaFilters_decoded by done.
    rewrite decide_False by done. by rewrite Hu.
  - by rewrite bind_ret.
Qed.

Lemma FilterIntentsByMeta_no_filter intents :
  FilterIntentsByMeta intents ∅ = Ok intents.
Proof. unfold FilterIntentsByMeta. by rewrite decide_True by apply map_size_empty. Qed.

Lemma FilterIntentsByMeta_filters intents filters :
  size filters ≠ 0%nat →
  FilterIntentsByMeta intents filters = filter_loop filters intents [].
Proof. intros Hf. unfold FilterIntentsByMeta. by rewrite decide_False. Qed.

(** X12: filters compose.  For two filter sets that give a common key one
    value, filtering by their union is filtering by the first and then by
    the second: the same list, or the same error. *)
Theorem FilterIntentsByMeta_union (intents : list IntentRecord)
    (f1 f2 : gmap string string) :
  agree f1 f2 →
  FilterIntentsByMeta intents (f1 ∪ f2)
  = out ← FilterIntentsByMeta intents f1; FilterIntentsByMeta out f2.
Proof.
  intros Hagree.
  destruct (decide (size f1 = 0%nat)) as [H1|H1].
  { apply map_size_empty_iff in H1 as ->. rewrite (left_id_L ∅ (∪)).
    by rewrite FilterIntentsByMeta_no_filter. }
  destruct (decide (size f2 = 0%nat)) as [H2|H2].
  { apply map_size_empty_iff in H2 as ->. rewrite (right_id_L ∅ (∪)).
    destruct (FilterIntentsByMeta intents f1) as [out|e]; [|done].
    cbn [mbind result_bind]. by rewrite FilterIntentsByMeta_no_filter. }
  assert (H12 : size (f1 ∪ f2) ≠ 0%nat).
  { apply map_size_ne_0_lookup. apply map_size_ne_0_lookup in H1 as [k [w Hk]].
    exists k, w. apply lookup_union_Some_raw. by left. }
  rewrite (FilterIntentsByMeta_filters intents (f1 ∪ f2)) by done.
  rewrite (FilterIntentsByMeta_filters intents f1) by done.
  rewrite filter_loop_union by done.
  destruct (filter_loop f1 intents []) as [out|e]; cbn [mbind result_bind]; [|done].
  by rewrite FilterIntentsByMeta_filters.
Qed.

Lemma FilterIntentsByMeta_union_witness :
  let c := intent_with_meta "c" (quoted "{'env':'prod','count':2}") in
  let d := intent_with_meta "d" (quoted "{'env':'prod','team':'core'}") in
  FilterIntentsByMeta (filter_test_intents ++ [d])
    ({["env" := "prod"]} ∪ {["team" := "core"]})
  = Ok [d]
  ∧ FilterIntentsByMeta (filter_test_intents ++ [d]) {["env" := "prod"]}
    = Ok [intent_with_meta "a" (quoted "{'env':'prod'}"); c; d].
Proof.
  intros c d. split; [|vm_compute; reflexivity].
  rewrite FilterIntentsByMeta_union.
  - vm_compute. reflexivity.
  - intros k v1 v2 [<- <-]%lookup_singleton_Some [? _]%lookup_singleton_Some.
    discriminate.
Defined.
(** * The store, record by record *)

(** X13: a record read back from the row that [CreateIntent] writes for it
    is the record, in all its ten fields: an empty title, metadata or
    previous hash is stored as NULL and read back empty. *)
Theorem stored_record_round_trip (record : IntentRecord) :
  scan_row (insert_values record) = record.
Proof. apply scan_insert_values. Qed.

Lemma query_row_outcome visit where_ table :
  visits visit →
  match query_row visit where_ table with
  | Ok r => r ∈ table ∧ where_ r = true
  | Err e => e = ErrNoRows ∧ ∀ r, r ∈ table → where_ r ≠ true
  end.
Proof.
  intros Hvisit. unfold query_row.
  destruct (base.filter _ (visit table)) as [|r l] eqn:Hf.
  - split; [done|]. intros r Hr Hw.
    assert (r ∈ base.filter (fun r => where_ r = true) (visit table)) as Hin.
    { apply list_elem_of_filter. split; [done|]. by rewrite (Hvisit table). }
    rewrite Hf in Hin. by apply elem_of_nil in Hin.
  - assert (r ∈ base.filter (fun r => where_ r = true) (visit table)) as Hin
      by (rewrite Hf; apply elem_of_cons; by left).
    apply list_elem_of_filter in Hin as [Hw Hin]. split; [|done].
    by rewrite (Hvisit table) in Hin.
Qed.

(** X14: [GetIntent] and [GetIntentByHash] return a stored record whose id,
    or hash, is the one asked for, and [sql.ErrNoRows] exactly when no row
    has it, in whatever order the engine visits the rows. *)
Theorem lookup_outcome (visit : list row → list row) (table : list row)
    (key : string) :
  visits visit →
  match GetIntent visit table key with
  | Ok record => ID record = key ∧ ∃ r, r ∈ table ∧ record = scan_row r
  | Err e => e = ErrNoRows ∧ key ∉ col_id <$> table
  end
  ∧ match GetIntentByHash visit table key with
    | Ok record => Hash record = key ∧ ∃ r, r ∈ table ∧ record = scan_row r
    | Err e => e = ErrNoRows ∧ key ∉ col_hash <$> table
    end.
Proof.
  intros Hvisit. unfold GetIntent, GetIntentByHash. split.
  - pose proof (query_row_outcome visit
                  (fun r => bool_decide (col_id r = key)) table Hvisit) as H.
    destruct (query_row visit _ table) as [r|e]; cbn [mbind result_bind].
    + destruct H as [Hin Hw%bool_decide_eq_true]. split; [done|]. by exists r.
    + destruct H as [-> H]. split; [done|].
      intros (r & -> & Hin)%list_elem_of_fmap. apply (H r Hin).
      by apply bool_decide_eq_true.
  - pose proof (query_row_outcome visit
                  (fun r => bool_decide (col_hash r = key)) table Hvisit) as H.
    destruct (query_row visit _ table) as [r|e]; cbn [mbind result_bind].
    + destruct H as [Hin Hw%bool_decide_eq_true]. split; [done|]. by exists r.
    + destruct H as [-> H]. split; [done|].
      intros (r & -> & Hin)%list_elem_of_fmap. apply (H r Hin).
      by apply bool_decide_eq_true.
Qed.

Lemma lookup_outcome_witness :
  let table := [insert_values stored_record] in
  (ID stored_record = ID stored_record
   ∧ ∃ r, r ∈ table ∧ stored_record = scan_row r)
  ∧ (ErrNoRows = ErrNoRows ∧ "other" ∉ col_hash <$> table).
Proof.
  intros table.
  assert (Hvisit : visits reverse) by (intros l; apply reverse_Permutation).
  pose proof (proj1 (lookup_outcome reverse table (ID stored_record) Hvisit)) as H1.
  pose proof (proj2 (lookup_outcome reverse table "other" Hvisit)) as H2.
  split; [exact H1|exact H2].
Defined.

Lemma CreateIntent_inserted table record table' :
  CreateIntent table record = Ok table' →
  table' = (table ++ [insert_values record])%list ∧ ID record ∉ col_id <$> table.
Proof. unfold CreateIntent. case_decide; [done|]. by intros [= <-]. Qed.

Lemma created_unique_ids table : created table → NoDup (col_id <$> table).
Proof.
  induction 1 as [|table record table' _ IH Hc]; [apply NoDup_nil_2|].
  apply CreateIntent_inserted in Hc as [-> Hnew].
  rewrite fmap_app. apply NoDup_app. split; [done|]. split.
  - intros x Hx [->|[]%elem_of_nil]%elem_of_cons. done.
  - apply NoDup_singleton.
Qed.

Lemma unique_id_row (table : list row) r1 r2 :
  NoDup (col_id <$> table) → r1 ∈ table → r2 ∈ table →
  col_id r1 = col_id r2 → r1 = r2.
Proof.
  induction table as [|x table IH]; [by intros _ []%elem_of_nil|].
  rewrite fmap_cons. intros [Hx Hnd]%NoDup_cons.
  intros [->|H1]%elem_of_cons [->|H2]%elem_of_cons Heq; try done.
  - exfalso. apply Hx. rewrite Heq. by apply list_elem_of_fmap_2.
  - exfalso. apply Hx. rewrite <- Heq. by apply list_elem_of_fmap_2.
  - by apply IH.
Qed.

Lemma GetIntent_stored visit table r :
  visits visit → NoDup (col_id <$> table) → r ∈ table →
  GetIntent visit table (col_id r) = Ok (scan_row r).
Proof.
  intros Hvisit Hnd Hin. unfold GetIntent.
  pose proof (query_row_outcome visit
                (fun r' => bool_decide (col_id r' = col_id r)) table Hvisit) as H.
  destruct (query_row visit _ table) as [r'|e]; cbn [mbind result_bind].
  - destruct H as [Hin' Hw%bool_decide_eq_true].
    by rewrite (unique_id_row table r' r Hnd Hin' Hin Hw).
  - destruct H as [_ H]. exfalso. apply (H r Hin). by apply bool_decide_eq_true.
Qed.

(** X15: on a table built by [CreateIntent], a record that [CreateIntent]
    has stored is the one [GetIntent] returns for its id, in all its fields;
    the records stored before are returned as before; and another
    [CreateIntent] with the id fails, on the PRIMARY KEY of the table. *)
Theorem CreateIntent_then_GetIntent (visit : list row → list row)
    (table table' : list row) (record : IntentRecord) :
  visits visit → created table → CreateIntent table record = Ok table' →
  GetIntent visit table' (ID record) = Ok record
  ∧ (∀ r, r ∈ table → GetIntent visit table' (col_id r) = Ok (scan_row r))
  ∧ (∀ record', ID record' = ID record →
       CreateIntent table' record' = Err unique_id_failed).
Proof.
  intros Hvisit Hcreated Hc.
  assert (Hnd : NoDup (col_id <$> table'))
    by (apply created_unique_ids; by eapply created_insert).
  apply CreateIntent_inserted in Hc as [-> Hnew]. split; [|split].
  - pose proof (GetIntent_stored visit (table ++ [insert_values record])
                  (insert_values record) Hvisit Hnd) as H.
    rewrite scan_insert_values in H. apply H. apply elem_of_app. right.
    by apply list_elem_of_singleton.
  - intros r Hin. apply GetIntent_stored; try done. apply elem_of_app. by left.
  - intros record' Hid. unfold CreateIntent. rewrite decide_True; [done|].
    cbn [insert_values col_id]. rewrite Hid, fmap_app. apply elem_of_app. right.
    cbn. by apply list_elem_of_singleton.
Qed.

Lemma CreateIntent_then_GetIntent_witness :
  let table' := [insert_values valid_record; insert_values (with_ID stored_record "b")] in
  GetIntent reverse table' "b" = Ok (with_ID stored_record "b")
  ∧ (∀ r, r ∈ [insert_values valid_record] →
          GetIntent reverse table' (col_id r) = Ok (scan_row r))
  ∧ (∀ record', ID record' = "b" →
       CreateIntent table' record' = Err unique_id_failed).
Proof.
  intros table'.
  apply (CreateIntent_then_GetIntent reverse [insert_values valid_record] table'
           (with_ID stored_record "b")).
  - intros l. apply reverse_Permutation.
  - apply (created_insert [] valid_record); [apply created_empty|reflexivity].
  - reflexivity.
Defined.

(** X16: [ListIntents] lists every record of the table when the table has
    no more rows than the bound, in whatever order the engine puts the rows
    of one [created_at]: a record that [CreateIntent] has stored is in the
    list. *)
Theorem ListIntents_lists_created (order_by : list row → list row)
    (table table' : list row) (record : IntentRecord) (limit : Z) :
  orders_recent order_by →
  CreateIntent table record = Ok table' →
  Z.of_nat (length table') ≤ (if limit <=? 0 then 100 else limit) →
  record ∈ ListIntents order_by table' limit
  ∧ ListIntents order_by table' limit ≡ₚ scan_row <$> table'.
Proof.
  intros Hord [-> _]%CreateIntent_inserted Hlen.
  destruct (Hord (table ++ [insert_values record])%list) as [Hp _].
  assert (Hall : ListIntents order_by (table ++ [insert_values record]) limit
                 ≡ₚ scan_row <$> (table ++ [insert_values record])%list).
  { unfold ListIntents, select_recent. rewrite take_ge.
    - by rewrite Hp.
    - rewrite (Permutation_length Hp). lia. }
  split; [|exact Hall]. rewrite Hall, fmap_app. apply elem_of_app. right.
  cbn. rewrite scan_insert_values. by apply list_elem_of_singleton.
Qed.

Lemma ListIntents_lists_created_witness :
  stored_record ∈ ListIntents (merge_sort created_desc) [insert_values stored_record] 10
  ∧ ListIntents (merge_sort created_desc) [insert_values stored_record] 10
    ≡ₚ scan_row <$> [insert_values stored_record].
Proof.
  apply (ListIntents_lists_created (merge_sort created_desc) []
           [insert_values stored_record] stored_record 10).
  - apply merge_sort_orders_recent.
  - reflexivity.
  - cbn. lia.
Defined.
(** * Strings through [json.Marshal] and the decoder *)

Lemma code_range c : 0 ≤ code c < 256.
Proof.
  unfold code. pose proof (N_ascii_bounded c) as H. lia.
Qed.

Lemma byte_of_code c : byte_of (code c) = c.
Proof.
  unfold byte_of, code. pose proof (N_ascii_bounded c) as H.
  rewrite Z.mod_small by lia. rewrite N2Z.id. apply ascii_N_embedding.
Qed.

Lemma code_byte_of z : 0 ≤ z < 256 → code (byte_of z) = z.
Proof.
  intros Hz. unfold byte_of, code. rewrite Z.mod_small by lia.
  rewrite N_ascii_embedding by lia. lia.
Qed.

Lemma code_inj c1 c2 : code c1 = code c2 → c1 = c2.
Proof. intros H. by rewrite <- (byte_of_code c1), <- (byte_of_code c2), H. Qed.

(** A property of bytes that holds for the 256 of them. *)
Lemma all_bytes (P : ascii → bool) :
  forallb (fun z => P (byte_of z)) (seqZ 0 256) = true → ∀ c, P c = true.
Proof.
  intros H c. rewrite forallb_forall in H.
  rewrite <- (byte_of_code c). apply H. apply list_elem_of_In, elem_of_seqZ.
  pose proof (code_range c). lia.
Qed.

Lemma append_cons c s t : String c s +:+ t = String c (s +:+ t).
Proof. done. Qed.

Lemma append_assoc (s t u : string) : (s +:+ t) +:+ u = s +:+ (t +:+ u).
Proof. induction s as [|c s IH]; [done|]. rewrite !append_cons. by rewrite IH. Qed.

Lemma append_nil_r (s : string) : s +:+ "" = s.
Proof. induction s as [|c s IH]; [done|]. rewrite !append_cons. by rewrite IH. Qed.

Lemma append_length (s t : string) :
  String.length (s +:+ t) = (String.length s + String.length t)%nat.
Proof.
  induction s as [|c s IH]; [done|]. rewrite append_cons. cbn [String.length].
  by rewrite IH.
Qed.

(** A well-formed encoding of [S k] bytes is its first byte and the [k]
    bytes after it, whatever follows. *)
Lemma utf8_size_prefix c r k :
  utf8_size c r = S k →
  128 ≤ code c
  ∧ ∃ p r0, r = p +:+ r0 ∧ String.length p = k
            ∧ ∀ t, utf8_size c (p +:+ t) = S k.
Proof.
  unfold utf8_size. intros H. split.
  { destruct r as [|c1 r1]; [done|].
    destruct ((194 <=? code c) && (code c <=? 223)) eqn:E1; [lia|].
    destruct (negb (in_range _ _ c1)); [done|].
    destruct r1 as [|c2 r2]; [done|]. destruct (negb (is_cont c2)); [done|].
    destruct ((224 <=? code c) && (code c <=? 239)) eqn:E2; [lia|].
    destruct ((240 <=? code c) && (code c <=? 244)) eqn:E3; [lia|done]. }
  destruct r as [|c1 r1]; [done|].
  destruct ((194 <=? code c) && (code c <=? 223)) eqn:E1.
  { destruct (is_cont c1) eqn:Hc1; [|done]. injection H as <-.
    exists (ch c1), r1. repeat split. intros t. unfold ch. rewrite !append_cons. change ("" +:+ t) with t.
    unfold utf8_size. cbv zeta. by rewrite ?E1, ?Hc1, ?Hc2, ?E2, ?E3, ?Hc3. }
  destruct (negb (in_range _ _ c1)) eqn:Hc1; [done|].
  destruct r1 as [|c2 r2]; [done|]. destruct (negb (is_cont c2)) eqn:Hc2; [done|].
  destruct ((224 <=? code c) && (code c <=? 239)) eqn:E2.
  { injection H as <-. exists (String c1 (ch c2)), r2. repeat split.
    intros t. unfold ch. rewrite !append_cons. change ("" +:+ t) with t.
    unfold utf8_size. cbv zeta. by rewrite ?E1, ?Hc1, ?Hc2, ?E2, ?E3, ?Hc3. }
  destruct ((240 <=? code c) && (code c <=? 244)) eqn:E3; [|done].
  destruct r2 as [|c3 r3]; [done|]. destruct (is_cont c3) eqn:Hc3; [|done].
  injection H as <-. exists (String c1 (String c2 (ch c3))), r3. repeat split.
  intros t. unfold ch. rewrite !append_cons. change ("" +:+ t) with t.
    unfold utf8_size. cbv zeta. by rewrite ?E1, ?Hc1, ?Hc2, ?E2, ?E3, ?Hc3.
Qed.

Lemma escape_from_copy p r :
  escape_from (String.length p) (p +:+ r) = p +:+ escape_from 0 r.
Proof.
  induction p as [|c p IH]; [done|].
  rewrite !append_cons. cbn [String.length escape_from]. by rewrite IH.
Qed.

Lemma coerce_from_copy p r :
  coerce_from (String.length p) (p +:+ r) = p +:+ coerce_from 0 r.
Proof.
  induction p as [|c p IH]; [done|].
  rewrite !append_cons. cbn [String.length coerce_from]. by rewrite IH.
Qed.

Lemma scan_chars_copy p r :
  scan_chars (String.length p) (p +:+ r)
  = '(t, rest) ← scan_chars 0 r; Ok (p +:+ t, rest).
Proof.
  induction p as [|c p IH].
  - change (scan_chars 0 r = '(t, rest) ← scan_chars 0 r; Ok (t, rest)).
    by destruct (scan_chars 0 r) as [[t rest]|].
  - rewrite append_cons. cbn [String.length scan_chars]. rewrite IH.
    by destruct (scan_chars 0 r) as [[t rest]|].
Qed.

(** ** Runes as sums *)

Lemma lor_shiftl_add a b n m :
  0 ≤ n → m = 2 ^ n → 0 ≤ b < m → Z.lor (Z.shiftl a n) b = a * m + b.
Proof.
  intros Hn -> [Hb0 Hb]. rewrite Z.shiftl_mul_pow2 by done.
  rewrite <- (Z.add_lor_land (a * 2 ^ n) b).
  assert (Z.land (a * 2 ^ n) b = 0) as ->; [|by rewrite Z.add_0_r].
  apply Z.bits_inj'. intros i Hi. rewrite Z.land_spec, Z.bits_0.
  destruct (decide (i < n)) as [Hlt|Hge].
  - by rewrite Z.mul_pow2_bits_low.
  - assert (Z.testbit b i = false) as ->; [|apply andb_false_r].
    destruct (decide (b = 0)) as [->|Hne]; [apply Z.bits_0|].
    apply Z.bits_above_log2; [done|].
    apply Z.lt_le_trans with n; [|lia]. apply Z.log2_lt_pow2; [lia|done].
Qed.

Lemma low6_mod x : Z.land x 63 = x mod 64.
Proof. change 63 with (Z.ones 6). by apply Z.land_ones. Qed.

Lemma land_mod x m n k : 0 ≤ n → m = Z.ones n → k = 2 ^ n → Z.land x m = x mod k.
Proof. intros Hn -> ->. by apply Z.land_ones. Qed.

Ltac byte_bounds :=
  repeat match goal with
    | |- context [code ?c mod ?m] =>
        lazymatch goal with
        | _ : 0 ≤ code c mod m < m |- _ => fail
        | _ => pose proof (Z.mod_pos_bound (code c) m ltac:(lia))
        end
    end.

Lemma utf8_rune_2 c c1 r :
  utf8_rune 2 c (String c1 r) = (code c mod 32) * 64 + code c1 mod 64.
Proof.
  cbn [utf8_rune]. rewrite low6_mod, (land_mod _ 31 5 32) by done. byte_bounds.
  by rewrite (lor_shiftl_add _ _ 6 64) by (done || lia).
Qed.

Lemma utf8_rune_3 c c1 c2 r :
  utf8_rune 3 c (String c1 (String c2 r))
  = (code c mod 16) * 4096 + (code c1 mod 64) * 64 + code c2 mod 64.
Proof.
  cbn [utf8_rune]. rewrite !low6_mod, (land_mod _ 15 4 16) by done. byte_bounds.
  rewrite (lor_shiftl_add _ _ 6 64) by (done || lia).
  rewrite (lor_shiftl_add _ _ 12 4096) by (done || lia). lia.
Qed.

Lemma utf8_rune_4 c c1 c2 c3 r :
  utf8_rune 4 c (String c1 (String c2 (String c3 r)))
  = (code c mod 8) * 262144 + (code c1 mod 64) * 4096 + (code c2 mod 64) * 64
    + code c3 mod 64.
Proof.
  cbn [utf8_rune]. rewrite !low6_mod, (land_mod _ 7 3 8) by done. byte_bounds.
  rewrite (lor_shiftl_add _ _ 6 64) by (done || lia).
  rewrite (lor_shiftl_add _ _ 12 4096) by (done || lia).
  rewrite (lor_shiftl_add _ _ 18 262144) by (done || lia). lia.
Qed.

(** ** The well-formed encodings, byte by byte *)

Ltac bools :=
  repeat match goal with
    | H : _ && _ = true |- _ => apply andb_true_iff in H as [? ?]
    | H : _ && _ = false |- _ => apply andb_false_iff in H
    | H : _ || _ = true |- _ => apply orb_true_iff in H
    | H : _ || _ = false |- _ => apply orb_false_iff in H as [? ?]
    | H : negb _ = true |- _ => apply negb_true_iff in H
    | H : negb _ = false |- _ => apply negb_false_iff in H
    | H : (_ <=? _) = true |- _ => apply Z.leb_le in H
    | H : (_ <=? _) = false |- _ => apply Z.leb_gt in H
    | H : (_ <? _) = true |- _ => apply Z.ltb_lt in H
    | H : (_ <? _) = false |- _ => apply Z.ltb_ge in H
    | H : (_ =? _) = true |- _ => apply Z.eqb_eq in H
    | H : (_ =? _) = false |- _ => apply Z.eqb_neq in H
    end.

Lemma utf8_size_cases c r k :
  utf8_size c r = S k →
  (k = 1%nat ∧ ∃ c1 r1, r = String c1 r1 ∧ is_utf8_2 c c1)
  ∨ (k = 2%nat ∧ ∃ c1 c2 r2, r = String c1 (String c2 r2) ∧ is_utf8_3 c c1 c2)
  ∨ (k = 3%nat ∧ ∃ c1 c2 c3 r3,
       r = String c1 (String c2 (String c3 r3)) ∧ is_utf8_4 c c1 c2 c3).
Proof.
  unfold utf8_size, is_utf8_2, is_utf8_3, is_utf8_4.
  destruct r as [|c1 r1]; [done|].
  destruct ((194 <=? code c) && (code c <=? 223)) eqn:E1.
  { destruct (is_cont c1) eqn:Hc1; [|done]. unfold is_cont in Hc1.
    intros Hk. left. split; [lia|]. exists c1, r1. bools. by repeat split. }
  destruct (in_range _ _ c1) eqn:Hc1; cbn [negb]; [|done].
  destruct r1 as [|c2 r2]; [done|].
  destruct (is_cont c2) eqn:Hc2; cbn [negb]; [|done].
  unfold is_cont, in_range in *.
  destruct ((224 <=? code c) && (code c <=? 239)) eqn:E2.
  { intros Hk. right. left. split; [lia|]. exists c1, c2, r2.
    split; [done|]. clear E1. bools.
    destruct (code c =? 224) eqn:?, (code c =? 240) eqn:?,
      (code c =? 237) eqn:?, (code c =? 244) eqn:?; bools; lia. }
  destruct ((240 <=? code c) && (code c <=? 244)) eqn:E3; [|done].
  destruct r2 as [|c3 r3]; [done|].
  destruct ((128 <=? code c3) && (code c3 <=? 191)) eqn:Hc3; [|done].
  intros Hk. right. right. split; [lia|]. exists c1, c2, c3, r3.
  split; [done|]. clear E1 E2. bools.
  destruct (code c =? 224) eqn:?, (code c =? 240) eqn:?,
    (code c =? 237) eqn:?, (code c =? 244) eqn:?; bools; lia.
Qed.

Ltac to_bool :=
  repeat match goal with
    | |- context [?a <=? ?b] =>
        first [ rewrite (proj2 (Z.leb_le a b)) by lia
              | rewrite (proj2 (Z.leb_gt a b)) by lia ]
    | |- context [?a <? ?b] =>
        first [ rewrite (proj2 (Z.ltb_lt a b)) by lia
              | rewrite (proj2 (Z.ltb_ge a b)) by lia ]
    | |- context [?a =? ?b] =>
        first [ rewrite (proj2 (Z.eqb_eq a b)) by lia
              | rewrite (proj2 (Z.eqb_neq a b)) by lia ]
    end.

Lemma utf8_size_2 c c1 r : is_utf8_2 c c1 → utf8_size c (String c1 r) = 2%nat.
Proof.
  unfold is_utf8_2, utf8_size, is_cont. intros (? & ?). cbv zeta. to_bool. reflexivity.
Qed.

Lemma utf8_size_3 c c1 c2 r :
  is_utf8_3 c c1 c2 → utf8_size c (String c1 (String c2 r)) = 3%nat.
Proof.
  unfold is_utf8_3, utf8_size, is_cont, in_range. intros (? & ? & ? & ? & ?).
  cbv zeta. destruct (decide (code c = 224)), (decide (code c = 237)); try lia; to_bool; reflexivity.
Qed.

Lemma utf8_size_4 c c1 c2 c3 r :
  is_utf8_4 c c1 c2 c3 →
  utf8_size c (String c1 (String c2 (String c3 r))) = 4%nat.
Proof.
  unfold is_utf8_4, utf8_size, is_cont, in_range.
  intros (? & ? & ? & ? & ? & ?). cbv zeta.
  destruct (decide (code c = 240)), (decide (code c = 244)); try lia; to_bool; reflexivity.
Qed.

(** ** [utf8.EncodeRune] writes well-formed encodings *)

Lemma lor_192 x : 0 ≤ x < 64 → Z.lor 192 x = 192 + x.
Proof.
  intros Hx. change 192 with (Z.shiftl 3 6) at 1.
  by rewrite (lor_shiftl_add _ _ 6 64).
Qed.

Lemma lor_224 x : 0 ≤ x < 16 → Z.lor 224 x = 224 + x.
Proof.
  intros Hx. change 224 with (Z.shiftl 14 4) at 1.
  by rewrite (lor_shiftl_add _ _ 4 16).
Qed.

Lemma lor_240 x : 0 ≤ x < 8 → Z.lor 240 x = 240 + x.
Proof.
  intros Hx. change 240 with (Z.shiftl 30 3) at 1.
  by rewrite (lor_shiftl_add _ _ 3 8).
Qed.

Lemma cont_byte x :
  code (byte_of (Z.lor 128 (Z.land x 63))) = 128 + x mod 64.
Proof.
  rewrite low6_mod. pose proof (Z.mod_pos_bound x 64 ltac:(lia)).
  assert (Z.lor 128 (x mod 64) = 128 + x mod 64) as ->.
  { change 128 with (Z.shiftl 2 6) at 1.
    by rewrite (lor_shiftl_add _ _ 6 64) by (done || lia). }
  apply code_byte_of. lia.
Qed.

Ltac dlia := Z.div_mod_to_equations; lia.

Lemma EncodeRune_cases r :
  (∃ c, EncodeRune r = ch c ∧ code c < 128)
  ∨ (∃ c c1, EncodeRune r = String c (ch c1) ∧ is_utf8_2 c c1)
  ∨ (∃ c c1 c2, EncodeRune r = String c (String c1 (ch c2)) ∧ is_utf8_3 c c1 c2)
  ∨ (∃ c c1 c2 c3,
       EncodeRune r = String c (String c1 (String c2 (ch c3)))
       ∧ is_utf8_4 c c1 c2 c3).
Proof.
  unfold EncodeRune.
  set (r' := if (r <? 0) || (1114111 <? r) || ((55296 <=? r) && (r <=? 57343))
             then 65533 else r).
  assert (Hr : 0 ≤ r' ≤ 1114111 ∧ ¬ 55296 ≤ r' ≤ 57343).
  { unfold r'. destruct ((r <? 0) || (1114111 <? r) || _) eqn:E; [lia|].
    bools. destruct H0; bools; lia. }
  clearbody r'. destruct Hr as [Hr Hs]. cbv zeta.
  destruct (r' <=? 127) eqn:E1; bools.
  { left. eexists. split; [done|]. rewrite code_byte_of; lia. }
  right. destruct (r' <=? 2047) eqn:E2; bools.
  { left. do 2 eexists. split; [done|]. unfold is_utf8_2.
    rewrite cont_byte, Z.shiftr_div_pow2 by lia. change (2 ^ 6) with 64.
    rewrite lor_192, code_byte_of by dlia. dlia. }
  right. destruct (r' <=? 65535) eqn:E3; bools.
  { left. do 3 eexists. split; [done|]. unfold is_utf8_3.
    rewrite !cont_byte, !Z.shiftr_div_pow2 by lia.
    change (2 ^ 6) with 64. change (2 ^ 12) with 4096.
    rewrite lor_224, code_byte_of by dlia. dlia. }
  right. do 4 eexists. split; [done|]. unfold is_utf8_4.
  rewrite !cont_byte, !Z.shiftr_div_pow2 by lia.
  change (2 ^ 6) with 64. change (2 ^ 12) with 4096. change (2 ^ 18) with 262144.
  rewrite lor_240, code_byte_of by dlia. dlia.
Qed.
(** ** One step of the three passes over a string *)

Lemma coerce_ascii c t :
  code c < 128 → coerce_from 0 (String c t) = String c (coerce_from 0 t).
Proof. intros Hc. cbn [coerce_from]. by to_bool. Qed.

Lemma coerce_encoding c p t :
  utf8_size c (p +:+ t) = S (String.length p) → 128 ≤ code c →
  coerce_from 0 (String c (p +:+ t)) = String c (p +:+ coerce_from 0 t).
Proof.
  intros Hsize Hc. cbn [coerce_from]. to_bool. rewrite Hsize.
  by rewrite coerce_from_copy.
Qed.

Lemma scan_chars_quote rest : scan_chars 0 (String DQ rest) = Ok ("", rest).
Proof. done. Qed.

Lemma scan_chars_plain c r :
  32 ≤ code c < 128 → c ≠ DQ → c ≠ BSL →
  scan_chars 0 (String c r) = '(t, rest) ← scan_chars 0 r; Ok (String c t, rest).
Proof.
  intros Hc Hq Hb. cbn [scan_chars].
  rewrite (proj2 (Ascii.eqb_neq c DQ)), (proj2 (Ascii.eqb_neq c BSL)) by done.
  by to_bool.
Qed.

Lemma scan_chars_escape e x r :
  unescape e = Some x → e ≠ "u"%char →
  scan_chars 0 (String BSL (String e r))
  = '(t, rest) ← scan_chars 0 r; Ok (String x t, rest).
Proof.
  intros He Hu. cbn [scan_chars].
  change (BSL =? DQ)%char with false. change (BSL =? BSL)%char with true.
  cbv iota. by rewrite (proj2 (Ascii.eqb_neq e "u")), He by done.
Qed.

Lemma scan_chars_u4 h1 h2 h3 h4 rr r :
  hex4 h1 h2 h3 h4 = Some rr → IsSurrogate rr = false →
  scan_chars 0 (String BSL (String "u" (String h1 (String h2 (String h3 (String h4 r))))))
  = '(t, rest) ← scan_chars 0 r; Ok (EncodeRune rr +:+ t, rest).
Proof.
  intros Hh Hs. cbn [scan_chars].
  change (BSL =? DQ)%char with false. change (BSL =? BSL)%char with true.
  change ("u" =? "u")%char with true. cbv iota. by rewrite Hh, Hs.
Qed.

Lemma scan_chars_encoding c p r :
  utf8_size c (p +:+ r) = S (String.length p) → 128 ≤ code c →
  scan_chars 0 (String c (p +:+ r))
  = '(t, rest) ← scan_chars 0 r; Ok (String c (p +:+ t), rest).
Proof.
  intros Hsize Hc. cbn [scan_chars].
  assert (c ≠ DQ) by (intros ->; vm_compute in Hc; by apply Hc).
  assert (c ≠ BSL) by (intros ->; vm_compute in Hc; by apply Hc).
  rewrite (proj2 (Ascii.eqb_neq c DQ)), (proj2 (Ascii.eqb_neq c BSL)) by done.
  to_bool. rewrite Hsize, scan_chars_copy.
  by destruct (scan_chars 0 r) as [[t rest]|].
Qed.

Lemma append_nil_l (s : string) : "" +:+ s = s.
Proof. done. Qed.

Ltac norm_append := repeat (rewrite append_cons || rewrite append_nil_l).

Ltac cbools :=
  repeat first
    [ progress bools
    | match goal with
      | H : (_ =? _)%char = true |- _ => apply Ascii.eqb_eq in H
      | H : (_ =? _)%char = false |- _ => apply Ascii.eqb_neq in H
      end ].

Lemma hex_byte c :
  hex4 "0" "0" (hex_digit (Z.shiftr (code c) 4)) (hex_digit (Z.land (code c) 15))
  = Some (code c).
Proof.
  revert c.
  assert (H : ∀ c, bool_decide
                     (hex4 "0" "0" (hex_digit (Z.shiftr (code c) 4))
                        (hex_digit (Z.land (code c) 15)) = Some (code c)) = true).
  { apply all_bytes. vm_compute. reflexivity. }
  intros c. specialize (H c). by apply bool_decide_eq_true in H.
Qed.

Lemma EncodeRune_ascii c : code c < 128 → EncodeRune (code c) = ch c.
Proof.
  intros Hc. pose proof (code_range c). unfold EncodeRune. to_bool.
  cbn [orb andb]. to_bool. by rewrite byte_of_code.
Qed.

Lemma IsSurrogate_byte c : IsSurrogate (code c) = false.
Proof. pose proof (code_range c). unfold IsSurrogate. by to_bool. Qed.

(** The two runes that [json.Marshal] escapes though they are well formed. *)
Lemma line_separator c r k :
  utf8_size c r = S k →
  (utf8_rune (S k) c r =? 8232) || (utf8_rune (S k) c r =? 8233) = true →
  ∃ c2 r2, k = 2%nat ∧ c = "226"%char
           ∧ r = String "128" (String c2 r2)
           ∧ (c2 = "168"%char ∨ c2 = "169"%char)
           ∧ utf8_rune (S k) c r = 8192 + code c2 - 128.
Proof.
  intros Hsize Hrune.
  destruct (utf8_size_cases c r k Hsize)
    as [(-> & c1 & r1 & -> & Hv)|[(-> & c1 & c2 & r2 & -> & Hv)
        |(-> & c1 & c2 & c3 & r3 & -> & Hv)]].
  - rewrite utf8_rune_2 in Hrune. unfold is_utf8_2 in Hv. bools.
    exfalso. destruct Hrune; bools; dlia.
  - rewrite utf8_rune_3 in *. unfold is_utf8_3 in Hv.
    assert (code c = 226 ∧ code c1 = 128 ∧ (code c2 = 168 ∨ code c2 = 169))
      as (Hc & Hc1 & Hc2) by (bools; destruct Hrune; bools; dlia).
    exists c2, r2. split; [done|].
    assert (c = "226"%char) as -> by by apply code_inj.
    assert (c1 = "128"%char) as -> by by apply code_inj.
    repeat split.
    + destruct Hc2; [left|right]; by apply code_inj.
    + change (code "226") with 226. change (code "128") with 128.
      destruct Hc2 as [->| ->]; done.
  - rewrite utf8_rune_4 in Hrune. unfold is_utf8_4 in Hv. bools.
    exfalso. destruct Hrune; bools; dlia.
Qed.

(** What [json.Marshal] writes for a string is read back by the decoder as
    the string with U+FFFD for each byte that starts no well-formed
    encoding. *)
Lemma scan_chars_escape_from n :
  ∀ s rest, (String.length s ≤ n)%nat →
    scan_chars 0 (escape_from 0 s +:+ String DQ rest) = Ok (coerce_from 0 s, rest).
Proof.
  induction n as [|n IH]; intros s rest Hn.
  { destruct s; [done|cbn in Hn; lia]. }
  destruct s as [|c r]; [done|]. cbn [String.length] in Hn.
  cbn [escape_from].
  destruct (code c <? 128) eqn:Hascii.
  - bools. rewrite coerce_ascii by done.
    destruct (htmlSafe c) eqn:Hsafe.
    { unfold htmlSafe in Hsafe. cbools.
      rewrite append_cons, scan_chars_plain by (done || lia).
      by rewrite IH by lia. }
    destruct ((c =? BSL)%char || (c =? DQ)%char) eqn:Hq.
    { norm_append. rewrite (scan_chars_escape c c), IH; [done|lia| |].
      - unfold unescape. apply orb_true_iff in Hq as [->|Hq]; [by rewrite orb_true_r|].
        by rewrite Hq.
      - intros ->. done. }
    destruct (c =? "008")%char eqn:E1.
    { apply Ascii.eqb_eq in E1 as ->.
      norm_append. rewrite (scan_chars_escape "b" "008"), IH; [done|lia|done|done]. }
    destruct (c =? "012")%char eqn:E2.
    { apply Ascii.eqb_eq in E2 as ->.
      norm_append. rewrite (scan_chars_escape "f" "012"), IH; [done|lia|done|done]. }
    destruct (c =? LF)%char eqn:E3.
    { apply Ascii.eqb_eq in E3 as ->.
      norm_append. rewrite (scan_chars_escape "n" LF), IH; [done|lia|done|done]. }
    destruct (c =? CR)%char eqn:E4.
    { apply Ascii.eqb_eq in E4 as ->.
      norm_append. rewrite (scan_chars_escape "r" CR), IH; [done|lia|done|done]. }
    destruct (c =? "009")%char eqn:E5.
    { apply Ascii.eqb_eq in E5 as ->.
      norm_append. rewrite (scan_chars_escape "t" "009"), IH; [done|lia|done|done]. }
    norm_append.
    rewrite (scan_chars_u4 _ _ _ _ (code c)), IH;
      [|lia|apply hex_byte|apply IsSurrogate_byte].
    cbn [mbind result_bind]. by rewrite EncodeRune_ascii.
  - bools. cbn [coerce_from]. to_bool.
    destruct (utf8_size c r) as [|k] eqn:Hsize.
    { norm_append.
      rewrite (scan_chars_u4 _ _ _ _ 65533), IH; [done|lia|done|done]. }
    destruct ((utf8_rune (S k) c r =? 8232) || (utf8_rune (S k) c r =? 8233))
      eqn:Hrune.
    { destruct (line_separator c r k Hsize Hrune)
        as (c2 & r2 & -> & -> & -> & Hc2 & Hr).
      rewrite Hr. cbn [String.length] in Hn. cbn [coerce_from].
      destruct Hc2 as [-> | ->].
      - norm_append.
        rewrite (scan_chars_u4 _ _ _ _ 8232), IH; [done|lia|done|done].
      - norm_append.
        rewrite (scan_chars_u4 _ _ _ _ 8233), IH; [done|lia|done|done]. }
    destruct (utf8_size_prefix c r k Hsize) as (_ & p & r0 & -> & <- & Hp).
    rewrite append_length in Hn.
    rewrite escape_from_copy, coerce_from_copy, <- !append_cons, append_assoc.
    rewrite append_cons, scan_chars_encoding, IH by (first [lia | apply Hp]).
    done.
Qed.

Lemma Marshal_string_scan s rest :
  scan_chars 0 (escape_from 0 s +:+ String DQ rest) = Ok (coerce_from 0 s, rest).
Proof. by apply scan_chars_escape_from with (n := String.length s). Qed.

(** ** The strings that the decoder stores are well formed *)

Lemma coerce_EncodeRune r t :
  coerce_from 0 (EncodeRune r +:+ t) = EncodeRune r +:+ coerce_from 0 t.
Proof.
  destruct (EncodeRune_cases r)
    as [(c & -> & Hc)|[(c & c1 & -> & Hv)|[(c & c1 & c2 & -> & Hv)
        |(c & c1 & c2 & c3 & -> & Hv)]]].
  - norm_append. by apply coerce_ascii.
  - change (String c (ch c1) +:+ t) with (String c (ch c1 +:+ t)).
    change (String c (ch c1) +:+ coerce_from 0 t)
      with (String c (ch c1 +:+ coerce_from 0 t)).
    apply coerce_encoding; [|unfold is_utf8_2 in Hv; lia].
    norm_append. by apply utf8_size_2.
  - change (String c (String c1 (ch c2)) +:+ t)
      with (String c (String c1 (ch c2) +:+ t)).
    change (String c (String c1 (ch c2)) +:+ coerce_from 0 t)
      with (String c (String c1 (ch c2) +:+ coerce_from 0 t)).
    apply coerce_encoding; [|unfold is_utf8_3 in Hv; lia].
    norm_append. by apply utf8_size_3.
  - change (String c (String c1 (String c2 (ch c3))) +:+ t)
      with (String c (String c1 (String c2 (ch c3)) +:+ t)).
    change (String c (String c1 (String c2 (ch c3))) +:+ coerce_from 0 t)
      with (String c (String c1 (String c2 (ch c3)) +:+ coerce_from 0 t)).
    apply coerce_encoding; [|unfold is_utf8_4 in Hv; lia].
    norm_append. by apply utf8_size_4.
Qed.

Lemma unescape_ascii e x : unescape e = Some x → code x < 128.
Proof.
  unfold unescape.
  destruct ((e =? DQ)%char || (e =? BSL)%char || (e =? "/")%char) eqn:E.
  { intros [= <-]. apply orb_true_iff in E as [E|E];
      [apply orb_true_iff in E as [E|E]|]; apply Ascii.eqb_eq in E; by subst. }
  repeat (case_match; [intros [= <-]; by vm_compute|]). done.
Qed.

Ltac valid_bind IH H :=
  match type of H with
  | (scan_chars 0 ?r ≫= _) = Ok _ =>
      let E := fresh "E" in
      let t' := fresh "t" in
      let rest' := fresh "rest" in
      destruct (scan_chars 0 r) as [[t' rest']|] eqn:E;
      cbn [mbind result_bind] in H; [|discriminate H];
      apply IH in E; [|cbn [String.length] in *; rewrite ?append_length in *; lia];
      injection H as <- <-
  end.

Lemma scan_chars_valid_aux n :
  ∀ s t rest, (String.length s ≤ n)%nat →
    scan_chars 0 s = Ok (t, rest) → valid_utf8 t.
Proof.
  unfold valid_utf8.
  induction n as [|n IH]; intros s t rest Hn H.
  { destruct s; [done|cbn in Hn; lia]. }
  destruct s as [|c r]; [done|]. cbn [scan_chars] in H.
  destruct (c =? DQ)%char; [by injection H as <- <-|].
  destruct (c =? BSL)%char.
  { destruct r as [|e r1]; [done|].
    destruct (e =? "u")%char.
    - destruct r1 as [|h1 [|h2 [|h3 [|h4 r2]]]];
        try (by apply short_hex_err in H).
      destruct (hex4 h1 h2 h3 h4) as [rr|]; [|done].
      destruct (IsSurrogate rr && _).
      + destruct r2 as [|? [|? [|? [|? [|? [|? r3]]]]]]; try done.
        valid_bind IH H. by rewrite coerce_EncodeRune, E.
      + valid_bind IH H. by rewrite coerce_EncodeRune, E.
    - destruct (unescape e) as [x|] eqn:He; [|done].
      valid_bind IH H. apply unescape_ascii in He.
      by rewrite coerce_ascii, E. }
  destruct (code c <? 32); [done|].
  destruct (code c <? 128) eqn:Hc.
  { valid_bind IH H. bools. by rewrite coerce_ascii, E. }
  bools. destruct (utf8_size c r) as [|k] eqn:Hsize.
  { valid_bind IH H. by rewrite coerce_EncodeRune, E. }
  destruct (utf8_size_prefix c r k Hsize) as (_ & p & r0 & -> & <- & Hp).
  rewrite scan_chars_copy in H.
  destruct (scan_chars 0 r0) as [[t' rest']|] eqn:E;
    cbn [mbind result_bind] in H; [|discriminate H].
  injection H as <- <-. apply IH in E.
  - by rewrite coerce_encoding, E.
  - cbn [String.length] in Hn. rewrite append_length in Hn. lia.
Qed.

Lemma scan_chars_valid s t rest : scan_chars 0 s = Ok (t, rest) → valid_utf8 t.
Proof. by apply scan_chars_valid_aux with (n := String.length s). Qed.
(** * Number tokens *)

Lemma scan_number_stages s :
  scan_number s
  = let '(sign, s1) := scan_sign s in
    '(int, s2) ← scan_int s1;
    '(frac, s3) ← scan_frac s2;
    '(exp, s4) ← scan_exp s3;
    Ok (sign +:+ int +:+ frac +:+ exp, s4).
Proof. reflexivity. Qed.

Lemma not_first_weaken (P Q : ascii → bool) s :
  (∀ c, Q c = false → P c = false) → not_first Q s → not_first P s.
Proof. destruct s; [done|]. cbn. auto. Qed.

Lemma stops_no_digit s : stops s → not_first isDigit s.
Proof.
  apply not_first_weaken. unfold continues_number. intros c H. by cbools.
Qed.

Lemma stops_no_point s : stops s → not_first (fun c => (c =? ".")%char) s.
Proof.
  apply not_first_weaken. unfold continues_number. intros c H. cbools.
  by apply Ascii.eqb_neq.
Qed.

Lemma stops_no_exp s :
  stops s → not_first (fun c => (c =? "e")%char || (c =? "E")%char) s.
Proof.
  apply not_first_weaken. unfold continues_number. intros c H. cbools.
  apply orb_false_iff. split; by apply Ascii.eqb_neq.
Qed.

Lemma take_digits_app d rest :
  Forall (fun c => isDigit c = true) (list_ascii_of_string d) →
  not_first isDigit rest → take_digits (d +:+ rest) = (d, rest).
Proof.
  intros Hd Hrest. induction d as [|c d IH].
  - rewrite append_nil_l. destruct rest as [|c r]; [done|].
    cbn in Hrest. cbn [take_digits]. by rewrite Hrest.
  - cbn [list_ascii_of_string] in Hd. apply Forall_cons in Hd as [Hc Hd].
    rewrite append_cons. cbn [take_digits]. by rewrite Hc, IH.
Qed.

Lemma take_digits_digits s d rest :
  take_digits s = (d, rest) →
  Forall (fun c => isDigit c = true) (list_ascii_of_string d).
Proof.
  revert d rest. induction s as [|c s IH]; intros d rest.
  - intros [= <- <-]. constructor.
  - cbn [take_digits]. destruct (isDigit c) eqn:Hc.
    + destruct (take_digits s) as [d' rest'] eqn:E. intros [= <- <-].
      cbn. apply Forall_cons. split; [done|]. by eapply IH.
    + intros [= <- <-]. constructor.
Qed.

Lemma digits1_rescan s d s' :
  digits1 s = Ok (d, s') →
  (∀ rest, not_first isDigit rest → digits1 (d +:+ rest) = Ok (d, rest))
  ∧ first_is isDigit d.
Proof.
  destruct s as [|c s]; [done|]. cbn [digits1].
  destruct (isDigit c) eqn:Hc; [|done]. intros H0.
  assert (H : take_digits (String c s) = (d, s')) by congruence. clear H0.
  pose proof (take_digits_digits _ _ _ H) as Hd.
  cbn [take_digits] in H. rewrite Hc in H.
  destruct (take_digits s) as [d' r']. injection H as <- <-. split.
  - intros rest Hrest. rewrite append_cons. cbn [digits1]. rewrite Hc.
    by rewrite <- append_cons, take_digits_app.
  - done.
Qed.

Lemma scan_int_rescan s1 int s2 :
  scan_int s1 = Ok (int, s2) →
  (∀ rest, not_first isDigit rest → scan_int (int +:+ rest) = Ok (int, rest))
  ∧ first_is isDigit int.
Proof.
  destruct s1 as [|c r]; [done|]. cbn [scan_int].
  destruct (c =? "0")%char eqn:E0.
  { intros [= <- <-]. by split. }
  destruct (in_range 49 57 c) eqn:Hc; [|done].
  pose proof (nonzero_digit c Hc) as Hd. intros H0.
  assert (H : take_digits (String c r) = (int, s2)) by congruence. clear H0.
  pose proof (take_digits_digits _ _ _ H) as Hds.
  cbn [take_digits] in H. rewrite Hd in H.
  destruct (take_digits r) as [d' r']. injection H as <- <-. split.
  - intros rest Hrest. rewrite append_cons. cbn [scan_int]. rewrite E0, Hc.
    by rewrite <- append_cons, take_digits_app.
  - done.
Qed.

Lemma scan_frac_rescan s2 frac s3 :
  scan_frac s2 = Ok (frac, s3) →
  (∀ rest, not_first isDigit rest → not_first (fun c => (c =? ".")%char) rest →
           scan_frac (frac +:+ rest) = Ok (frac, rest))
  ∧ not_first isDigit frac.
Proof.
  assert (Hempty : ∀ rest, not_first (fun c => (c =? ".")%char) rest →
                           scan_frac ("" +:+ rest) = Ok ("", rest)).
  { intros [|c r] H; [done|]. cbn in H. rewrite append_nil_l. cbn [scan_frac].
    by rewrite H. }
  destruct s2 as [|c r]; cbn [scan_frac].
  { intros [= <- <-]. split; [|done]. intros rest _. apply Hempty. }
  destruct (c =? ".")%char eqn:Ec.
  - destruct (digits1 r) as [[d r']|] eqn:Hd; [|done]. cbn [mbind result_bind].
    intros [= <- <-]. apply digits1_rescan in Hd as [Hd _].
    apply Ascii.eqb_eq in Ec as ->. split; [|done].
    intros rest Hrest _. rewrite append_cons. cbn [scan_frac].
    change ("." =? ".")%char with true. cbv iota. by rewrite Hd.
  - intros [= <- <-]. split; [|done]. intros rest _. apply Hempty.
Qed.

Lemma scan_exp_rescan s3 exp s4 :
  scan_exp s3 = Ok (exp, s4) →
  (∀ rest, not_first isDigit rest →
           not_first (fun c => (c =? "e")%char || (c =? "E")%char) rest →
           scan_exp (exp +:+ rest) = Ok (exp, rest))
  ∧ not_first isDigit exp ∧ not_first (fun c => (c =? ".")%char) exp.
Proof.
  assert (Hempty : ∀ rest,
            not_first (fun c => (c =? "e")%char || (c =? "E")%char) rest →
            scan_exp ("" +:+ rest) = Ok ("", rest)).
  { intros [|c r] H; [done|]. cbn in H. rewrite append_nil_l. cbn [scan_exp].
    by rewrite H. }
  destruct s3 as [|c r]; cbn [scan_exp].
  { intros [= <- <-]. split; [|done]. intros rest _. apply Hempty. }
  destruct ((c =? "e")%char || (c =? "E")%char) eqn:Ec.
  2: { intros [= <- <-]. split; [|done]. intros rest _. apply Hempty. }
  destruct (match r with
            | String c' r' =>
                if (c' =? "+")%char || (c' =? "-")%char then (ch c', r') else ("", r)
            | EmptyString => ("", r)
            end) as [sg r1] eqn:Hsg.
  destruct (digits1 r1) as [[d r2]|] eqn:Hd; [|done]. cbn [mbind result_bind].
  intros [= <- <-]. apply digits1_rescan in Hd as [Hd Hfirst].
  assert (Hc : isDigit c = false ∧ (c =? ".")%char = false).
  { apply orb_true_iff in Ec as [->%Ascii.eqb_eq| ->%Ascii.eqb_eq]; done. }
  split; [|by destruct Hc].
  intros rest Hrest _. rewrite append_cons. cbn [scan_exp]. rewrite Ec.
  rewrite append_assoc.
  assert (Hs : match sg +:+ d +:+ rest with
               | String c' r' =>
                   if (c' =? "+")%char || (c' =? "-")%char
                   then (ch c', r') else ("", sg +:+ d +:+ rest)
               | EmptyString => ("", sg +:+ d +:+ rest)
               end = (sg, d +:+ rest)).
  { destruct r as [|c' r'].
    - injection Hsg as <- <-. rewrite append_nil_l.
      destruct d as [|c0 d]; [done|]. rewrite append_cons. cbn in Hfirst.
      assert ((c0 =? "+")%char || (c0 =? "-")%char = false) as ->; [|done].
      apply orb_false_iff.
      split; apply Ascii.eqb_neq; intros ->; done.
    - destruct ((c' =? "+")%char || (c' =? "-")%char) eqn:E'.
      + injection Hsg as <- <-. unfold ch. rewrite append_cons, append_nil_l.
        by rewrite E'.
      + injection Hsg as <- <-. rewrite append_nil_l.
        destruct d as [|c0 d]; [done|]. rewrite append_cons. cbn in Hfirst.
        assert ((c0 =? "+")%char || (c0 =? "-")%char = false) as ->; [|done].
        apply orb_false_iff.
        split; apply Ascii.eqb_neq; intros ->; done. }
  rewrite Hs, Hd by done. done.
Qed.

Lemma not_first_app P a b :
  not_first P a → not_first P b → not_first P (a +:+ b).
Proof. destruct a; [by rewrite append_nil_l|done]. Qed.

Lemma first_is_app P a b : first_is P a → first_is P (a +:+ b).
Proof. by destruct a. Qed.

Lemma first_is_weaken (P Q : ascii → bool) s :
  (∀ c, P c = true → Q c = true) → first_is P s → first_is Q s.
Proof. destruct s; [done|]. cbn. auto. Qed.

Lemma scan_sign_rescan s sign s1 :
  scan_sign s = (sign, s1) →
  (∀ rest, first_is isDigit rest → scan_sign (sign +:+ rest) = (sign, rest))
  ∧ (sign = "" ∨ sign = "-").
Proof.
  assert (Hempty : ∀ rest, first_is isDigit rest →
                           scan_sign ("" +:+ rest) = ("", rest)).
  { intros [|c r] H; [done|]. cbn in H. rewrite append_nil_l. cbn [scan_sign].
    destruct (c =? "-")%char eqn:E; [|done]. by apply Ascii.eqb_eq in E as ->. }
  destruct s as [|c r]; cbn [scan_sign].
  { intros [= <- <-]. split; [apply Hempty|by left]. }
  destruct (c =? "-")%char; intros [= <- <-].
  - split; [done|by right].
  - split; [apply Hempty|by left].
Qed.

(** A token that [scan_number] returns is scanned again as a whole, from
    any text in which no byte that continues a number follows it. *)
Lemma scan_number_token s tok rest :
  scan_number s = Ok (tok, rest) → number_token tok.
Proof.
  rewrite scan_number_stages.
  destruct (scan_sign s) as [sign s1] eqn:Hsign.
  destruct (scan_int s1) as [[int s2]|] eqn:Hint; cbn [mbind result_bind]; [|done].
  destruct (scan_frac s2) as [[frac s3]|] eqn:Hfrac; cbn [mbind result_bind]; [|done].
  destruct (scan_exp s3) as [[exp s4]|] eqn:Hexp; cbn [mbind result_bind]; [|done].
  intros [= <- <-].
  apply scan_sign_rescan in Hsign as [Hsign Hs].
  apply scan_int_rescan in Hint as [Hint Hi].
  apply scan_frac_rescan in Hfrac as [Hfrac Hf].
  apply scan_exp_rescan in Hexp as (Hexp & He1 & He2).
  split.
  - intros rest Hstop. rewrite scan_number_stages, !append_assoc.
    pose proof (stops_no_digit _ Hstop) as H1.
    pose proof (stops_no_point _ Hstop) as H2.
    pose proof (stops_no_exp _ Hstop) as H3.
    rewrite Hsign by by apply first_is_app.
    rewrite Hint by by repeat apply not_first_app.
    cbn [mbind result_bind]. rewrite Hfrac by by apply not_first_app.
    cbn [mbind result_bind]. rewrite Hexp by done.
    cbn [mbind result_bind]. by rewrite ?append_assoc.
  - destruct Hs as [-> | ->]; [|done]. rewrite append_nil_l.
    apply first_is_app. revert Hi. apply first_is_weaken.
    intros c ->. apply orb_true_r.
Qed.
(** * The values that the decoder stores *)

Lemma decodable_mono n n' v : (n ≤ n')%nat → decodable n v → decodable n' v.
Proof.
  revert n n'. induction v as [| | | |items IH|m IH] using any_ind;
    intros n n' Hn Hv; inversion Hv as [| | | |k items' Hitems|k m' Hm]; subst;
    try by constructor.
  - destruct n' as [|n']; [lia|]. constructor.
    apply Forall_forall. intros x Hx. rewrite Forall_forall in IH, Hitems.
    apply (IH x Hx k); [lia|by apply Hitems].
  - destruct n' as [|n']; [lia|]. constructor. intros key x Hkey.
    destruct (Hm key x Hkey) as [Hvalid Hx]. split; [done|].
    apply (IH key x Hkey k); [lia|done].
Qed.

Lemma store_members_lookup {V} (ms : list (string * V)) k x :
  store_members ms !! k = Some x → (k, x) ∈ ms.
Proof.
  rewrite store_members_list_to_map. intros H%elem_of_list_to_map_2.
  by apply elem_of_reverse.
Qed.

Lemma decodable_members n (ms : list (string * jtree)) :
  Forall (fun kv => valid_utf8 kv.1 ∧ decodable n (interface_of kv.2)) ms →
  decodable (S n) (interface_of (TObject ms)).
Proof.
  intros Hms. cbn [interface_of]. constructor. intros k x Hk.
  apply store_members_lookup in Hk.
  apply list_elem_of_fmap in Hk as ([k' t] & [= -> ->] & Hin).
  rewrite Forall_forall in Hms. exact (Hms _ Hin).
Qed.

Lemma decodable_items n (ts : list jtree) :
  Forall (fun t => decodable n (interface_of t)) ts →
  decodable (S n) (interface_of (TArray ts)).
Proof.
  intros Hts. cbn [interface_of]. constructor. by apply Forall_fmap.
Qed.

Ltac decodable_step IHv IHe IHm H :=
  match type of H with
  | Ok _ = Ok _ => injection H as <- <-
  | syntax_error = Ok _ => discriminate H
  | unexpected_eof = Ok _ => discriminate H
  | Err _ = Ok _ => discriminate H
  | (?x ≫= _) = Ok _ =>
      let E := fresh "E" in
      first [ destruct x as [[? ?]|] eqn:E | destruct x eqn:E ];
      cbn [mbind result_bind] in H; [|discriminate H];
      first [ apply IHv in E | apply IHe in E | apply IHm in E
            | apply scan_chars_valid in E | apply scan_number_token in E
            | idtac ]
  | match ?e with _ => _ end = Ok _ => destruct e eqn:?
  end.

Ltac decodable_leaf :=
  match goal with
  | Hd : ¬ (maxNestingDepth < S ?d)%nat |- decodable (maxNestingDepth - ?d) _ =>
      replace (maxNestingDepth - d)%nat with (S (maxNestingDepth - S d)) by lia;
      first [ by apply decodable_members | by apply decodable_items ]
  | |- decodable _ _ => by constructor
  | |- Forall _ _ => repeat constructor; done
  end.

Lemma scan_decodable fuel :
  (∀ d s t rest,
     scan_value fuel d s = Ok (t, rest) →
     decodable (maxNestingDepth - d) (interface_of t))
  ∧ (∀ d s ts rest,
       scan_elems fuel d s = Ok (ts, rest) →
       Forall (fun t => decodable (maxNestingDepth - d) (interface_of t)) ts)
  ∧ (∀ d s ms rest,
       scan_members fuel d s = Ok (ms, rest) →
       Forall (fun kv => valid_utf8 kv.1
                         ∧ decodable (maxNestingDepth - d) (interface_of kv.2)) ms).
Proof.
  induction fuel as [|fuel (IHv & IHe & IHm)]; [by repeat split|].
  split; [|split]; intros d s t rest H.
  - cbn [scan_value] in H. repeat decodable_step IHv IHe IHm H; decodable_leaf.
  - cbn [scan_elems] in H. repeat decodable_step IHv IHe IHm H; decodable_leaf.
  - cbn [scan_members] in H. repeat decodable_step IHv IHe IHm H; decodable_leaf.
Qed.

(** What [decodeJSON] returns is decodable. *)
Lemma decodeJSON_decodable raw v :
  decodeJSON raw = Ok v → decodable maxNestingDepth v.
Proof.
  unfold decodeJSON, decode_tree, Decode.
  destruct (skip_space raw); [done|].
  destruct (scan_value _ 0 raw) as [[t rest]|] eqn:E; [|done].
  cbn [mbind result_bind]. destruct (ensureEOF rest); [|done].
  cbn [mbind result_bind]. intros [= <-].
  apply scan_decodable in E. by rewrite Nat.sub_0_r in E.
Qed.
(** * The canonical text is read back as the value *)

Lemma first_is_cons P s : first_is P s → ∃ c s', s = String c s' ∧ P c = true.
Proof. destruct s as [|c s']; [done|]. intros H. by exists c, s'. Qed.

Lemma starts_value_no_space c :
  starts_value c = true →
  isSpace c = false ∧ (c =? "]")%char = false ∧ (c =? "}")%char = false.
Proof.
  revert c.
  assert (H : ∀ c, implb (starts_value c)
                     (negb (isSpace c) && negb (c =? "]")%char
                      && negb (c =? "}")%char) = true).
  { apply all_bytes. vm_compute. reflexivity. }
  intros c Hc. specialize (H c). rewrite Hc in H. cbn in H.
  apply andb_true_iff in H as [[H1 H2]%andb_true_iff H3].
  by rewrite !negb_true_iff in *.
Qed.

Lemma number_start c :
  (c =? "-")%char || isDigit c = true →
  isSpace c = false ∧ (c =? "{")%char = false ∧ (c =? "[")%char = false
  ∧ (c =? DQ)%char = false ∧ starts_value c = true.
Proof.
  revert c.
  assert (H : ∀ c, implb ((c =? "-")%char || isDigit c)
                     (negb (isSpace c) && negb (c =? "{")%char
                      && negb (c =? "[")%char && negb (c =? DQ)%char
                      && starts_value c) = true).
  { apply all_bytes. vm_compute. reflexivity. }
  intros c Hc. specialize (H c). rewrite Hc in H. cbn in H.
  repeat (apply andb_true_iff in H as [H ?]).
  by rewrite !negb_true_iff in *.
Qed.

Lemma stops_comma rest : stops (String "," rest).
Proof. done. Qed.

Lemma stops_bracket rest : stops (String "]" rest).
Proof. done. Qed.

Lemma stops_brace rest : stops (String "}" rest).
Proof. done. Qed.

Lemma concat_cons2 sep (x y : string) l :
  String.concat sep (x :: y :: l) = x +:+ sep +:+ String.concat sep (y :: l).
Proof. done. Qed.

(** The members that [writeJSONObject] writes are stored as the map. *)
Lemma store_written_members (m : gmap string any) ks :
  ks ≡ₚ (map_to_list m).*1 →
  store_members ((fun k => (k, m !!! k)) <$> ks) = m.
Proof.
  intros Hks.
  rewrite (store_members_perm _ ((fun k => (k, m !!! k)) <$> (map_to_list m).*1)).
  - assert ((fun k => (k, m !!! k)) <$> (map_to_list m).*1 = map_to_list m) as ->.
    { rewrite <- list_fmap_compose.
      rewrite <- (list_fmap_id (map_to_list m)) at 2.
      apply list_fmap_ext. intros i [k x] Hi. cbn.
      apply list_elem_of_lookup_2, elem_of_map_to_list in Hi.
      by rewrite (lookup_total_correct m k x). }
    rewrite store_members_list_to_map.
    rewrite <- (list_to_map_to_list m) at 2.
    apply list_to_map_proper; [|apply reverse_Permutation].
    rewrite fmap_reverse, reverse_Permutation. apply NoDup_fst_map_to_list.
  - rewrite <- list_fmap_compose. cbn. rewrite list_fmap_id, Hks.
    apply NoDup_fst_map_to_list.
  - by rewrite Hks.
Qed.

Lemma reads_back_null n : reads_back "null" JNull n.
Proof.
  exists TNull, 1%nat. split; [done|]. intros [|fuel] d rest Hf Hd Hrest; [lia|].
  norm_append. reflexivity.
Qed.

Lemma reads_back_bool n (b : bool) : reads_back (if b then "true" else "false") (JBool b) n.
Proof.
  exists (TBool b), 1%nat. split; [done|].
  intros [|fuel] d rest Hf Hd Hrest; [lia|].
  destruct b; norm_append; reflexivity.
Qed.

Lemma reads_back_string n s :
  valid_utf8 s → reads_back (Marshal_string s) (JString s) n.
Proof.
  intros Hs. exists (TString s), 1%nat. split; [done|].
  intros [|fuel] d rest Hf Hd Hrest; [lia|].
  unfold Marshal_string. rewrite !append_cons, append_assoc. unfold ch.
  norm_append. cbn [scan_value skip_space].
  change (isSpace DQ) with false. cbv iota.
  change (DQ =? "{")%char with false. change (DQ =? "[")%char with false.
  change (DQ =? DQ)%char with true. cbv iota.
  by rewrite Marshal_string_scan, Hs.
Qed.

Lemma reads_back_number n tok :
  number_token tok → reads_back tok (JNumber tok) n.
Proof.
  intros [Htok Hfirst]. exists (TNumber tok), 1%nat. split; [done|].
  intros [|fuel] d rest Hf Hd Hrest; [lia|].
  specialize (Htok rest Hrest).
  destruct tok as [|c tok]; [done|]. cbn in Hfirst.
  destruct (number_start c Hfirst) as (H1 & H2 & H3 & H4 & _).
  rewrite append_cons in *. cbn [scan_value skip_space].
  by rewrite H1, H2, H3, H4, Hfirst, Htok.
Qed.

Lemma reads_back_elems (write : any → string) n items :
  items ≠ [] → Forall (fun v => reads_back (write v) v n) items →
  ∃ ts F,
    interface_of <$> ts = items
    ∧ ∀ fuel d rest,
        (F ≤ fuel)%nat → (d + n ≤ maxNestingDepth)%nat →
        scan_elems fuel d (String.concat "," (write <$> items) +:+ String "]" rest)
        = Ok (ts, rest).
Proof.
  induction items as [|x items IH]; [done|]. intros _ Hall.
  apply Forall_cons in Hall as [(t & F & Ht & Hscan) Hall].
  destruct items as [|y items].
  - exists [t], (S F). split; [by rewrite <- Ht|].
    intros [|fuel] d rest Hf Hd; [lia|]. cbn [fmap list_fmap String.concat].
    cbn [scan_elems]. rewrite Hscan by (done || lia).
    reflexivity.
  - destruct (IH ltac:(done) Hall) as (ts & F' & Hts & Hrest).
    exists (t :: ts), (S (F `max` F')). split; [by rewrite fmap_cons, Ht, Hts|].
    intros [|fuel] d rest Hf Hd; [lia|].
    rewrite !fmap_cons, concat_cons2, <- fmap_cons, !append_assoc.
    norm_append. cbn [scan_elems]. rewrite Hscan by (done || lia).
    cbn [mbind result_bind skip_space]. change (isSpace ",") with false.
    cbv iota. change ("," =? ",")%char with true. cbv iota.
    by rewrite Hrest by lia.
Qed.

Lemma reads_back_array (write : any → string) n items :
  Forall (fun v => first_is starts_value (write v) ∧ reads_back (write v) v n)
    items →
  reads_back ("[" +:+ String.concat "," (write <$> items) +:+ "]")
    (JArray items) (S n).
Proof.
  intros Hall. destruct items as [|x items].
  { exists (TArray []), 1%nat. split; [done|].
    intros [|fuel] d rest Hf Hd Hrest; [lia|].
    cbn [fmap list_fmap String.concat]. norm_append.
    cbn [scan_value skip_space]. change (isSpace "[") with false. cbv iota.
    change ("[" =? "{")%char with false. change ("[" =? "[")%char with true.
    cbv iota. rewrite decide_False by lia. reflexivity. }
  assert (Hfirst : first_is starts_value (write x)) by by inversion Hall as [|?? []].
  assert (Hreads : Forall (fun v => reads_back (write v) v n) (x :: items)).
  { eapply Forall_impl; [exact Hall|]. by intros v []. }
  destruct (reads_back_elems write n (x :: items) ltac:(done) Hreads)
    as (ts & F & Hts & Hscan).
  exists (TArray ts), (S F). split; [cbn [interface_of]; by rewrite Hts|].
  intros [|fuel] d rest Hf Hd Hrest; [lia|].
  rewrite !append_assoc. norm_append.
  cbn [scan_value skip_space]. change (isSpace "[") with false. cbv iota.
  change ("[" =? "{")%char with false. change ("[" =? "[")%char with true.
  cbv iota. rewrite decide_False by lia.
  rewrite Hscan by lia.
  assert (Hstart : first_is starts_value
            (String.concat "," (write <$> x :: items) +:+ String "]" rest)).
  { destruct items; [by apply first_is_app|].
    rewrite !fmap_cons, concat_cons2, append_assoc.
    by apply first_is_app. }
  apply first_is_cons in Hstart as (c & s' & Heq & Hc).
  rewrite Heq. destruct (starts_value_no_space c Hc) as (H1 & H2 & _).
  cbn [skip_space]. by rewrite H1, H2.
Qed.

Lemma reads_back_members (w : string → string) (val : string → any) n ks :
  ks ≠ [] →
  Forall (fun k => valid_utf8 k ∧ reads_back (w k) (val k) n) ks →
  ∃ ms F,
    (fun kv : string * jtree => (kv.1, interface_of kv.2)) <$> ms
    = (fun k => (k, val k)) <$> ks
    ∧ ∀ fuel d rest,
        (F ≤ fuel)%nat → (d + n ≤ maxNestingDepth)%nat →
        scan_members fuel d
          (String.concat ","
             ((fun k => Marshal_string k +:+ ":" +:+ w k) <$> ks)
           +:+ String "}" rest)
        = Ok (ms, rest).
Proof.
  set (f := fun k => Marshal_string k +:+ ":" +:+ w k).
  induction ks as [|k ks IH]; [done|]. intros _ Hall.
  apply Forall_cons in Hall as [(Hk & t & F & Ht & Hscan) Hall].
  assert (Hstep : ∀ fuel d X,
            (F ≤ fuel)%nat → (d + n ≤ maxNestingDepth)%nat → stops X →
            scan_members (S fuel) d (f k +:+ X)
            = match skip_space X with
              | String c2 r4 =>
                  if (c2 =? ",")%char then
                    '(ms, rest) ← scan_members fuel d r4; Ok ((k, t) :: ms, rest)
                  else if (c2 =? "}")%char then Ok ([(k, t)], r4)
                  else syntax_error
              | EmptyString => unexpected_eof
              end).
  { intros fuel d X Hf Hd HX. unfold f, Marshal_string.
    rewrite !append_assoc. unfold ch. norm_append.
    cbn [scan_members skip_space]. change (isSpace DQ) with false. cbv iota.
    change (DQ =? DQ)%char with true. cbv iota.
    rewrite Marshal_string_scan, Hk. cbn [mbind result_bind skip_space].
    change (isSpace ":") with false. cbv iota.
    change (":" =? ":")%char with true. cbv iota.
    by rewrite Hscan by done. }
  destruct ks as [|k' ks].
  - exists [(k, t)], (S F). split; [cbn; by rewrite Ht|].
    intros [|fuel] d rest Hf Hd; [lia|]. cbn [fmap list_fmap String.concat].
    rewrite Hstep by (done || lia). reflexivity.
  - destruct (IH ltac:(done) Hall) as (ms & F' & Hms & Hrest).
    exists ((k, t) :: ms), (S (F `max` F')).
    split; [rewrite (fmap_cons _ _ ms), Hms; cbn; by rewrite Ht|].
    intros [|fuel] d rest Hf Hd; [lia|].
    rewrite !fmap_cons, concat_cons2, <- fmap_cons.
    rewrite !append_assoc. norm_append.
    rewrite Hstep by (done || lia). cbn [skip_space].
    change (isSpace ",") with false. cbv iota.
    change ("," =? ",")%char with true. cbv iota.
    by rewrite Hrest by lia.
Qed.

Lemma reads_back_object (w : string → string) (val : string → any) n ks
    (m : gmap string any) :
  Forall (fun k => valid_utf8 k ∧ reads_back (w k) (val k) n) ks →
  store_members ((fun k => (k, val k)) <$> ks) = m →
  reads_back
    ("{" +:+ String.concat "," ((fun k => Marshal_string k +:+ ":" +:+ w k) <$> ks)
     +:+ "}")
    (JObject m) (S n).
Proof.
  intros Hall Hm. destruct ks as [|k ks].
  { exists (TObject []), 1%nat. split; [by rewrite <- Hm|].
    intros [|fuel] d rest Hf Hd Hrest; [lia|].
    cbn [fmap list_fmap String.concat]. norm_append.
    cbn [scan_value skip_space]. change (isSpace "{") with false. cbv iota.
    change ("{" =? "{")%char with true. cbv iota.
    rewrite decide_False by lia. reflexivity. }
  destruct (reads_back_members w val n (k :: ks) ltac:(done) Hall)
    as (ms & F & Hms & Hscan).
  exists (TObject ms), (S F).
  split; [cbn [interface_of]; by rewrite Hms, Hm|].
  intros [|fuel] d rest Hf Hd Hrest; [lia|].
  rewrite !append_assoc. norm_append.
  cbn [scan_value skip_space]. change (isSpace "{") with false. cbv iota.
  change ("{" =? "{")%char with true. cbv iota.
  rewrite decide_False by lia. rewrite Hscan by lia.
  assert (Hstart : ∃ s', String.concat ","
                     ((fun k => Marshal_string k +:+ ":" +:+ w k) <$> k :: ks)
                   +:+ String "}" rest = String DQ s').
  { unfold Marshal_string at 1. destruct ks.
    - cbn [fmap list_fmap String.concat]. rewrite !append_cons. by eexists.
    - rewrite !fmap_cons, concat_cons2. rewrite !append_cons. by eexists. }
  destruct Hstart as [s' ->]. reflexivity.
Qed.

(** The text that [writeJSONValue] writes for a decodable value starts as a
    value does and is read back as the value. *)
Lemma writeJSONValue_reads_back ord v :
  rearranges ord →
  ∀ n, decodable n v →
       first_is starts_value (writeJSONValue ord v)
       ∧ reads_back (writeJSONValue ord v) v n.
Proof.
  intros Hord. induction v as [|b|s|tok|items IH|m IH] using any_ind;
    intros n Hv; inversion Hv as [| |? ? Hs|? ? Htok|k items' Hitems|k m' Hm];
    subst.
  - split; [done|apply reads_back_null].
  - split; [by destruct b|apply (reads_back_bool n b)].
  - split; [done|by apply reads_back_string].
  - split; [|by apply reads_back_number]. cbn [writeJSONValue].
    destruct Htok as [_ Hfirst]. revert Hfirst. apply first_is_weaken.
    intros c Hc. by destruct (number_start c Hc) as (_ & _ & _ & _ & ?).
  - split; [done|]. cbn [writeJSONValue]. apply reads_back_array.
    rewrite Forall_forall in IH, Hitems. apply Forall_forall. intros x Hx.
    apply (IH x Hx k), Hitems, Hx.
  - destruct (writeJSONObject_sorted ord m Hord) as (ks & Hks & _ & ->).
    split; [done|].
    apply (reads_back_object (fun key => writeJSONValue ord (m !!! key))
             (fun key => m !!! key)); [|by apply store_written_members].
    apply Forall_forall. intros key Hkey. rewrite Hks in Hkey.
    apply list_elem_of_fmap in Hkey as ([key' x] & -> & Hin). cbn.
    apply elem_of_map_to_list in Hin.
    rewrite (lookup_total_correct m key' x Hin).
    destruct (Hm key' x Hin) as [Hvalid Hx]. split; [done|].
    apply (IH key' x Hin k Hx).
Qed.

(** The text that [writeJSONValue] writes for a value that [decodeJSON]
    returns is decoded as the value. *)
Lemma decodeJSON_writeJSONValue ord v :
  rearranges ord → decodable maxNestingDepth v →
  decodeJSON (writeJSONValue ord v) = Ok v.
Proof.
  intros Hord Hv.
  destruct (writeJSONValue_reads_back ord v Hord _ Hv)
    as (Hfirst & t & F & Ht & Hscan).
  set (text := writeJSONValue ord v) in *.
  specialize (Hscan (F `max` scan_fuel text)%nat 0%nat "" ltac:(lia) ltac:(lia) I).
  rewrite append_nil_r in Hscan.
  rewrite scan_value_fuel in Hscan by lia.
  apply first_is_cons in Hfirst as (c & s' & Heq & Hc).
  destruct (starts_value_no_space c Hc) as (Hspace & _).
  unfold decodeJSON, decode_tree, Decode. rewrite Hscan, Heq.
  cbn [skip_space]. rewrite Hspace. cbn [mbind result_bind].
  assert (ensureEOF "" = Ok ()) as -> by reflexivity.
  cbn [mbind result_bind]. by rewrite Ht.
Qed.

Lemma CanonicalizeMeta_object ord raw out :
  CanonicalizeMeta ord raw = Ok out → raw ≠ "" →
  ∃ obj, decodeJSON raw = Ok (JObject obj)
         ∧ out = writeJSONValue ord (JObject obj).
Proof.
  unfold CanonicalizeMeta. intros H Hraw.
  rewrite decide_False in H by by rewrite length_zero.
  destruct (decodeJSON raw) as [[| | | | |obj]|]; try done.
  cbn [mbind result_bind] in H. injection H as <-. by exists obj.
Qed.

(** X17: canonicalization keeps the value.  The text that [CanonicalizeMeta]
    returns for metadata that is not empty is decoded by [decodeJSON] as the
    metadata is: as the same object, with the same members, the same strings
    and the same number tokens, at every level; and every value that
    [decodeJSON] returns is written by [writeJSONValue] as a text that
    [decodeJSON] reads back as that value. *)
Theorem CanonicalizeMeta_keeps_value (range_order : list string → list string)
    (raw out : string) :
  rearranges range_order →
  CanonicalizeMeta range_order raw = Ok out → raw ≠ "" →
  decodeJSON out = decodeJSON raw
  ∧ ∀ raw' v, decodeJSON raw' = Ok v →
              decodeJSON (writeJSONValue range_order v) = Ok v.
Proof.
  intros Hord Hc Hraw. split.
  - destruct (CanonicalizeMeta_object _ _ _ Hc Hraw) as (obj & Hd & ->).
    rewrite Hd. apply decodeJSON_writeJSONValue; [done|].
    by eapply decodeJSON_decodable.
  - intros raw' v Hd. apply decodeJSON_writeJSONValue; [done|].
    by eapply decodeJSON_decodable.
Qed.

Lemma CanonicalizeMeta_keeps_value_witness :
  let raw := quoted " { 'b' : [1.50, 'x'], 'a' : {'k' : null}, 'b' : 2 } " in
  let out := quoted "{'a':{'k':null},'b':2}" in
  decodeJSON out = decodeJSON raw
  ∧ ∀ raw' v, decodeJSON raw' = Ok v → decodeJSON (writeJSONValue id v) = Ok v.
Proof.
  intros raw out. apply (CanonicalizeMeta_keeps_value id raw out).
  - intros l. reflexivity.
  - vm_compute. reflexivity.
  - discriminate.
Defined.

Lemma CanonicalizeMeta_fixed ord1 ord2 raw out :
  rearranges ord1 → rearranges ord2 →
  CanonicalizeMeta ord1 raw = Ok out → CanonicalizeMeta ord2 out = Ok out.
Proof.
  intros H1 H2 Hc. destruct (decide (raw = "")) as [->|Hraw].
  { by injection Hc as <-. }
  destruct (CanonicalizeMeta_object _ _ _ Hc Hraw) as (obj & Hd & ->).
  pose proof (decodeJSON_decodable _ _ Hd) as Hobj.
  pose proof (decodeJSON_writeJSONValue ord1 _ H1 Hobj) as Hback.
  destruct (writeJSONValue_reads_back ord1 _ H1 _ Hobj) as [Hfirst _].
  unfold CanonicalizeMeta. rewrite Hback. cbn [mbind result_bind].
  case_decide as Hlen.
  - apply length_zero in Hlen. rewrite Hlen in Hfirst. done.
  - f_equal. apply (writeJSONValue_order ord2 ord1 (JObject obj) H2 H1).
Qed.

(** X18: the canonical form is a fixed point.  [CanonicalizeMeta] returns
    the text it is given when that text is one it has returned, in whatever
    order the two calls range over the maps; so [HashIntent] gives a record
    whose metadata is replaced by its canonical form the digest of the
    record. *)
Theorem CanonicalizeMeta_idempotent (ord1 ord2 : list string → list string)
    (raw out : string) (r : IntentRecord) :
  rearranges ord1 → rearranges ord2 →
  CanonicalizeMeta ord1 raw = Ok out →
  CanonicalizeMeta ord2 out = Ok out
  ∧ HashIntent ord2 (with_Meta r out) = HashIntent ord1 (with_Meta r raw).
Proof.
  intros H1 H2 Hc.
  pose proof (CanonicalizeMeta_fixed ord1 ord2 raw out H1 H2 Hc) as Hfix.
  split; [exact Hfix|]. apply HashIntent_meta. by rewrite Hfix, Hc.
Qed.

Lemma CanonicalizeMeta_idempotent_witness :
  let raw := quoted " { 'b' : [1.50, 'x'], 'a' : {'k' : null} } " in
  let out := quoted "{'a':{'k':null},'b':[1.50,'x']}" in
  CanonicalizeMeta reverse out = Ok out
  ∧ HashIntent reverse (with_Meta example_record out)
    = HashIntent id (with_Meta example_record raw).
Proof.
  intros raw out.
  apply (CanonicalizeMeta_idempotent id reverse raw out example_record).
  - intros l. reflexivity.
  - intros l. apply reverse_Permutation.
  - vm_compute. reflexivity.
Defined.

(** ** The preimage determines the fields *)

Lemma append_inv_tail (s1 s2 r : string) : s1 +:+ r = s2 +:+ r → s1 = s2.
Proof.
  revert s2. induction s1 as [|c s1 IH]; intros [|c2 s2] H.
  - done.
  - apply (f_equal String.length) in H. rewrite append_cons in H.
    cbn [String.length] in H. rewrite append_nil_l, append_length in H. lia.
  - apply (f_equal String.length) in H. rewrite append_cons in H.
    cbn [String.length] in H. rewrite append_nil_l, append_length in H. lia.
  - rewrite !append_cons in H. injection H as -> H. by rewrite (IH _ H).
Qed.

Lemma reads_back_Marshal n s :
  reads_back (Marshal_string s) (JString (coerce_from 0 s)) n.
Proof.
  exists (TString (coerce_from 0 s)), 1%nat. split; [done|].
  intros [|fuel] d rest Hf Hd Hrest; [lia|].
  unfold Marshal_string. rewrite !append_cons, append_assoc. unfold ch.
  norm_append. cbn [scan_value skip_space].
  change (isSpace DQ) with false. cbv iota.
  change (DQ =? "{")%char with false. change (DQ =? "[")%char with false.
  change (DQ =? DQ)%char with true. cbv iota.
  by rewrite Marshal_string_scan.
Qed.

Lemma Marshal_string_same s1 s2 :
  Marshal_string s1 = Marshal_string s2 → same_text s1 s2.
Proof.
  unfold Marshal_string, same_text, ch. intros [= H].
  pose proof (Marshal_string_scan s1 "") as H1.
  pose proof (Marshal_string_scan s2 "") as H2.
  rewrite H in H1. congruence.
Qed.

(** A value is read off the front of a text in one way. *)
Lemma value_peel T1 T2 R1 R2 :
  readable T1 → readable T2 → stops R1 → stops R2 →
  T1 +:+ R1 = T2 +:+ R2 → T1 = T2 ∧ R1 = R2.
Proof.
  intros (v1 & t1 & F1 & _ & H1) (v2 & t2 & F2 & _ & H2) Hs1 Hs2 H.
  specialize (H1 (F1 `max` F2)%nat 0%nat R1 ltac:(lia) ltac:(lia) Hs1).
  specialize (H2 (F1 `max` F2)%nat 0%nat R2 ltac:(lia) ltac:(lia) Hs2).
  rewrite H in H1. assert (R1 = R2) as -> by congruence.
  split; [|done]. by apply append_inv_tail in H.
Qed.

Lemma field_peel f1 f2 R1 R2 :
  plain_name f1.1 → plain_name f2.1 → readable f1.2 → readable f2.2 →
  stops R1 → stops R2 →
  field_text f1 +:+ R1 = field_text f2 +:+ R2 → f1 = f2 ∧ R1 = R2.
Proof.
  destruct f1 as [n1 T1], f2 as [n2 T2]. cbn [fst snd].
  intros Hn1 Hn2 HT1 HT2 Hs1 Hs2. unfold field_text, ch. cbn [fst snd].
  rewrite !append_assoc. norm_append. intros [= H].
  specialize (Hn1 (String ":" (T1 +:+ R1))).
  specialize (Hn2 (String ":" (T2 +:+ R2))).
  rewrite H in Hn1. assert (n1 = n2) as -> by congruence.
  assert (T1 +:+ R1 = T2 +:+ R2) as HT by congruence.
  by destruct (value_peel _ _ _ _ HT1 HT2 Hs1 Hs2 HT) as [-> ->].
Qed.

(** What follows a field: the comma and the other fields, or the end. *)
Lemma fields_cons (f : string * string) fs X :
  String.concat "," (field_text <$> f :: fs) +:+ String "}" X
  = field_text f
    +:+ match fs with
        | [] => String "}" X
        | _ => String "," (String.concat "," (field_text <$> fs) +:+ String "}" X)
        end.
Proof.
  destruct fs as [|g fs]; [done|].
  rewrite fmap_cons, fmap_cons, concat_cons2, <- fmap_cons.
  by rewrite !append_assoc.
Qed.

Lemma field_text_first f R : ∃ R', field_text f +:+ R = String DQ R'.
Proof. unfold field_text, ch. rewrite !append_assoc. norm_append. by eexists. Qed.

(** The text of the fields, closed by the brace, is the text of no other
    list of fields. *)
Lemma fields_text_inj fs1 :
  ∀ fs2 X1 X2,
    Forall (fun f => plain_name f.1 ∧ readable f.2) fs1 →
    Forall (fun f => plain_name f.1 ∧ readable f.2) fs2 →
    String.concat "," (field_text <$> fs1) +:+ String "}" X1
    = String.concat "," (field_text <$> fs2) +:+ String "}" X2 →
    fs1 = fs2 ∧ X1 = X2.
Proof.
  induction fs1 as [|f1 fs1 IH]; intros [|f2 fs2] X1 X2 H1 H2 H.
  - cbn in H. by injection H as ->.
  - rewrite fields_cons in H.
    match type of H with _ = _ +:+ ?R =>
      destruct (field_text_first f2 R) as [R' HR] end.
    rewrite HR in H. cbn in H. discriminate.
  - rewrite fields_cons in H.
    match type of H with _ +:+ ?R = _ =>
      destruct (field_text_first f1 R) as [R' HR] end.
    rewrite HR in H. cbn in H. discriminate.
  - rewrite !fields_cons in H.
    apply Forall_cons in H1 as [[Hn1 HT1] H1].
    apply Forall_cons in H2 as [[Hn2 HT2] H2].
    apply field_peel in H as [-> H]; try done.
    + destruct fs1 as [|g1 fs1], fs2 as [|g2 fs2]; try discriminate.
      * by injection H as ->.
      * injection H as H. by destruct (IH _ _ _ H1 H2 H) as [-> ->].
    + by destruct fs1.
    + by destruct fs2.
Qed.

(** ** The normalized timestamp is ASCII *)

Lemma ascii_only_app s t : ascii_only s → ascii_only t → ascii_only (s +:+ t).
Proof.
  induction s as [|c s IH]; [done|]. rewrite append_cons. cbn [ascii_only].
  intros [Hc Hs] Ht. split; [done|by apply IH].
Qed.

Lemma ascii_only_valid s : ascii_only s → valid_utf8 s.
Proof.
  unfold valid_utf8. induction s as [|c s IH]; [done|]. intros [Hc Hs].
  rewrite coerce_ascii by done. by rewrite IH.
Qed.

Lemma ascii_only_list l :
  Forall (fun c => code c < 128) l → ascii_only (string_of_list_ascii l).
Proof. induction 1; [done|]. by split. Qed.

Lemma list_ascii_only s :
  ascii_only s → Forall (fun c => code c < 128) (list_ascii_of_string s).
Proof.
  induction s as [|c s IH]; [constructor|]. intros [Hc Hs].
  constructor; [done|by apply IH].
Qed.

Lemma drop_zeros_Forall (P : ascii → Prop) l : Forall P l → Forall P (drop_zeros l).
Proof.
  induction 1 as [|c l Hc Hl IH]; [constructor|]. cbn [drop_zeros].
  destruct (c =? "0")%char; [done|by constructor].
Qed.

Lemma ascii_only_uint d : ascii_only (DecimalString.NilZero.string_of_uint d).
Proof.
  assert (H : ascii_only (DecimalString.NilEmpty.string_of_uint d))
    by (induction d; cbn; try done; by split).
  by destruct d.
Qed.

Lemma ascii_only_zeros n : ascii_only (zeros n).
Proof. induction n as [|n IH]; [done|]. by split. Qed.

Lemma ascii_only_appendInt x w : ascii_only (appendInt x w).
Proof.
  unfold appendInt. apply ascii_only_app; [by destruct (x <? 0)|].
  apply ascii_only_app; [apply ascii_only_zeros|apply ascii_only_uint].
Qed.

Lemma ascii_only_appendNano n : ascii_only (appendNano n).
Proof.
  unfold appendNano. destruct (n =? 0); [done|].
  apply ascii_only_app; [done|]. apply ascii_only_list, Forall_reverse.
  apply drop_zeros_Forall, Forall_reverse, list_ascii_only.
  apply ascii_only_appendInt.
Qed.

Lemma ascii_only_Format t : ascii_only (Format t).
Proof.
  unfold Format. destruct (civil_from_days _) as [[year month] day].
  repeat first
    [ apply ascii_only_appendInt | apply ascii_only_appendNano
    | apply ascii_only_app ]; try done.
  destruct (offset t =? 0); [done|].
  repeat first [ apply ascii_only_appendInt | apply ascii_only_app ];
    try done.
  by destruct (_ <? 0).
Qed.

Lemma normalizeRFC3339_valid value out :
  normalizeRFC3339 value = Ok out → valid_utf8 out.
Proof.
  unfold normalizeRFC3339. destruct (time_Parse value); [|done].
  cbn [mbind result_bind]. intros [= <-].
  apply ascii_only_valid, ascii_only_Format.
Qed.

(** ** The text of the preimage *)

Lemma string_cons_inj c (s t : string) : String c s = String c t → s = t.
Proof. by intros [= ->]. Qed.

Lemma preimage_shape ord r p :
  canonicalIntentPreimage ord r = Ok p →
  ∃ createdAt meta,
    normalizeRFC3339 (CreatedAt r) = Ok createdAt
    ∧ CanonicalizeMeta ord (Meta r) = Ok meta
    ∧ p = String "{" (String.concat "," (field_text <$> preimage_fields r createdAt meta)
                      +:+ String "}" "").
Proof.
  unfold canonicalIntentPreimage.
  destruct (decide (String.length (ID r) = 0)%nat); [done|].
  destruct (decide (String.length (CreatedAt r) = 0)%nat); [done|].
  destruct (normalizeRFC3339 (CreatedAt r)) as [createdAt|]; [|done].
  destruct (decide (String.length (Author r) = 0)%nat); [done|].
  destruct (decide (String.length (SourceType r) = 0)%nat); [done|].
  destruct (decide (String.length (Prompt r) = 0)%nat); [done|].
  destruct (decide (String.length (Response r) = 0)%nat); [done|].
  assert ((if decide (0 < String.length (Meta r))%nat
           then CanonicalizeMeta ord (Meta r) else Ok "")
          = CanonicalizeMeta ord (Meta r)) as ->.
  { destruct (decide (0 < String.length (Meta r))%nat); [done|].
    unfold CanonicalizeMeta. by rewrite decide_True by lia. }
  destruct (CanonicalizeMeta ord (Meta r)) as [meta|]; [|done].
  cbn [mbind result_bind]. intros [= <-]. exists createdAt, meta.
  split; [done|]. split; [done|]. unfold preimage_fields.
  destruct (decide (Title r = "")), (decide (0 < String.length meta)%nat),
    (decide (PrevHash r = ""));
    cbn [app fmap list_fmap String.concat addStringField addRawField fst snd];
    unfold field_text, ch; cbn [fst snd];
    rewrite !append_assoc; norm_append; reflexivity.
Qed.

Lemma canonical_meta_readable ord raw meta :
  rearranges ord → CanonicalizeMeta ord raw = Ok meta →
  (0 < String.length meta)%nat → readable meta.
Proof.
  intros Hord H Hlen.
  assert (raw ≠ "") as Hraw.
  { intros ->. unfold CanonicalizeMeta in H. cbn in H. injection H as <-.
    cbn in Hlen. lia. }
  destruct (CanonicalizeMeta_object _ _ _ H Hraw) as (obj & Hdec & ->).
  exists (JObject obj).
  by apply writeJSONValue_reads_back, (decodeJSON_decodable raw).
Qed.

Lemma preimage_fields_read ord r createdAt meta :
  rearranges ord → CanonicalizeMeta ord (Meta r) = Ok meta →
  Forall (fun f => plain_name f.1 ∧ readable f.2)
         (preimage_fields r createdAt meta).
Proof.
  intros Hord Hmeta.
  assert (Hs : ∀ name s, plain_name name →
                 plain_name (name, Marshal_string s).1
                 ∧ readable (name, Marshal_string s).2).
  { intros name s Hname. split; [done|]. eexists. apply reads_back_Marshal. }
  unfold preimage_fields.
  repeat first
    [ apply Forall_nil_2
    | apply Forall_app_2
    | apply Forall_cons_2; [apply Hs; by intros rest|]
    | match goal with |- context [decide ?P] => destruct (decide P) end ].
  apply Forall_cons_2; [|apply Forall_nil_2]. split; [by intros rest|].
  by apply (canonical_meta_readable ord (Meta r)).
Qed.

Lemma preimage_fields_eq r1 r2 c1 c2 m1 m2 :
  preimage_fields r1 c1 m1 = preimage_fields r2 c2 m2 →
  Marshal_string (ID r1) = Marshal_string (ID r2)
  ∧ Marshal_string c1 = Marshal_string c2
  ∧ Marshal_string (Author r1) = Marshal_string (Author r2)
  ∧ Marshal_string (SourceType r1) = Marshal_string (SourceType r2)
  ∧ Marshal_string (Title r1) = Marshal_string (Title r2)
  ∧ Marshal_string (Prompt r1) = Marshal_string (Prompt r2)
  ∧ Marshal_string (Response r1) = Marshal_string (Response r2)
  ∧ ((0 < String.length m1)%nat ∨ (0 < String.length m2)%nat → m1 = m2)
  ∧ Marshal_string (PrevHash r1) = Marshal_string (PrevHash r2).
Proof.
  unfold preimage_fields.
  destruct (decide (Title r1 = "")) as [->|], (decide (Title r2 = "")) as [->|],
    (decide (0 < String.length m1)%nat), (decide (0 < String.length m2)%nat),
    (decide (PrevHash r1 = "")) as [->|], (decide (PrevHash r2 = "")) as [->|];
    cbn [app]; intros H;
    repeat match goal with
      | H : _ :: _ = [] |- _ => discriminate H
      | H : [] = _ :: _ |- _ => discriminate H
      | H : _ :: _ = _ :: _ |- _ =>
          let Hf := fresh in let Hn := fresh in let Ht := fresh in
          injection H as Hf H;
          apply pair_equal_spec in Hf as [Hn Ht]; try discriminate Hn
      end;
    repeat split; try done; try congruence; intros [?|?]; done.
Qed.

(** X19: the preimage determines what is hashed.  Two records for which
    [canonicalIntentPreimage] returns the same text have the same id, author,
    source type, title, prompt, response and previous hash, each up to the
    replacement of the bytes that are not well-formed UTF-8 (so the same
    strings, when they are well formed); their timestamps are normalized to
    the same text; and their metadata is canonicalized to the same text and
    decoded as the same value, or is empty in both.  No field of one record
    is read as a part of another: the quotes and the escapes of the string
    fields, and the braces of the metadata, end each field where it ends. *)
Theorem preimage_determines_fields (range_order : list string → list string)
    (r1 r2 : IntentRecord) (preimage : string) :
  rearranges range_order →
  canonicalIntentPreimage range_order r1 = Ok preimage →
  canonicalIntentPreimage range_order r2 = Ok preimage →
  same_text (ID r1) (ID r2)
  ∧ normalizeRFC3339 (CreatedAt r1) = normalizeRFC3339 (CreatedAt r2)
  ∧ same_text (Author r1) (Author r2)
  ∧ same_text (SourceType r1) (SourceType r2)
  ∧ same_text (Title r1) (Title r2)
  ∧ same_text (Prompt r1) (Prompt r2)
  ∧ same_text (Response r1) (Response r2)
  ∧ same_text (PrevHash r1) (PrevHash r2)
  ∧ CanonicalizeMeta range_order (Meta r1) = CanonicalizeMeta range_order (Meta r2)
  ∧ (Meta r1 = "" ↔ Meta r2 = "")
  ∧ decodeJSON (Meta r1) = decodeJSON (Meta r2).
Proof.
  intros Hord H1 H2.
  destruct (preimage_shape _ _ _ H1) as (c1 & m1 & Hc1 & Hm1 & ->).
  destruct (preimage_shape _ _ _ H2) as (c2 & m2 & Hc2 & Hm2 & Hp).
  apply string_cons_inj in Hp.
  apply fields_text_inj in Hp as [Hp _];
    [|by apply (preimage_fields_read range_order)..].
  apply preimage_fields_eq in Hp
    as (Hid & Hc & Ha & Hs & Ht & Hpr & Hre & Hm & Hph).
  assert (m1 = m2) as <-.
  { destruct (decide (0 < String.length m1)%nat); [by apply Hm; left|].
    destruct (decide (0 < String.length m2)%nat); [by apply Hm; right|].
    destruct m1, m2; cbn [String.length] in *; try lia. done. }
  assert (Hempty : ∀ r, CanonicalizeMeta range_order (Meta r) = Ok m1 →
                        (Meta r = "" ↔ m1 = "")).
  { intros r Hr. split.
    - intros E. rewrite E in Hr. unfold CanonicalizeMeta in Hr. cbn in Hr.
      by injection Hr as <-.
    - intros ->. destruct (decide (Meta r = "")) as [|Hne]; [done|].
      by destruct (CanonicalizeMeta_object _ _ _ Hr Hne) as (obj & _ & ?). }
  repeat split; try by apply Marshal_string_same.
  - rewrite Hc1, Hc2. f_equal. apply Marshal_string_same in Hc.
    unfold same_text in Hc.
    by rewrite (normalizeRFC3339_valid _ _ Hc1),
      (normalizeRFC3339_valid _ _ Hc2) in Hc.
  - by rewrite Hm1, Hm2.
  - rewrite (Hempty r1 Hm1). by rewrite (Hempty r2 Hm2).
  - rewrite (Hempty r2 Hm2). by rewrite (Hempty r1 Hm1).
  - destruct (decide (Meta r1 = "")) as [E1|Hne1].
    { assert (Meta r2 = "") as -> by by apply (Hempty r2 Hm2), (Hempty r1 Hm1).
      by rewrite E1. }
    assert (Meta r2 ≠ "") as Hne2.
    { intros E2. apply Hne1. by apply (Hempty r1 Hm1), (Hempty r2 Hm2). }
    destruct (CanonicalizeMeta_object _ _ _ Hm1 Hne1) as (o1 & Hd1 & Ho1).
    destruct (CanonicalizeMeta_object _ _ _ Hm2 Hne2) as (o2 & Hd2 & Ho2).
    pose proof (decodeJSON_writeJSONValue range_order _ Hord
                  (decodeJSON_decodable _ _ Hd1)) as E1.
    pose proof (decodeJSON_writeJSONValue range_order _ Hord
                  (decodeJSON_decodable _ _ Hd2)) as E2.
    rewrite <- Ho1 in E1. rewrite <- Ho2 in E2. congruence.
Qed.

Lemma preimage_determines_fields_witness :
  let r1 := with_Meta (with_CreatedAt example_record "2026-02-09T12:00:00+02:00")
                      (quoted " { 'b' : 1, 'a' : [2] } ") in
  let r2 := with_Meta example_record (quoted "{'a':[2],'b':1}") in
  same_text (ID r1) (ID r2)
  ∧ normalizeRFC3339 (CreatedAt r1) = normalizeRFC3339 (CreatedAt r2)
  ∧ same_text (Author r1) (Author r2)
  ∧ same_text (SourceType r1) (SourceType r2)
  ∧ same_text (Title r1) (Title r2)
  ∧ same_text (Prompt r1) (Prompt r2)
  ∧ same_text (Response r1) (Response r2)
  ∧ same_text (PrevHash r1) (PrevHash r2)
  ∧ CanonicalizeMeta id (Meta r1) = CanonicalizeMeta id (Meta r2)
  ∧ (Meta r1 = "" ↔ Meta r2 = "")
  ∧ decodeJSON (Meta r1) = decodeJSON (Meta r2).
Proof.
  intros r1 r2.
  apply (preimage_determines_fields id r1 r2
           (quoted "{'id':'x','created_at':'2026-02-09T10:00:00Z','author':'a','source_type':'cli','prompt':'p','response':'r','meta':{'a':[2],'b':1}}")).
  - intros l. reflexivity.
  - vm_compute. reflexivity.
  - vm_compute. reflexivity.
Defined.
